(** * binary_io: a shallow embedding of [BinaryIO] and its wire format

    The development follows [binary_io.py] method by method.  Python values
    are modelled by the flat universe the module is written for (integers,
    strings, bytes, [None], and one-level lists, sets and dicts of those);
    the file object is a position inside a byte sequence; every method is a
    computation that threads the file object and may raise.

    Three things the module takes from its environment are modelled
    separately, and named as such below: [struct.pack]/[struct.unpack] in
    native mode (the width of a C long and the byte order are fields of a
    [platform]), the text codecs, and the builtin [sorted]. *)

From Stdlib Require Import ZArith List String Ascii Bool Lia Permutation Sorted.
From Stdlib.Strings Require Import Byte.
Import ListNotations.
Local Open Scope Z_scope.

(** ** Bytes *)

Definition Z_of_byte (b : byte) : Z := Z.of_N (Byte.to_N b).

Definition byte_of_Z (z : Z) : byte :=
  match Byte.of_N (Z.to_N (z mod 256)) with
  | Some b => b
  | None => x00
  end.

(** ** Python values *)

(** A string is its sequence of code points; [len] counts code points. *)
Definition pystr := list Z.

(** Hashable scalar values: what a list, a set or a dict may hold here. *)
Inductive atom : Type :=
  | AInt (n : Z)
  | AStr (s : pystr)
  | ABytes (b : list byte)
  | ANone.

(** A set is given by its members in iteration order, a dict by its items
    in iteration order; a well-formed set has no repeated member and a
    well-formed dict no repeated key. *)
Inductive pyval : Type :=
  | PAtom (a : atom)
  | PList (l : list atom)
  | PSet (l : list atom)
  | PDict (m : list (atom * atom)).

Definition PInt (n : Z) : pyval := PAtom (AInt n).
Definition PStr (s : pystr) : pyval := PAtom (AStr s).
Definition PBytes (b : list byte) : pyval := PAtom (ABytes b).
Definition PNone : pyval := PAtom ANone.

(** ** Exceptions *)

(** The module raises [ValueError] with six different messages; a message is
    kept as its format string (the constructor) and the formatted value. *)
Inductive message : Type :=
  | format_unsupported_number_expected (fmt : string)
      (* 'format {} unsupported, number expected' *)
  | not_a_short_sequence
      (* 'not a short string/bytes sequence' *)
  | duplicate_key (key : atom)
      (* 'duplicate key {}' *)
  | type_unsupported_scalar_expected (typ : string)
      (* 'type {} unsupported, scalar expected' *)
  | value_type_unsupported_scalar_expected (typ : string)
      (* 'value_type {} unsupported, scalar expected' *)
  | type_unsupported (typ : string).
      (* 'type {} unsupported' *)

Inductive exn : Type :=
  | ValueError (msg : message)
  | StructError          (* struct.error *)
  | TypeError
  | AttributeError
  | IndexError
  | KeyError
  | LookupError          (* unknown encoding *)
  | UnicodeEncodeError
  | UnicodeDecodeError.

Inductive result (A : Type) : Type :=
  | Ok (a : A)
  | Raise (e : exn).
Arguments Ok {A} a.
Arguments Raise {A} e.

Definition rbind {A B} (r : result A) (k : A -> result B) : result B :=
  match r with
  | Ok a => k a
  | Raise e => Raise e
  end.

(** ** The file object *)

(** The bytes before the position and the bytes from the position on.  The
    module only reads and writes sequentially, so a position never lies
    beyond the end.  [io.BytesIO()] is [BytesIO []]. *)
Record stream : Type := mkStream { behind : list byte; ahead : list byte }.

Definition BytesIO (initial : list byte) : stream := mkStream [] initial.
Definition getbuffer (f : stream) : list byte := behind f ++ ahead f.

(** [file_object.read(length)]: at most [length] bytes, all of them when
    [length] is negative. *)
Definition file_read (length : Z) (f : stream) : list byte * stream :=
  if length <? 0 then (ahead f, mkStream (behind f ++ ahead f) [])
  else
    let data := firstn (Z.to_nat length) (ahead f) in
    (data, mkStream (behind f ++ data) (skipn (Z.to_nat length) (ahead f))).

(** [file_object.write(data)] for bytes: overwrite from the position on. *)
Definition file_write (data : list byte) (f : stream) : stream :=
  mkStream (behind f ++ data) (skipn (List.length data) (ahead f)).

(** ** Computations on the file object *)

Definition io (A : Type) : Type := stream -> result A * stream.

Definition ret {A} (a : A) : io A := fun f => (Ok a, f).
Definition raise {A} (e : exn) : io A := fun f => (Raise e, f).
Definition lift {A} (r : result A) : io A := fun f => (r, f).
Definition bind {A B} (m : io A) (k : A -> io B) : io B :=
  fun f =>
    match m f with
    | (Ok a, f') => k a f'
    | (Raise e, f') => (Raise e, f')
    end.

Declare Scope io_scope.
Delimit Scope io_scope with io.
Notation "x <- m ;; k" := (bind m (fun x => k))
  (at level 61, m at next level, right associativity) : io_scope.
Notation "' p <- m ;; k" := (bind m (fun x => let p := x in k))
  (at level 61, p pattern, m at next level, right associativity) : io_scope.
Local Open Scope io_scope.

(** ** Builtins on values *)

(** [len(x)] *)
Definition py_len (x : pyval) : result Z :=
  match x with
  | PAtom (AStr s) => Ok (Z.of_nat (List.length s))
  | PAtom (ABytes b) => Ok (Z.of_nat (List.length b))
  | PAtom (AInt _) | PAtom ANone => Raise TypeError
  | PList l => Ok (Z.of_nat (List.length l))
  | PSet l => Ok (Z.of_nat (List.length l))
  | PDict m => Ok (Z.of_nat (List.length m))
  end.

(** [iter(x)]: a string yields its one-character strings, bytes yield
    integers, a dict yields its keys. *)
Definition py_iter (x : pyval) : result (list atom) :=
  match x with
  | PAtom (AStr s) => Ok (map (fun c => AStr [c]) s)
  | PAtom (ABytes b) => Ok (map (fun c => AInt (Z_of_byte c)) b)
  | PAtom (AInt _) | PAtom ANone => Raise TypeError
  | PList l => Ok l
  | PSet l => Ok l
  | PDict m => Ok (map fst m)
  end.

(** [x.items()] *)
Definition py_items (x : pyval) : result (list (atom * atom)) :=
  match x with
  | PDict m => Ok m
  | _ => Raise AttributeError
  end.

Fixpoint list_eqb {A} (eqb : A -> A -> bool) (s t : list A) : bool :=
  match s, t with
  | [], [] => true
  | x :: s', y :: t' => eqb x y && list_eqb eqb s' t'
  | _, _ => false
  end.

(** [a == b] *)
Definition atom_eqb (a b : atom) : bool :=
  match a, b with
  | AInt x, AInt y => x =? y
  | AStr s, AStr t => list_eqb Z.eqb s t
  | ABytes s, ABytes t => list_eqb Byte.eqb s t
  | ANone, ANone => true
  | _, _ => false
  end.

(** Lexicographic [<] on sequences: the first difference decides, and a
    proper prefix is smaller. *)
Fixpoint lex_ltb (s t : list Z) : bool :=
  match s, t with
  | _, [] => false
  | [], _ :: _ => true
  | x :: s', y :: t' =>
      if x <? y then true else if y <? x then false else lex_ltb s' t'
  end.

(** [a < b]: defined between two integers, two strings or two bytes
    objects, a [TypeError] otherwise. *)
Definition py_lt (a b : atom) : result bool :=
  match a, b with
  | AInt x, AInt y => Ok (x <? y)
  | AStr s, AStr t => Ok (lex_ltb s t)
  | ABytes s, ABytes t => Ok (lex_ltb (map Z_of_byte s) (map Z_of_byte t))
  | _, _ => Raise TypeError
  end.

(** [(k1, v1) < (k2, v2)]: the first component that differs decides. *)
Definition tuple_lt (x y : atom * atom) : result bool :=
  if atom_eqb (fst x) (fst y) then
    if atom_eqb (snd x) (snd y) then Ok false else py_lt (snd x) (snd y)
  else py_lt (fst x) (fst y).

(** The builtin [sorted], as a stable insertion sort that only asks [<]:
    an element goes in front of the first one that is not smaller. *)
Section Sorted.
Context {A : Type} (lt : A -> A -> result bool).

Fixpoint insert (x : A) (l : list A) : result (list A) :=
  match l with
  | [] => Ok [x]
  | y :: l' =>
      rbind (lt y x) (fun b =>
        if b then rbind (insert x l') (fun r => Ok (y :: r))
        else Ok (x :: y :: l'))
  end.

Fixpoint sorted (l : list A) : result (list A) :=
  match l with
  | [] => Ok []
  | x :: l' => rbind (sorted l') (insert x)
  end.
End Sorted.

(** [x in s] for a list of strings, a set or the keys of a dict *)
Definition str_in (x : string) (s : list string) : bool :=
  existsb (String.eqb x) s.
Definition atom_in (x : atom) (s : list atom) : bool :=
  existsb (atom_eqb x) s.

(** [s.add(x)] *)
Definition set_add (x : atom) (s : list atom) : list atom :=
  if atom_in x s then s else s ++ [x].

(** [seq[i]] *)
Definition index {A} (l : list A) (i : nat) : result A :=
  match nth_error l i with
  | Some a => Ok a
  | None => Raise IndexError
  end.

(** [d[k]] *)
Fixpoint lookup {A} (d : list (string * A)) (k : string) : result A :=
  match d with
  | [] => Raise KeyError
  | (k', v) :: d' => if String.eqb k k' then Ok v else lookup d' k
  end.

(** ** [struct] in native mode *)

(** What native mode takes from the C compiler: the width of [long] (8 bytes
    under LP64, 4 under ILP32 and LLP64) and the byte order.  [char] is one
    byte and [int] four on all of them. *)
Inductive data_model : Type := ILP32 | LLP64 | LP64.
Inductive byte_order : Type := LittleEndian | BigEndian.

Class platform : Type := mkPlatform { model : data_model; order : byte_order }.

Definition x86_64_linux : platform := mkPlatform LP64 LittleEndian.
Definition x86_64_windows : platform := mkPlatform LLP64 LittleEndian.
Definition s390x_linux : platform := mkPlatform LP64 BigEndian.

(** The [k] low bytes of [n], least significant first; a negative [n] comes
    out in two's complement. *)
Fixpoint le_bytes (k : nat) (n : Z) : list byte :=
  match k with
  | O => []
  | S k' => byte_of_Z n :: le_bytes k' (n / 256)
  end.

Fixpoint le_value (bs : list byte) : Z :=
  match bs with
  | [] => 0
  | b :: bs' => Z_of_byte b + 256 * le_value bs'
  end.

Section Struct.
Context {P : platform}.

Definition sizeof_long : nat :=
  match model with
  | LP64 => 8
  | ILP32 | LLP64 => 4
  end%nat.

(** Signedness and width of the format characters the module uses. *)
Definition format_char (fmt : string) : option (bool * nat) :=
  if String.eqb fmt "b" then Some (true, 1%nat)
  else if String.eqb fmt "B" then Some (false, 1%nat)
  else if String.eqb fmt "i" then Some (true, 4%nat)
  else if String.eqb fmt "I" then Some (false, 4%nat)
  else if String.eqb fmt "l" then Some (true, sizeof_long)
  else if String.eqb fmt "L" then Some (false, sizeof_long)
  else None.

Definition native (bs : list byte) : list byte :=
  match order with
  | LittleEndian => bs
  | BigEndian => rev bs
  end.

Definition in_range (signed : bool) (k : nat) (n : Z) : bool :=
  if signed then
    (- 2 ^ (8 * Z.of_nat k - 1) <=? n) && (n <? 2 ^ (8 * Z.of_nat k - 1))
  else (0 <=? n) && (n <? 2 ^ (8 * Z.of_nat k)).

(** [struct.pack(fmt, number)]: [struct.error] unless [number] is an
    integer that fits.  Only the six formats of [NUMERIC_FMT] are modelled:
    they are the ones the module passes, in [write_scalar] after its test of
    [NUMERIC_FMT] and as the length prefixes ['I'] and ['B'].  A caller's own
    [write_number] with another [struct] format is outside this model. *)
Definition struct_pack (fmt : string) (number : pyval) : result (list byte) :=
  match format_char fmt with
  | None => Raise StructError
  | Some (signed, k) =>
      match number with
      | PAtom (AInt n) =>
          if in_range signed k n then Ok (native (le_bytes k n))
          else Raise StructError
      | _ => Raise StructError
      end
  end.

(** [struct.unpack(fmt, data)[0]]: [struct.error] unless [data] has the
    size of the format. *)
Definition struct_unpack (fmt : string) (data : list byte) : result Z :=
  match format_char fmt with
  | None => Raise StructError
  | Some (signed, k) =>
      if Nat.eqb (List.length data) k then
        let u := le_value (native data) in
        if signed && (2 ^ (8 * Z.of_nat k - 1) <=? u)
        then Ok (u - 2 ^ (8 * Z.of_nat k))
        else Ok u
      else Raise StructError
  end.
End Struct.

(** ** Text codecs *)

(** The three encodings the module's documentation and self-test name, under
    those names.  Python resolves other spellings of them and has many more
    codecs, some of which do not decode what they encoded; any other name is
    unknown to this model, which then says [LookupError].  A statement that
    depends on which codec a hint names is made for these three only, under
    [hint_modelled]. *)
Inductive codec : Type := UTF8 | Latin1 | Ascii.

Definition lookup_codec (enc : string) : option codec :=
  if String.eqb enc "utf-8" then Some UTF8
  else if String.eqb enc "latin-1" then Some Latin1
  else if String.eqb enc "ascii" then Some Ascii
  else None.

Definition utf8_encode_char (c : Z) : option (list byte) :=
  if c <? 0 then None
  else if c <? 128 then Some [byte_of_Z c]
  else if c <? 2048 then
    Some [byte_of_Z (192 + c / 64); byte_of_Z (128 + c mod 64)]
  else if c <? 65536 then
    if (55296 <=? c) && (c <=? 57343) then None
    else Some [byte_of_Z (224 + c / 4096); byte_of_Z (128 + (c / 64) mod 64);
               byte_of_Z (128 + c mod 64)]
  else if c <? 1114112 then
    Some [byte_of_Z (240 + c / 262144); byte_of_Z (128 + (c / 4096) mod 64);
          byte_of_Z (128 + (c / 64) mod 64); byte_of_Z (128 + c mod 64)]
  else None.

Definition single_byte_encode_char (bound : Z) (c : Z) : option (list byte) :=
  if (0 <=? c) && (c <? bound) then Some [byte_of_Z c] else None.

Fixpoint encode_chars (f : Z -> option (list byte)) (s : pystr)
  : option (list byte) :=
  match s with
  | [] => Some []
  | c :: s' =>
      match f c, encode_chars f s' with
      | Some bs, Some r => Some (bs ++ r)
      | _, _ => None
      end
  end.

Definition is_continuation (b : byte) : bool :=
  (128 <=? Z_of_byte b) && (Z_of_byte b <? 192).

(** Strict UTF-8: no overlong form, no surrogate, nothing above U+10FFFF, no
    truncated sequence. *)
Fixpoint utf8_decode (bs : list byte) : option pystr :=
  match bs with
  | [] => Some []
  | b0 :: r0 =>
      let x0 := Z_of_byte b0 in
      if x0 <? 128 then option_map (cons x0) (utf8_decode r0)
      else if x0 <? 192 then None
      else
        match r0 with
        | [] => None
        | b1 :: r1 =>
            let x1 := Z_of_byte b1 in
            if x0 <? 224 then
              let c := (x0 - 192) * 64 + (x1 - 128) in
              if is_continuation b1 && (128 <=? c)
              then option_map (cons c) (utf8_decode r1) else None
            else
              match r1 with
              | [] => None
              | b2 :: r2 =>
                  let x2 := Z_of_byte b2 in
                  if x0 <? 240 then
                    let c := (x0 - 224) * 4096 + (x1 - 128) * 64 + (x2 - 128) in
                    if is_continuation b1 && is_continuation b2
                       && (2048 <=? c)
                       && negb ((55296 <=? c) && (c <=? 57343))
                    then option_map (cons c) (utf8_decode r2) else None
                  else
                    match r2 with
                    | [] => None
                    | b3 :: r3 =>
                        let x3 := Z_of_byte b3 in
                        let c := (x0 - 240) * 262144 + (x1 - 128) * 4096
                                 + (x2 - 128) * 64 + (x3 - 128) in
                        if (x0 <? 248) && is_continuation b1
                           && is_continuation b2 && is_continuation b3
                           && (65536 <=? c) && (c <? 1114112)
                        then option_map (cons c) (utf8_decode r3) else None
                    end
              end
        end
  end.

Definition ascii_decode (bs : list byte) : option pystr :=
  if forallb (fun b => Z_of_byte b <? 128) bs
  then Some (map Z_of_byte bs) else None.

(** [str.encode] / [bytes(string, encoding=...)] *)
Definition codec_encode (c : codec) (s : pystr) : result (list byte) :=
  let r := match c with
           | UTF8 => encode_chars utf8_encode_char s
           | Latin1 => encode_chars (single_byte_encode_char 256) s
           | Ascii => encode_chars (single_byte_encode_char 128) s
           end in
  match r with
  | Some bs => Ok bs
  | None => Raise UnicodeEncodeError
  end.

(** [bytes.decode] *)
Definition codec_decode (c : codec) (bs : list byte) : result pystr :=
  let r := match c with
           | UTF8 => utf8_decode bs
           | Latin1 => Some (map Z_of_byte bs)
           | Ascii => ascii_decode bs
           end in
  match r with
  | Some s => Ok s
  | None => Raise UnicodeDecodeError
  end.

(** ** Type descriptors *)

(** A parsed component of a descriptor: the tag and the encoding hint. *)
Definition item_type : Type := string * option string.

(** [s.split(sep)] for a one-character separator *)
Fixpoint split (sep : ascii) (s : string) : list string :=
  match s with
  | EmptyString => [EmptyString]
  | String c s' =>
      if Ascii.eqb c sep then EmptyString :: split sep s'
      else
        match split sep s' with
        | [] => [String c EmptyString]
        | h :: t => String c h :: t
        end
  end.

(** [(s[:i], s[i+1:])] for the first index [i] of [sep] in [s], if any *)
Fixpoint cut (sep : ascii) (s : string) : option (string * string) :=
  match s with
  | EmptyString => None
  | String c s' =>
      if Ascii.eqb c sep then Some (EmptyString, s')
      else option_map (fun p => (String c (fst p), snd p)) (cut sep s')
  end.

Definition parse_type_component (type_component : string) : item_type :=
  match cut "/" type_component with
  | Some (typ, enc) => (typ, Some enc)
  | None => (type_component, None)
  end.

Definition parse_type_descr (type_descr : string) : list item_type :=
  map parse_type_component (split ":" type_descr).

(** ** The class [BinaryIO] *)

Section BinaryIO.
Context {P : platform}.

(** *** static_initialization *)

Definition NUMERIC_FMT : list string := ["b"; "B"; "i"; "I"; "l"; "L"]%string.
Definition STRING_TYPES : list string := ["str"; "sstr"]%string.
Definition BYTES_TYPES : list string := ["byt"; "sbyt"]%string.
Definition SCALAR_TYPES : list string :=
  NUMERIC_FMT ++ STRING_TYPES ++ BYTES_TYPES.
Definition DEFAULT_ENC : string := "utf-8".
Definition LONG_TYPE : item_type := ("I"%string, None).
Definition SHORT_TYPE : item_type := ("B"%string, None).

Definition NUMBER_SIZES : list (string * Z) :=
  flat_map
    (fun fmt =>
       match struct_pack fmt (PInt 42) with
       | Ok bs => [(fmt, Z.of_nat (List.length bs))]
       | Raise _ => []
       end)
    NUMERIC_FMT.

(** *** Methods *)

Definition _in (length : Z) : io (list byte) :=
  fun f => let (data, f') := file_read length f in (Ok data, f').

(** [file_object.write] takes a bytes object and returns its length. *)
Definition _out (data : pyval) : io Z :=
  match data with
  | PAtom (ABytes bs) =>
      fun f => (Ok (Z.of_nat (List.length bs)), file_write bs f)
  | _ => raise TypeError
  end.

Definition read_number (number_type : item_type) : io Z :=
  let '(fmt, enc) := number_type in
  if negb (str_in fmt NUMERIC_FMT) then
    raise (ValueError (format_unsupported_number_expected fmt))
  else
    size <- lift (lookup NUMBER_SIZES fmt) ;;
    data <- _in size ;;
    lift (struct_unpack fmt data).

Definition write_number (number : pyval) (number_type : item_type) : io Z :=
  let '(fmt, enc) := number_type in
  data <- lift (struct_pack fmt number) ;;
  _out (PBytes data).

(** The method takes an argument and never looks at it. *)
Definition read_byte (number : pyval) : io Z :=
  let number_type := SHORT_TYPE in
  read_number number_type.

Definition write_byte (number : pyval) : io Z :=
  let number_type := SHORT_TYPE in
  write_number number number_type.

Definition _fmt_to_len_type (fmt : string) : item_type :=
  if String.eqb fmt "byt" || String.eqb fmt "str" then LONG_TYPE
  else SHORT_TYPE.

Definition _get_len_and_fmt (sequence : pyval) (fmt : string)
  : result (Z * item_type) :=
  rbind (py_len sequence) (fun length =>
    let '(typ, enc) := _fmt_to_len_type fmt in
    if String.eqb typ "B" && (255 <? length) then
      Raise (ValueError not_a_short_sequence)
    else Ok (length, (typ, enc))).

Definition read_bytes (item_type : item_type) : io (list byte) :=
  let '(fmt, enc) := item_type in
  let number_type := _fmt_to_len_type fmt in
  length <- read_number number_type ;;
  _in length.

Definition write_bytes (_bytes : pyval) (item_type : item_type) : io Z :=
  let '(fmt, enc) := item_type in
  '(length, number_type) <- lift (_get_len_and_fmt _bytes fmt) ;;
  n <- write_number (PInt length) number_type ;;
  k <- _out _bytes ;;
  ret (n + k).

(** [if not enc: enc = self.DEFAULT_ENC]: no hint, or an empty one. *)
Definition enc_or_default (enc : option string) : string :=
  match enc with
  | None | Some EmptyString => DEFAULT_ENC
  | Some e => e
  end.

(** [_bytes.decode(enc)]: an empty bytes object decodes to the empty string
    before the encoding is looked up, under any name. *)
Definition _decode_string (_bytes : list byte) (enc : option string)
  : result pystr :=
  let enc := enc_or_default enc in
  match _bytes with
  | [] => Ok []
  | _ :: _ =>
      match lookup_codec enc with
      | Some c => codec_decode c _bytes
      | None => Raise LookupError
      end
  end.

(** [bytes(string, encoding=enc)] asks for a string before it looks the
    encoding up. *)
Definition _encode_string (string_ : pyval) (enc : option string)
  : result (list byte) :=
  let enc := enc_or_default enc in
  match string_ with
  | PAtom (AStr s) =>
      match lookup_codec enc with
      | Some c => codec_encode c s
      | None => Raise LookupError
      end
  | _ => Raise TypeError
  end.

Definition read_string (item_type : item_type) : io pystr :=
  let '(fmt, enc) := item_type in
  let number_type := _fmt_to_len_type fmt in
  length <- read_number number_type ;;
  _bytes <- _in length ;;
  lift (_decode_string _bytes enc).

Definition write_string (string_ : pyval) (item_type : item_type) : io Z :=
  let '(fmt, enc) := item_type in
  _bytes <- lift (_encode_string string_ enc) ;;
  '(length, number_type) <- lift (_get_len_and_fmt (PBytes _bytes) fmt) ;;
  n <- write_number (PInt length) number_type ;;
  k <- _out (PBytes _bytes) ;;
  ret (n + k).

Definition read_scalar (item_type : item_type) : io atom :=
  let '(typ, enc) := item_type in
  if str_in typ NUMERIC_FMT then
    n <- read_number item_type ;; ret (AInt n)
  else if str_in typ STRING_TYPES then
    s <- read_string item_type ;; ret (AStr s)
  else if str_in typ BYTES_TYPES then
    b <- read_bytes item_type ;; ret (ABytes b)
  else raise (ValueError (type_unsupported_scalar_expected typ)).

Definition write_scalar (item : pyval) (item_type : item_type) : io Z :=
  let '(typ, enc) := item_type in
  if str_in typ NUMERIC_FMT then write_number item item_type
  else if str_in typ STRING_TYPES then write_string item item_type
  else if str_in typ BYTES_TYPES then write_bytes item item_type
  else raise (ValueError (value_type_unsupported_scalar_expected typ)).

(** [for i in range(l): vector.append(self.read_scalar(element_type))] *)
Fixpoint read_vector_loop (element_type : item_type) (l : nat)
    (vector : list atom) : io (list atom) :=
  match l with
  | O => ret vector
  | S l' =>
      x <- read_scalar element_type ;;
      read_vector_loop element_type l' (vector ++ [x])
  end.

Definition read_vector (element_type : item_type) : io (list atom) :=
  let vector := [] in
  l <- read_number LONG_TYPE ;;
  read_vector_loop element_type (Z.to_nat l) vector.

(** [for element in vector: n += self.write_scalar(element, element_type)] *)
Fixpoint write_vector_loop (vector : list atom) (element_type : item_type)
    (n : Z) : io Z :=
  match vector with
  | [] => ret n
  | element :: rest =>
      k <- write_scalar (PAtom element) element_type ;;
      write_vector_loop rest element_type (n + k)
  end.

Definition write_vector (vector : pyval) (element_type : item_type) : io Z :=
  let vector := match vector with PAtom ANone => PList [] | _ => vector end in
  length <- lift (py_len vector) ;;
  n <- write_number (PInt length) LONG_TYPE ;;
  elements <- lift (py_iter vector) ;;
  write_vector_loop elements element_type n.

Fixpoint read_set_loop (member_type : item_type) (l : nat) (s : list atom)
  : io (list atom) :=
  match l with
  | O => ret s
  | S l' =>
      x <- read_scalar member_type ;;
      read_set_loop member_type l' (set_add x s)
  end.

Definition read_set (member_type : item_type) : io (list atom) :=
  let s := [] in
  l <- read_number LONG_TYPE ;;
  read_set_loop member_type (Z.to_nat l) s.

Definition write_set (s : pyval) (member_type : item_type) : io Z :=
  length <- lift (py_len s) ;;
  n <- write_number (PInt length) LONG_TYPE ;;
  members <- lift (rbind (py_iter s) (sorted py_lt)) ;;
  write_vector_loop members member_type n.

Fixpoint read_map_loop (key_type value_type : item_type) (l : nat)
    (m : list (atom * atom)) : io (list (atom * atom)) :=
  match l with
  | O => ret m
  | S l' =>
      key <- read_scalar key_type ;;
      value <- read_scalar value_type ;;
      if atom_in key (map fst m) then
        raise (ValueError (duplicate_key key))
      else read_map_loop key_type value_type l' (m ++ [(key, value)])
  end.

Definition read_map (key_type value_type : item_type)
  : io (list (atom * atom)) :=
  let m := [] in
  l <- read_number LONG_TYPE ;;
  read_map_loop key_type value_type (Z.to_nat l) m.

Fixpoint write_map_loop (items : list (atom * atom))
    (key_type value_type : item_type) (n : Z) : io Z :=
  match items with
  | [] => ret n
  | (key, value) :: rest =>
      k <- write_scalar (PAtom key) key_type ;;
      v <- write_scalar (PAtom value) value_type ;;
      write_map_loop rest key_type value_type (n + k + v)
  end.

Definition write_map (m : pyval) (key_type value_type : item_type) : io Z :=
  length <- lift (py_len m) ;;
  n <- write_number (PInt length) LONG_TYPE ;;
  items <- lift (rbind (py_items m) (sorted tuple_lt)) ;;
  write_map_loop items key_type value_type n.

Definition read (type_descr : string) : io pyval :=
  let type_components := parse_type_descr type_descr in
  '(typ, enc) <- lift (index type_components 0) ;;
  if str_in typ SCALAR_TYPES then
    t0 <- lift (index type_components 0) ;;
    a <- read_scalar t0 ;; ret (PAtom a)
  else if String.eqb typ "vec" then
    t1 <- lift (index type_components 1) ;;
    l <- read_vector t1 ;; ret (PList l)
  else if String.eqb typ "set" then
    t1 <- lift (index type_components 1) ;;
    s <- read_set t1 ;; ret (PSet s)
  else if String.eqb typ "map" then
    t1 <- lift (index type_components 1) ;;
    t2 <- lift (index type_components 2) ;;
    m <- read_map t1 t2 ;; ret (PDict m)
  else raise (ValueError (type_unsupported typ)).

Definition write (item : pyval) (type_descr : string) : io Z :=
  let type_components := parse_type_descr type_descr in
  '(typ, enc) <- lift (index type_components 0) ;;
  if str_in typ SCALAR_TYPES then
    t0 <- lift (index type_components 0) ;;
    write_scalar item t0
  else if String.eqb typ "vec" then
    t1 <- lift (index type_components 1) ;;
    write_vector item t1
  else if String.eqb typ "set" then
    t1 <- lift (index type_components 1) ;;
    write_set item t1
  else if String.eqb typ "map" then
    t1 <- lift (index type_components 1) ;;
    t2 <- lift (index type_components 2) ;;
    write_map item t1 t2
  else raise (ValueError (type_unsupported typ)).
End BinaryIO.

(** ** Wire-level statements *)

(** [m] succeeds on every file object, writes exactly [bs] at the position
    and returns the number of bytes written. *)
Definition writes (m : io Z) (bs : list byte) : Prop :=
  forall f, m f = (Ok (Z.of_nat (List.length bs)), file_write bs f).

(** On every file object that has [bs] at the position, [m] consumes exactly
    [bs] and returns [a]. *)
Definition reads {A} (m : io A) (bs : list byte) (a : A) : Prop :=
  forall f rest,
    ahead f = bs ++ rest -> m f = (Ok a, mkStream (behind f ++ bs) rest).

(** [bs] is the encoding of the scalar [a] under [ty]. *)
Definition scalar_wire {P : platform} (ty : item_type) (a : atom)
    (bs : list byte) : Prop :=
  writes (write_scalar (PAtom a) ty) bs /\ reads (read_scalar ty) bs a.

(** [bs] is the encoding of the entry [kv]: its key, then its value. *)
Definition pair_wire {P : platform} (key_type value_type : item_type)
    (kv : atom * atom) (bs : list byte) : Prop :=
  exists bk bv,
    bs = bk ++ bv /\ scalar_wire key_type (fst kv) bk
    /\ scalar_wire value_type (snd kv) bv.

(** The members a set read keeps, in the order it meets them. *)
Definition collapse (l : list atom) : list atom :=
  fold_left (fun s x => set_add x s) l [].

(** The place in [keys] of the first key that repeats one before it. *)
Fixpoint first_duplicate (seen keys : list atom) : option nat :=
  match keys with
  | [] => None
  | k :: keys' =>
      if atom_in k seen then Some O
      else option_map S (first_duplicate (seen ++ [k]) keys')
  end.

(** ** Orders for the sorting policy *)

(** A decidable strict total order. *)
Class StrictTotal {A : Type} (ltb : A -> A -> bool) : Prop := {
  ltb_irrefl : forall a, ltb a a = false;
  ltb_trans : forall a b c, ltb a b = true -> ltb b c = true -> ltb a c = true;
  ltb_total : forall a b, ltb a b = false -> ltb b a = false -> a = b
}.

Definition lexprod {A B} (ltA : A -> A -> bool) (ltB : B -> B -> bool)
    (p q : A * B) : bool :=
  ltA (fst p) (fst q) || (negb (ltA (fst q) (fst p)) && ltB (snd p) (snd q)).

Definition pullback {A B} (f : A -> B) (ltB : B -> B -> bool) (a b : A) : bool :=
  ltB (f a) (f b).

(** Insertion sort with a total comparison, shaped like [sorted]. *)
Section PureSort.
Context {A : Type} (ltb : A -> A -> bool).

Fixpoint pinsert (x : A) (l : list A) : list A :=
  match l with
  | [] => [x]
  | y :: l' => if ltb y x then y :: pinsert x l' else x :: y :: l'
  end.

Fixpoint psort (l : list A) : list A :=
  match l with
  | [] => []
  | x :: l' => pinsert x (psort l')
  end.
End PureSort.

(** Every element can be compared with every later one. *)
Fixpoint uniform {A} (cmp : A -> A -> bool) (l : list A) : bool :=
  match l with
  | [] => true
  | x :: l' => forallb (cmp x) l' && uniform cmp l'
  end.

(** Every two elements at different places are related, both ways. *)
Fixpoint related_all {A} (R : A -> A -> Prop) (l : list A) : Prop :=
  match l with
  | [] => True
  | x :: l' => Forall (fun y => R x y /\ R y x) l' /\ related_all R l'
  end.

(** The kinds of value [<] is defined between. *)
Definition same_kind (a b : atom) : bool :=
  match a, b with
  | AInt _, AInt _ | AStr _, AStr _ | ABytes _, ABytes _ => true
  | _, _ => false
  end.

Definition atom_rank (a : atom) : Z :=
  match a with AInt _ => 0 | AStr _ => 1 | ABytes _ => 2 | ANone => 3 end.

Definition atom_key (a : atom) : list Z :=
  match a with
  | AInt n => [n]
  | AStr s => s
  | ABytes b => map Z_of_byte b
  | ANone => []
  end.

(** A total order on all scalars that agrees with [<] wherever [<] is
    defined. *)
Definition atom_ltb : atom -> atom -> bool :=
  pullback (fun a => (atom_rank a, atom_key a)) (lexprod Z.ltb lex_ltb).

Definition item_ltb : atom * atom -> atom * atom -> bool :=
  lexprod atom_ltb atom_ltb.

(** ** Statements about containers *)

(** A map stream written by hand: the count, then the entries in the order
    given, with the loop of [write_map] but without its sorting; unlike a
    dict, [items] may repeat a key. *)
Definition craft_map {P : platform} (items : list (atom * atom))
    (key_type value_type : item_type) : io Z :=
  n <- write_number (PInt (Z.of_nat (List.length items))) LONG_TYPE ;;
  write_map_loop items key_type value_type n.

(** What a length prefix can count: 255 bytes under the short tags, what
    four bytes hold under the long ones. *)
Definition payload_fits (fmt : string) (n : nat) : bool :=
  if String.eqb fmt "byt" || String.eqb fmt "str" then Z.of_nat n <? 2 ^ 32
  else Z.of_nat n <=? 255.

(** The values a scalar type can carry: an integer in the range of its
    format, a text its codec encodes, bytes, the latter two within the
    length prefix. *)
Definition representable {P : platform} (ty : item_type) (a : atom) : bool :=
  let '(typ, enc) := ty in
  if str_in typ NUMERIC_FMT then
    match a, format_char typ with
    | AInt n, Some (signed, k) => in_range signed k n
    | _, _ => false
    end
  else if str_in typ STRING_TYPES then
    match _encode_string (PAtom a) enc with
    | Ok payload => payload_fits typ (List.length payload)
    | Raise _ => false
    end
  else if str_in typ BYTES_TYPES then
    match a with
    | ABytes b => payload_fits typ (List.length b)
    | _ => false
    end
  else false.

(** ** Equality of values and well-formed containers *)

(** No element of [l] repeats an earlier one. *)
Definition distinct (l : list atom) : bool :=
  match first_duplicate [] l with
  | None => true
  | Some _ => false
  end.

(** [d.get(k)] on the items of a dict *)
Fixpoint dict_get (m : list (atom * atom)) (k : atom) : option atom :=
  match m with
  | [] => None
  | (k', v) :: m' => if atom_eqb k k' then Some v else dict_get m' k
  end.

(** [x == y]: lists compare element by element in order, sets by size and
    membership, dicts by size and value per key. *)
Definition py_eq (x y : pyval) : bool :=
  match x, y with
  | PAtom a, PAtom b => atom_eqb a b
  | PList l, PList l' => list_eqb atom_eqb l l'
  | PSet l, PSet l' =>
      Nat.eqb (List.length l) (List.length l')
      && forallb (fun a => atom_in a l') l
  | PDict m, PDict m' =>
      Nat.eqb (List.length m) (List.length m')
      && forallb (fun kv => match dict_get m' (fst kv) with
                            | Some v => atom_eqb (snd kv) v
                            | None => false
                            end) m
  | _, _ => false
  end.

(** [x] is a list under a [vec] descriptor, a set under a [set] descriptor
    or a dict under a [map] descriptor, and the descriptor has the
    components its container tag asks for. *)
Definition container_under (type_components : list item_type) (x : pyval)
  : bool :=
  match x, type_components with
  | PList _, (typ, _) :: _ :: _ => String.eqb typ "vec"
  | PSet l, (typ, _) :: _ :: _ => String.eqb typ "set" && distinct l
  | PDict m, (typ, _) :: _ :: _ :: _ =>
      String.eqb typ "map" && distinct (map fst m)
  | _, _ => false
  end.

(** The length the short-form check of [_get_len_and_fmt] looks at: of the
    encoded text under a string tag, of the value itself under a bytes tag. *)
Definition checked_length {P : platform} (item : pyval) (ty : item_type)
  : result Z :=
  let '(typ, enc) := ty in
  if str_in typ STRING_TYPES then
    rbind (_encode_string item enc) (fun _bytes => py_len (PBytes _bytes))
  else py_len item.

(** ** Statements about descriptors *)

(** [c in s] *)
Fixpoint occurs (c : ascii) (s : string) : bool :=
  match s with
  | EmptyString => false
  | String c' s' => Ascii.eqb c' c || occurs c s'
  end.

(** [sep.join(pieces)] for a one-character separator *)
Fixpoint join (sep : ascii) (pieces : list string) : string :=
  match pieces with
  | [] => EmptyString
  | [p] => p
  | p :: rest => (p ++ String sep (join sep rest))%string
  end.

(** The text of a component: the tag, then ['/'] and the hint if there is
    one; the text of a descriptor: its components joined with [':']. *)
Definition render_component (c : item_type) : string :=
  match c with
  | (typ, None) => typ
  | (typ, Some enc) => (typ ++ String "/" enc)%string
  end.

Definition render_descr (type_components : list item_type) : string :=
  join ":" (map render_component type_components).

(** A component a descriptor can spell: no [':'] in it, no ['/'] in the tag. *)
Definition spellable (c : item_type) : bool :=
  negb (occurs ":" (fst c)) && negb (occurs "/" (fst c))
  && match snd c with
     | None => true
     | Some enc => negb (occurs ":" enc)
     end.

(** ** Statements about what a call does to the file object *)

(** [m] does the same on every file object: the same result, the same bytes
    written at the position. *)
Definition emits {A} (m : io A) (r : result A) (bs : list byte) : Prop :=
  forall f, m f = (r, file_write bs f).

(** A writer that counts from [base]: it behaves the same on every file
    object, and when it returns, it returns [base] plus the number of bytes
    it wrote. *)
Definition counts_from (base : Z) (m : io Z) : Prop :=
  exists r bs,
    emits m r bs
    /\ forall n, r = Ok n -> n = base + Z.of_nat (List.length bs).

(** [m] only moves the position forward over bytes that were there. *)
Definition consumes {A} (m : io A) : Prop :=
  forall f, exists bs,
    ahead f = bs ++ ahead (snd (m f))
    /\ behind (snd (m f)) = behind f ++ bs.

(** The number of leading components of a descriptor that [read] and
    [write] index when the first component's type is [typ]. *)
Definition components_used (typ : string) : nat :=
  if str_in typ SCALAR_TYPES then 1
  else if String.eqb typ "vec" || String.eqb typ "set" then 2
  else if String.eqb typ "map" then 3
  else 1.

(** ** A caller's loops *)

(** [for item, type_descr in the_things: n += bio.write(item, type_descr)],
    the writing loop of the self-test, from the count [n]. *)
Fixpoint write_things {P : platform} (the_things : list (pyval * string))
    (n : Z) : io Z :=
  match the_things with
  | [] => ret n
  | (item, type_descr) :: rest =>
      k <- write item type_descr ;;
      write_things rest (n + k)
  end.

(** [for item, type_descr in the_things: roundtrip = bio.read(type_descr)],
    its reading loop, keeping what each [read] returns. *)
Fixpoint read_things {P : platform} (the_things : list (pyval * string))
  : io (list pyval) :=
  match the_things with
  | [] => ret []
  | (item, type_descr) :: rest =>
      roundtrip <- read type_descr ;;
      more <- read_things rest ;;
      ret (roundtrip :: more)
  end.

(** The values of the self-test; [the_bytes_sequence] is one character of
    [str(globals())], which depends on the run. *)
Definition the_string : pyval :=
  PStr [97; 32; 113; 117; 105; 99; 107; 32; 98; 114; 111; 119; 110; 32; 102; 111; 120; 32; 106; 252; 109; 112; 115; 32; 111; 118; 101; 114; 32; 116; 104; 101; 32; 108; 228; 122; 121; 32; 100; 48; 103].
Definition the_number : pyval := PInt 4711.
Definition the_byte_vector : pyval :=
  PList (map AInt [1; 2; 3; 4; 5; 6; 7; 8; 9; 10; -19]).
Definition the_string_vector : pyval :=
  PList (map AStr [[101; 103; 103]; [115; 112; 97; 109]; [98; 97; 99; 111; 110]; [104; 97; 109]; [114; 228; 107; 115; 109; 246; 114; 103; 229; 115]]).
Definition the_long_set : pyval :=
  PSet (map AInt [9223372036854775807; 4611686018427387903;
                  2305843009213693951]).
Definition the_str_long_map : pyval :=
  PDict [(AStr [120; 121; 122; 122; 121], AInt 42); (AStr [98; 97; 114], AInt 4711);
         (AStr [115; 119; 97; 103], AInt 31412359)].
Definition the_int_number_map : pyval :=
  PDict [(AInt 42967295, AInt 1); (AInt (-1), AInt 2);
         (AInt 314212359, AInt 65535)].
Definition the_bytes_sequence (c : byte) : pyval := PBytes [c].

Definition the_things (c : byte) : list (pyval * string) :=
  [(the_string, "sstr/utf-8"); (the_number, "i"); (the_byte_vector, "vec:b");
   (the_string_vector, "vec:sstr/latin-1"); (the_long_set, "set:L");
   (the_str_long_map, "map:str/ascii:L"); (the_int_number_map, "map:i:I");
   (the_bytes_sequence c, "sbyt")]%string.

(** [x] is a scalar and the descriptor starts with a scalar tag. *)
Definition scalar_under (type_components : list item_type) (x : pyval)
  : bool :=
  match x, type_components with
  | PAtom _, (typ, _) :: _ => str_in typ SCALAR_TYPES
  | _, _ => false
  end.

(** [x] has the kind of value its descriptor is for. *)
Definition value_under (thing : pyval * string) : bool :=
  scalar_under (parse_type_descr (snd thing)) (fst thing)
  || container_under (parse_type_descr (snd thing)) (fst thing).

(** The encoding hint of a string type names a codec of this model, or is
    absent or empty; under the other tags the hint is not used.  Where the
    hint names another codec, this model says [LookupError] and says nothing
    about Python. *)
Definition hint_modelled (ty : item_type) : bool :=
  let '(typ, enc) := ty in
  if str_in typ STRING_TYPES then
    match lookup_codec (enc_or_default enc) with
    | Some _ => true
    | None => false
    end
  else true.


(** [bs] is what [write_scalar] writes for [a] under [ty], on every file
    object. *)
Definition scalar_written {P : platform} (ty : item_type) (a : atom)
    (bs : list byte) : Prop :=
  writes (write_scalar (PAtom a) ty) bs.

(** [bs] is what is written for the entry [kv]: its key, then its value. *)
Definition pair_written {P : platform} (key_type value_type : item_type)
    (kv : atom * atom) (bs : list byte) : Prop :=
  exists bk bv,
    bs = bk ++ bv /\ scalar_written key_type (fst kv) bk
    /\ scalar_written value_type (snd kv) bv.

(** Every element of the container [x] is representable under the
    component its descriptor gives for it (every key and every value, for a
    dict), and there are fewer than 2^32 of them. *)
Definition storable_under {P : platform} (type_components : list item_type)
    (x : pyval) : bool :=
  match x, type_components with
  | PList l, _ :: t1 :: _ | PSet l, _ :: t1 :: _ =>
      forallb (representable t1) l && (Z.of_nat (List.length l) <? 2 ^ 32)
  | PDict m, _ :: t1 :: t2 :: _ =>
      forallb (fun kv => representable t1 (fst kv) && representable t2 (snd kv)) m
      && (Z.of_nat (List.length m) <? 2 ^ 32)
  | _, _ => false
  end.

(** * Properties *)

(** ** Bytes and fixed-width integers *)

Lemma Z_of_byte_range (b : byte) : 0 <= Z_of_byte b < 256.
Proof.
  unfold Z_of_byte. pose proof (Byte.to_N_bounded b) as H.
  split; [apply N2Z.is_nonneg | ].
  apply N.le_lteq in H. lia.
Qed.

Lemma Z_of_byte_of_Z (z : Z) : Z_of_byte (byte_of_Z z) = z mod 256.
Proof.
  unfold Z_of_byte, byte_of_Z.
  assert (Hm : 0 <= z mod 256 < 256) by (apply Z.mod_pos_bound; lia).
  destruct (Byte.of_N (Z.to_N (z mod 256))) as [b|] eqn:E.
  - apply Byte.to_of_N in E. rewrite E. apply Z2N.id. lia.
  - apply Byte.of_N_None_iff in E. lia.
Qed.

Lemma Z_of_byte_small (z : Z) : 0 <= z < 256 -> Z_of_byte (byte_of_Z z) = z.
Proof. intros H. rewrite Z_of_byte_of_Z. apply Z.mod_small, H. Qed.

Lemma byte_of_Z_of_byte (b : byte) : byte_of_Z (Z_of_byte b) = b.
Proof.
  unfold byte_of_Z. rewrite Z.mod_small by apply Z_of_byte_range.
  unfold Z_of_byte. rewrite N2Z.id, Byte.of_to_N. reflexivity.
Qed.

Lemma Z_of_byte_inj (a b : byte) : Z_of_byte a = Z_of_byte b -> a = b.
Proof.
  intros H. rewrite <- (byte_of_Z_of_byte a), <- (byte_of_Z_of_byte b).
  now rewrite H.
Qed.

Lemma map_byte_of_Z_of_byte (bs : list byte) :
  map byte_of_Z (map Z_of_byte bs) = bs.
Proof.
  induction bs as [|b bs IH]; simpl; [reflexivity|].
  now rewrite byte_of_Z_of_byte, IH.
Qed.

Lemma length_le_bytes (k : nat) (n : Z) : List.length (le_bytes k n) = k.
Proof. revert n. induction k; intros n; simpl; [reflexivity | now rewrite IHk]. Qed.

Lemma le_value_le_bytes (k : nat) (n : Z) :
  le_value (le_bytes k n) = n mod 2 ^ (8 * Z.of_nat k).
Proof.
  revert n. induction k as [|k IH]; intros n.
  - simpl. now rewrite Z.mod_1_r.
  - cbn [le_bytes le_value]. rewrite IH, Z_of_byte_of_Z.
    replace (8 * Z.of_nat (S k)) with (8 + 8 * Z.of_nat k) by lia.
    rewrite Z.pow_add_r by lia. change (2 ^ 8) with 256.
    rewrite Z.rem_mul_r by (try apply Z.pow_pos_nonneg; lia). reflexivity.
Qed.

Lemma le_value_range (bs : list byte) :
  0 <= le_value bs < 2 ^ (8 * Z.of_nat (List.length bs)).
Proof.
  induction bs as [|b bs IH].
  - simpl. lia.
  - cbn [le_value List.length].
    replace (8 * Z.of_nat (S (List.length bs)))
      with (8 + 8 * Z.of_nat (List.length bs)) by lia.
    rewrite Z.pow_add_r by lia. change (2 ^ 8) with 256.
    pose proof (Z_of_byte_range b). nia.
Qed.

Lemma twos_complement (M n : Z) :
  0 < M -> - M <= n < M ->
  let u := n mod (2 * M) in
  (if M <=? u then u - 2 * M else u) = n.
Proof.
  intros HM Hn u. subst u.
  destruct (Z.ltb_spec n 0) as [Hneg|Hpos].
  - assert (E : n mod (2 * M) = n + 2 * M).
    { symmetry. apply Z.mod_unique with (q := -1); lia. }
    rewrite E. destruct (Z.leb_spec M (n + 2 * M)); lia.
  - rewrite Z.mod_small by lia. destruct (Z.leb_spec M n); lia.
Qed.

Lemma pow2_split (k : nat) :
  (0 < k)%nat -> 2 ^ (8 * Z.of_nat k) = 2 * 2 ^ (8 * Z.of_nat k - 1).
Proof.
  intros Hk. rewrite <- Z.pow_succ_r by lia. f_equal. lia.
Qed.

Section StructFacts.
Context {P : platform}.

Lemma native_involutive (bs : list byte) : native (native bs) = bs.
Proof. unfold native. destruct order; [reflexivity | apply rev_involutive]. Qed.

Lemma length_native (bs : list byte) :
  List.length (native bs) = List.length bs.
Proof. unfold native. destruct order; [reflexivity | apply length_rev]. Qed.

Lemma sizeof_long_pos : (0 < sizeof_long)%nat.
Proof. unfold sizeof_long. destruct model; lia. Qed.

Lemma format_char_pos (fmt : string) (signed : bool) (k : nat) :
  format_char fmt = Some (signed, k) -> (0 < k)%nat.
Proof.
  unfold format_char. pose proof sizeof_long_pos.
  repeat match goal with
         | |- context [String.eqb ?a ?b] => destruct (String.eqb a b)
         end; intros E; inversion E; subst; lia.
Qed.

Lemma format_char_numeric (fmt : string) :
  str_in fmt NUMERIC_FMT = true <-> exists sk, format_char fmt = Some sk.
Proof.
  unfold str_in, NUMERIC_FMT, format_char. cbn [existsb].
  repeat match goal with
         | |- context [String.eqb ?a ?b] => destruct (String.eqb a b)
         end; cbn; split; intros H; try reflexivity; try discriminate;
    try (eexists; reflexivity); destruct H as [sk H]; discriminate.
Qed.

(** What [struct.pack] produces has the width of the format and unpacks to
    the number packed. *)
Lemma struct_pack_inv (fmt : string) (v : pyval) (bs : list byte) :
  struct_pack fmt v = Ok bs ->
  exists signed k n,
    format_char fmt = Some (signed, k) /\ v = PInt n /\
    in_range signed k n = true /\ bs = native (le_bytes k n).
Proof.
  unfold struct_pack. destruct (format_char fmt) as [[signed k]|]; [|discriminate].
  destruct v as [[n| | |]| | |]; try discriminate.
  destruct (in_range signed k n) eqn:R; [|discriminate].
  intros E. inversion E. now exists signed, k, n.
Qed.

Lemma struct_unpack_pack (fmt : string) (v : pyval) (bs : list byte) :
  struct_pack fmt v = Ok bs ->
  exists n, v = PInt n /\ struct_unpack fmt bs = Ok n.
Proof.
  intros H. destruct (struct_pack_inv _ _ _ H) as (signed & k & n & F & -> & R & ->).
  exists n. split; [reflexivity|].
  unfold struct_unpack. rewrite F, length_native, length_le_bytes, Nat.eqb_refl.
  rewrite native_involutive, le_value_le_bytes.
  pose proof (format_char_pos _ _ _ F) as Hk.
  unfold in_range in R. destruct signed; cbn [andb].
  - apply andb_prop in R. destruct R as [R1 R2].
    apply Z.leb_le in R1. apply Z.ltb_lt in R2.
    rewrite (pow2_split k Hk).
    assert (HM : 0 < 2 ^ (8 * Z.of_nat k - 1)) by (apply Z.pow_pos_nonneg; lia).
    pose proof (twos_complement _ n HM (conj R1 R2)) as T. cbv zeta in T.
    destruct (2 ^ (8 * Z.of_nat k - 1) <=? n mod (2 * 2 ^ (8 * Z.of_nat k - 1)));
      now rewrite T.
  - apply andb_prop in R. destruct R as [R1 R2].
    apply Z.leb_le in R1. apply Z.ltb_lt in R2.
    now rewrite Z.mod_small by lia.
Qed.

Lemma struct_pack_length (fmt : string) (v : pyval) (bs : list byte) :
  struct_pack fmt v = Ok bs ->
  lookup NUMBER_SIZES fmt = Ok (Z.of_nat (List.length bs)).
Proof.
  intros H. destruct (struct_pack_inv _ _ _ H) as (signed & k & n & F & -> & R & ->).
  rewrite length_native, length_le_bytes.
  revert F. unfold NUMBER_SIZES, NUMERIC_FMT, struct_pack, format_char.
  cbn [flat_map String.eqb Ascii.eqb Bool.eqb PInt].
  pose proof sizeof_long_pos as HL.
  assert (I8 : forall j, (0 < j)%nat -> in_range true j 42 = true).
  { intros j Hj. unfold in_range.
    assert (2 ^ 7 <= 2 ^ (8 * Z.of_nat j - 1)) by (apply Z.pow_le_mono_r; lia).
    change (2 ^ 7) with 128 in *. apply andb_true_intro; split;
      [apply Z.leb_le | apply Z.ltb_lt]; lia. }
  assert (U8 : forall j, (0 < j)%nat -> in_range false j 42 = true).
  { intros j Hj. unfold in_range.
    assert (2 ^ 8 <= 2 ^ (8 * Z.of_nat j)) by (apply Z.pow_le_mono_r; lia).
    change (2 ^ 8) with 256 in *. apply andb_true_intro; split;
      [apply Z.leb_le | apply Z.ltb_lt]; lia. }
  rewrite (I8 1%nat), (U8 1%nat), (I8 4%nat), (U8 4%nat), (I8 _ HL), (U8 _ HL) by lia.
  cbn [app lookup]. rewrite !length_native, !length_le_bytes.
  repeat match goal with
         | |- context [String.eqb fmt ?b] => destruct (String.eqb fmt b)
         end; intros E; inversion E; reflexivity.
Qed.
End StructFacts.

(** ** Text codecs *)

Ltac byte_arith := Z.div_mod_to_equations; lia.

Ltac decide_tests :=
  repeat match goal with
         | |- context [?a <? ?b] =>
             destruct (Z.ltb_spec a b); try (exfalso; lia)
         | |- context [?a <=? ?b] =>
             destruct (Z.leb_spec a b); try (exfalso; lia)
         end.

Lemma Some_eq {A} (a b : A) : Some a = Some b -> a = b.
Proof. congruence. Qed.

Lemma utf8_decode_1 (x : Z) (r : list byte) :
  0 <= x < 128 ->
  utf8_decode ([byte_of_Z x] ++ r) = option_map (cons x) (utf8_decode r).
Proof.
  intros H. cbn [app utf8_decode]. rewrite Z_of_byte_small by lia.
  decide_tests. reflexivity.
Qed.

Lemma utf8_decode_2 (x0 x1 : Z) (r : list byte) :
  192 <= x0 < 224 -> 128 <= x1 < 192 -> 128 <= (x0 - 192) * 64 + (x1 - 128) ->
  utf8_decode ([byte_of_Z x0; byte_of_Z x1] ++ r)
  = option_map (cons ((x0 - 192) * 64 + (x1 - 128))) (utf8_decode r).
Proof.
  intros H0 H1 Hc. cbn [app utf8_decode]. unfold is_continuation.
  rewrite !Z_of_byte_small by lia.
  remember ((x0 - 192) * 64 + (x1 - 128)) as c.
  decide_tests. reflexivity.
Qed.

Lemma utf8_decode_3 (x0 x1 x2 : Z) (r : list byte) :
  224 <= x0 < 240 -> 128 <= x1 < 192 -> 128 <= x2 < 192 ->
  let c := (x0 - 224) * 4096 + (x1 - 128) * 64 + (x2 - 128) in
  2048 <= c -> ~ (55296 <= c <= 57343) ->
  utf8_decode ([byte_of_Z x0; byte_of_Z x1; byte_of_Z x2] ++ r)
  = option_map (cons c) (utf8_decode r).
Proof.
  intros H0 H1 H2 c Hc Hs. cbn [app utf8_decode]. unfold is_continuation.
  rewrite !Z_of_byte_small by lia. fold c. clearbody c.
  decide_tests; reflexivity.
Qed.

Lemma utf8_decode_4 (x0 x1 x2 x3 : Z) (r : list byte) :
  240 <= x0 < 248 -> 128 <= x1 < 192 -> 128 <= x2 < 192 -> 128 <= x3 < 192 ->
  let c := (x0 - 240) * 262144 + (x1 - 128) * 4096 + (x2 - 128) * 64
           + (x3 - 128) in
  65536 <= c < 1114112 ->
  utf8_decode ([byte_of_Z x0; byte_of_Z x1; byte_of_Z x2; byte_of_Z x3] ++ r)
  = option_map (cons c) (utf8_decode r).
Proof.
  intros H0 H1 H2 H3 c Hc. cbn [app utf8_decode]. unfold is_continuation.
  rewrite !Z_of_byte_small by lia. fold c. clearbody c.
  decide_tests; reflexivity.
Qed.

Lemma utf8_decode_encode_char (c : Z) (bs rest : list byte) :
  utf8_encode_char c = Some bs ->
  utf8_decode (bs ++ rest) = option_map (cons c) (utf8_decode rest).
Proof.
  unfold utf8_encode_char.
  destruct (Z.ltb_spec c 0); [discriminate|].
  destruct (Z.ltb_spec c 128).
  { intros E. apply Some_eq in E. subst bs. apply utf8_decode_1. lia. }
  destruct (Z.ltb_spec c 2048).
  { intros E. apply Some_eq in E. subst bs.
    rewrite utf8_decode_2 by byte_arith. do 2 f_equal. byte_arith. }
  destruct (Z.ltb_spec c 65536).
  { destruct (Z.leb_spec 55296 c); destruct (Z.leb_spec c 57343);
      cbn [andb]; try discriminate;
      intros E; apply Some_eq in E; subst bs;
      (rewrite utf8_decode_3 by (cbv zeta; byte_arith));
      do 2 f_equal; byte_arith. }
  destruct (Z.ltb_spec c 1114112); [|discriminate].
  intros E. apply Some_eq in E. subst bs.
  rewrite utf8_decode_4 by (cbv zeta; byte_arith). do 2 f_equal. byte_arith.
Qed.

Lemma utf8_decode_encode (s : pystr) (bs : list byte) :
  encode_chars utf8_encode_char s = Some bs -> utf8_decode bs = Some s.
Proof.
  revert bs. induction s as [|c s IH]; intros bs; cbn [encode_chars].
  - intros E. inversion E. reflexivity.
  - destruct (utf8_encode_char c) as [b|] eqn:Ec; [|discriminate].
    destruct (encode_chars utf8_encode_char s) as [r|]; [|discriminate].
    intros E. inversion E. subst bs.
    rewrite (utf8_decode_encode_char _ _ _ Ec), (IH r eq_refl). reflexivity.
Qed.

Lemma single_byte_encode_inv (bound : Z) (s : pystr) (bs : list byte) :
  bound <= 256 ->
  encode_chars (single_byte_encode_char bound) s = Some bs ->
  map Z_of_byte bs = s /\ forallb (fun b => Z_of_byte b <? bound) bs = true.
Proof.
  intros Hb. revert bs. induction s as [|c s IH]; intros bs; cbn [encode_chars].
  - intros E. inversion E. split; reflexivity.
  - unfold single_byte_encode_char at 1.
    destruct (Z.leb_spec 0 c); [|discriminate].
    destruct (Z.ltb_spec c bound); [|discriminate]. cbn [andb].
    destruct (encode_chars (single_byte_encode_char bound) s) as [r|]; [|discriminate].
    intros E. inversion E. subst bs. destruct (IH r eq_refl) as [IH1 IH2].
    cbn [app map forallb]. rewrite Z_of_byte_small, IH1, IH2 by lia.
    split; [reflexivity|]. apply andb_true_intro; split; [apply Z.ltb_lt; lia | reflexivity].
Qed.

(** The three codecs are lossless: what was encoded decodes to itself. *)
Lemma codec_decode_encode (c : codec) (s : pystr) (bs : list byte) :
  codec_encode c s = Ok bs -> codec_decode c bs = Ok s.
Proof.
  unfold codec_encode, codec_decode. destruct c.
  - destruct (encode_chars utf8_encode_char s) as [r|] eqn:E; [|discriminate].
    intros H. inversion H. subst r. now rewrite (utf8_decode_encode _ _ E).
  - destruct (encode_chars (single_byte_encode_char 256) s) as [r|] eqn:E; [|discriminate].
    intros H. inversion H. subst r.
    destruct (single_byte_encode_inv 256 s bs ltac:(lia) E) as [-> _]. reflexivity.
  - destruct (encode_chars (single_byte_encode_char 128) s) as [r|] eqn:E; [|discriminate].
    intros H. inversion H. subst r.
    destruct (single_byte_encode_inv 128 s bs ltac:(lia) E) as [E1 E2].
    unfold ascii_decode. now rewrite E2, E1.
Qed.

(** ** The file object *)

Lemma firstn_length_app {A} (l r : list A) : firstn (List.length l) (l ++ r) = l.
Proof. induction l as [|x l IH]; simpl; [now destruct r | now rewrite IH]. Qed.

Lemma skipn_length_app {A} (l r : list A) : skipn (List.length l) (l ++ r) = r.
Proof. induction l as [|x l IH]; simpl; [reflexivity | exact IH]. Qed.

Lemma file_write_nil (f : stream) : file_write [] f = f.
Proof. destruct f as [b a]. unfold file_write. simpl. now rewrite app_nil_r. Qed.

Lemma file_write_app (a b : list byte) (f : stream) :
  file_write b (file_write a f) = file_write (a ++ b) f.
Proof.
  unfold file_write. cbn [behind ahead]. rewrite <- app_assoc. f_equal.
  rewrite length_app, skipn_skipn. f_equal. lia.
Qed.

Lemma file_read_prefix (bs rest : list byte) (f : stream) :
  ahead f = bs ++ rest ->
  file_read (Z.of_nat (List.length bs)) f = (bs, mkStream (behind f ++ bs) rest).
Proof.
  intros H. unfold file_read.
  destruct (Z.ltb_spec (Z.of_nat (List.length bs)) 0) as [Hn|_]; [lia|].
  now rewrite Nat2Z.id, H, firstn_length_app, skipn_length_app.
Qed.

Lemma writes_ret0 : writes (ret 0) [].
Proof. intros f. unfold ret. now rewrite file_write_nil. Qed.

Lemma reads_ret {A} (a : A) : reads (ret a) [] a.
Proof.
  intros f rest H. unfold ret. destruct f as [b r]. simpl in *. subst.
  now rewrite app_nil_r.
Qed.

Lemma reads_bind {A B} (m : io A) (k : A -> io B) bs1 bs2 a b :
  reads m bs1 a -> reads (k a) bs2 b -> reads (bind m k) (bs1 ++ bs2) b.
Proof.
  intros Hm Hk f rest H. unfold bind.
  rewrite (Hm f (bs2 ++ rest)) by (now rewrite H, <- app_assoc).
  rewrite (Hk _ rest) by reflexivity. cbn [behind]. now rewrite <- app_assoc.
Qed.

Lemma reads_lift {A} (r : result A) (a : A) : r = Ok a -> reads (lift r) [] a.
Proof. intros ->. apply (reads_ret a). Qed.

Section ScalarWire.
Context {P : platform}.

Lemma reads_in (bs : list byte) : reads (_in (Z.of_nat (List.length bs))) bs bs.
Proof. intros f rest H. unfold _in. now rewrite (file_read_prefix bs rest f H). Qed.

(** A number that packs is written as its packed bytes and read back. *)
Lemma number_wire (fmt : string) (enc : option string) (v : pyval) (bs : list byte) :
  struct_pack fmt v = Ok bs ->
  exists n, v = PInt n /\ writes (write_number v (fmt, enc)) bs
            /\ reads (read_number (fmt, enc)) bs n.
Proof.
  intros H. destruct (struct_unpack_pack _ _ _ H) as (n & -> & U).
  exists n. split; [reflexivity|]. split.
  - intros f. unfold write_number, bind, lift. now rewrite H.
  - intros f rest Hf. unfold read_number.
    assert (N : str_in fmt NUMERIC_FMT = true).
    { apply format_char_numeric. destruct (struct_pack_inv _ _ _ H) as (s & k & m & F & _).
      now exists (s, k). }
    rewrite N. cbn [negb]. unfold bind, lift.
    rewrite (struct_pack_length _ _ _ H), (reads_in bs f rest Hf). now rewrite U.
Qed.

Lemma write_number_inv (v : pyval) (ty : item_type) (f f' : stream) (n : Z) :
  write_number v ty f = (Ok n, f') -> exists bs, struct_pack (fst ty) v = Ok bs.
Proof.
  destruct ty as [fmt enc]. unfold write_number, bind, lift. cbn [fst].
  destruct (struct_pack fmt v) as [bs|e]; [now exists bs | discriminate].
Qed.

Lemma _get_len_and_fmt_inv (sequence : pyval) (fmt : string) (length : Z)
    (number_type : item_type) :
  _get_len_and_fmt sequence fmt = Ok (length, number_type) ->
  py_len sequence = Ok length /\ number_type = _fmt_to_len_type fmt.
Proof.
  unfold _get_len_and_fmt. destruct (py_len sequence) as [l|e]; [|discriminate].
  cbn [rbind]. destruct (_fmt_to_len_type fmt) as [typ enc].
  destruct (String.eqb typ "B" && (255 <? l)); [discriminate|].
  intros E. inversion E. now subst.
Qed.

(** A length-prefixed payload: the prefix packs the payload's length. *)
Lemma framed_write (payload : list byte) (fmt : string) (prefix : list byte)
    (number_type : item_type) (f : stream) :
  _get_len_and_fmt (PBytes payload) fmt
    = Ok (Z.of_nat (List.length payload), number_type) ->
  struct_pack (fst number_type) (PInt (Z.of_nat (List.length payload))) = Ok prefix ->
  (n <- write_number (PInt (Z.of_nat (List.length payload))) number_type ;;
   k <- _out (PBytes payload) ;; ret (n + k)) f
  = (Ok (Z.of_nat (List.length (prefix ++ payload))), file_write (prefix ++ payload) f).
Proof.
  intros G S. destruct number_type as [typ enc]. cbn [fst] in S.
  destruct (number_wire typ enc _ _ S) as (n & _ & W & _).
  unfold bind at 1. rewrite (W f). unfold bind, _out, PBytes, ret.
  now rewrite file_write_app, length_app, Nat2Z.inj_add.
Qed.

Lemma framed_read (payload : list byte) (fmt : string) (prefix : list byte) :
  struct_pack (fst (_fmt_to_len_type fmt)) (PInt (Z.of_nat (List.length payload)))
    = Ok prefix ->
  reads (read_number (_fmt_to_len_type fmt)) prefix (Z.of_nat (List.length payload)).
Proof.
  intros S. destruct (_fmt_to_len_type fmt) as [typ enc]. cbn [fst] in S.
  destruct (number_wire typ enc _ _ S) as (n & E & _ & R).
  unfold PInt in E. injection E as <-. exact R.
Qed.

Lemma write_bytes_wire (item : pyval) (fmt : string) (enc : option string)
    (f f' : stream) (n : Z) :
  write_bytes item (fmt, enc) f = (Ok n, f') ->
  exists payload prefix,
    item = PBytes payload
    /\ writes (write_bytes item (fmt, enc)) (prefix ++ payload)
    /\ reads (read_bytes (fmt, enc)) (prefix ++ payload) payload.
Proof.
  unfold write_bytes. unfold bind at 1, lift.
  destruct (_get_len_and_fmt item fmt) as [[len nt]|e] eqn:G; [|discriminate].
  destruct (_get_len_and_fmt_inv _ _ _ _ G) as [L ->].
  unfold bind at 1.
  destruct (write_number (PInt len) (_fmt_to_len_type fmt) f) as [[k|e] f1] eqn:W;
    [|discriminate].
  destruct (write_number_inv _ _ _ _ _ W) as [prefix S].
  destruct item as [[z|s|payload|]| | |]; try discriminate.
  intros _. cbn [py_len] in L. injection L as <-.
  exists payload, prefix. split; [reflexivity|]. split.
  - intros g. unfold bind at 1, lift.
    now apply framed_write with (fmt := fmt).
  - unfold read_bytes.
    apply reads_bind with (a := Z.of_nat (List.length payload));
      [now apply framed_read | apply reads_in].
Qed.

Lemma _encode_string_inv (item : pyval) (enc : option string) (data : list byte) :
  _encode_string item enc = Ok data ->
  exists s, item = PStr s /\ _decode_string data enc = Ok s.
Proof.
  unfold _encode_string, _decode_string.
  destruct item as [[z|s|b|]| | |]; try discriminate.
  destruct (lookup_codec (enc_or_default enc)) as [c|]; [|discriminate].
  intros E. exists s. split; [reflexivity|].
  apply codec_decode_encode in E. destruct data as [|b data]; [|exact E].
  rewrite <- E. now destruct c.
Qed.

Lemma write_string_wire (item : pyval) (fmt : string) (enc : option string)
    (f f' : stream) (n : Z) :
  write_string item (fmt, enc) f = (Ok n, f') ->
  exists s payload prefix,
    item = PStr s
    /\ _encode_string item enc = Ok payload
    /\ writes (write_string item (fmt, enc)) (prefix ++ payload)
    /\ reads (read_string (fmt, enc)) (prefix ++ payload) s.
Proof.
  unfold write_string. unfold bind at 1, lift.
  destruct (_encode_string item enc) as [payload|e] eqn:E; [|discriminate].
  unfold bind at 1.
  destruct (_get_len_and_fmt (PBytes payload) fmt) as [[len nt]|e] eqn:G; [|discriminate].
  destruct (_get_len_and_fmt_inv _ _ _ _ G) as [L ->].
  cbn [py_len PBytes] in L. injection L as <-.
  unfold bind at 1.
  destruct (write_number (PInt (Z.of_nat (List.length payload)))
              (_fmt_to_len_type fmt) f) as [[k|e] f1] eqn:W; [|discriminate].
  destruct (write_number_inv _ _ _ _ _ W) as [prefix S].
  intros _. destruct (_encode_string_inv _ _ _ E) as (s & -> & D).
  exists s, payload, prefix. split; [reflexivity|]. split; [reflexivity|]. split.
  - intros g. unfold bind at 1, lift. unfold bind at 1. rewrite G.
    now apply framed_write with (fmt := fmt).
  - unfold read_string. rewrite <- (app_nil_r payload) at 1.
    apply reads_bind with (a := Z.of_nat (List.length payload));
      [now apply framed_read|].
    apply reads_bind with (a := payload); [apply reads_in | now apply reads_lift].
Qed.

(** Whatever [write_scalar] accepts is a scalar with an encoding that
    [read_scalar] reads back. *)
Lemma write_scalar_wire (item : pyval) (ty : item_type) (f f' : stream) (n : Z) :
  write_scalar item ty f = (Ok n, f') ->
  exists a bs, item = PAtom a /\ scalar_wire ty a bs.
Proof.
  destruct ty as [typ enc]. unfold scalar_wire, write_scalar, read_scalar.
  destruct (str_in typ NUMERIC_FMT).
  { intros W. destruct (write_number_inv _ _ _ _ _ W) as [bs S]. cbn [fst] in S.
    destruct (number_wire typ enc _ _ S) as (z & -> & Wr & Rd).
    exists (AInt z), bs. split; [reflexivity|]. split; [exact Wr|].
    rewrite <- (app_nil_r bs). apply reads_bind with (a := z); [exact Rd | apply reads_ret]. }
  destruct (str_in typ STRING_TYPES).
  { intros W. destruct (write_string_wire _ _ _ _ _ _ W)
      as (s & payload & prefix & -> & _ & Wr & Rd).
    exists (AStr s), (prefix ++ payload). split; [reflexivity|]. split; [exact Wr|].
    rewrite <- (app_nil_r (prefix ++ payload)).
    apply reads_bind with (a := s); [exact Rd | apply reads_ret]. }
  destruct (str_in typ BYTES_TYPES).
  { intros W. destruct (write_bytes_wire _ _ _ _ _ _ W) as (payload & prefix & -> & Wr & Rd).
    exists (ABytes payload), (prefix ++ payload). split; [reflexivity|]. split; [exact Wr|].
    rewrite <- (app_nil_r (prefix ++ payload)).
    apply reads_bind with (a := payload); [exact Rd | apply reads_ret]. }
  discriminate.
Qed.

Lemma scalar_wire_written (ty : item_type) (a : atom) (bs : list byte)
    (f f' : stream) (n : Z) :
  scalar_wire ty a bs -> write_scalar (PAtom a) ty f = (Ok n, f') ->
  n = Z.of_nat (List.length bs) /\ f' = file_write bs f.
Proof. intros [W _] E. rewrite (W f) in E. now inversion E. Qed.
End ScalarWire.

(** ** Equality on values *)

Lemma list_eqb_spec {A} (eqb : A -> A -> bool) :
  (forall x y, eqb x y = true <-> x = y) ->
  forall s t, list_eqb eqb s t = true <-> s = t.
Proof.
  intros H. induction s as [|x s IH]; intros [|y t]; cbn [list_eqb];
    try (split; [discriminate | discriminate]); [split; reflexivity|].
  rewrite andb_true_iff, H, IH. split; [intros [-> ->]; reflexivity|].
  intros E. inversion E. now split.
Qed.

Lemma byte_eqb_spec (x y : byte) : Byte.eqb x y = true <-> x = y.
Proof. split; [apply Byte.byte_dec_bl | apply Byte.byte_dec_lb]. Qed.

Lemma atom_eqb_spec (a b : atom) : atom_eqb a b = true <-> a = b.
Proof.
  destruct a, b; cbn [atom_eqb]; try (split; [discriminate | discriminate]).
  - rewrite Z.eqb_eq. split; [now intros -> | now intros [= ->]].
  - rewrite (list_eqb_spec Z.eqb Z.eqb_eq). split; [now intros -> | now intros [= ->]].
  - rewrite (list_eqb_spec Byte.eqb byte_eqb_spec). split; [now intros -> | now intros [= ->]].
  - split; reflexivity.
Qed.

Lemma atom_in_spec (x : atom) (s : list atom) : atom_in x s = true <-> In x s.
Proof.
  unfold atom_in. rewrite existsb_exists. split.
  - intros (y & Hy & E). apply atom_eqb_spec in E. now subst.
  - intros H. exists x. split; [exact H | now apply atom_eqb_spec].
Qed.

Lemma atom_in_false (x : atom) (s : list atom) : atom_in x s = false <-> ~ In x s.
Proof.
  rewrite <- atom_in_spec. destruct (atom_in x s); split; congruence.
Qed.

Section Loops.
Context {P : platform}.

Lemma write_vector_loop_wire (ty : item_type) (l : list atom) :
  forall (n n' : Z) (f f' : stream),
    write_vector_loop l ty n f = (Ok n', f') ->
    exists bss, Forall2 (scalar_wire ty) l bss
                /\ n' = n + Z.of_nat (List.length (List.concat bss))
                /\ f' = file_write (List.concat bss) f.
Proof.
  induction l as [|a l IH]; intros n n' f f'; cbn [write_vector_loop].
  - unfold ret. intros [= <- <-]. exists []. cbn [List.concat List.length].
    rewrite file_write_nil. repeat split; [constructor | lia].
  - unfold bind at 1.
    destruct (write_scalar (PAtom a) ty f) as [[k|e] f1] eqn:W; [|discriminate].
    destruct (write_scalar_wire _ _ _ _ _ W) as (a' & bs & [= <-] & SW).
    destruct (scalar_wire_written _ _ _ _ _ _ SW W) as [-> ->].
    intros H. destruct (IH _ _ _ _ H) as (bss & F & -> & ->).
    exists (bs :: bss). cbn [List.concat]. split; [now constructor|].
    rewrite file_write_app, length_app. split; [lia | reflexivity].
Qed.

Lemma write_vector_loop_writes (ty : item_type) (l : list atom)
    (bss : list (list byte)) :
  Forall2 (scalar_wire ty) l bss ->
  forall (n : Z) (f : stream),
    write_vector_loop l ty n f
    = (Ok (n + Z.of_nat (List.length (List.concat bss))), file_write (List.concat bss) f).
Proof.
  induction 1 as [|a bs l bss [W _] _ IH]; intros n f; cbn [write_vector_loop List.concat].
  - unfold ret. cbn [List.length]. rewrite file_write_nil. f_equal. f_equal. lia.
  - unfold bind. rewrite (W f), IH, file_write_app, length_app. f_equal. f_equal. lia.
Qed.

Lemma read_vector_loop_reads (ty : item_type) (l : list atom)
    (bss : list (list byte)) :
  Forall2 (scalar_wire ty) l bss ->
  forall vector,
    reads (read_vector_loop ty (List.length l) vector) (List.concat bss) (vector ++ l).
Proof.
  induction 1 as [|a bs l bss [_ R] _ IH]; intros vector;
    cbn [read_vector_loop List.concat List.length].
  - rewrite app_nil_r. apply reads_ret.
  - apply reads_bind with (a := a); [exact R|].
    replace (vector ++ a :: l) with ((vector ++ [a]) ++ l)
      by (now rewrite <- app_assoc).
    apply IH.
Qed.

Lemma read_set_loop_reads (ty : item_type) (l : list atom)
    (bss : list (list byte)) :
  Forall2 (scalar_wire ty) l bss ->
  forall s,
    reads (read_set_loop ty (List.length l) s) (List.concat bss)
          (fold_left (fun s x => set_add x s) l s).
Proof.
  induction 1 as [|a bs l bss [_ R] _ IH]; intros s;
    cbn [read_set_loop List.concat List.length fold_left].
  - apply reads_ret.
  - apply reads_bind with (a := a); [exact R | apply IH].
Qed.

Lemma write_map_loop_wire (kt vt : item_type) (items : list (atom * atom)) :
  forall (n n' : Z) (f f' : stream),
    write_map_loop items kt vt n f = (Ok n', f') ->
    exists bss, Forall2 (pair_wire kt vt) items bss
                /\ n' = n + Z.of_nat (List.length (List.concat bss))
                /\ f' = file_write (List.concat bss) f.
Proof.
  induction items as [|[k v] items IH]; intros n n' f f'; cbn [write_map_loop].
  - unfold ret. intros [= <- <-]. exists []. cbn [List.concat List.length].
    rewrite file_write_nil. repeat split; [constructor | lia].
  - unfold bind at 1.
    destruct (write_scalar (PAtom k) kt f) as [[nk|e] f1] eqn:Wk; [|discriminate].
    destruct (write_scalar_wire _ _ _ _ _ Wk) as (k' & bk & [= <-] & SWk).
    destruct (scalar_wire_written _ _ _ _ _ _ SWk Wk) as [-> ->].
    unfold bind at 1.
    destruct (write_scalar (PAtom v) vt (file_write bk f)) as [[nv|e] f2] eqn:Wv;
      [|discriminate].
    destruct (write_scalar_wire _ _ _ _ _ Wv) as (v' & bv & [= <-] & SWv).
    destruct (scalar_wire_written _ _ _ _ _ _ SWv Wv) as [-> ->].
    intros H. destruct (IH _ _ _ _ H) as (bss & F & -> & ->).
    exists ((bk ++ bv) :: bss). cbn [List.concat]. split.
    + constructor; [|exact F]. now exists bk, bv.
    + rewrite !file_write_app, !length_app, app_assoc. split; [lia | reflexivity].
Qed.

Lemma write_map_loop_writes (kt vt : item_type) (items : list (atom * atom))
    (bss : list (list byte)) :
  Forall2 (pair_wire kt vt) items bss ->
  forall (n : Z) (f : stream),
    write_map_loop items kt vt n f
    = (Ok (n + Z.of_nat (List.length (List.concat bss))), file_write (List.concat bss) f).
Proof.
  induction 1 as [|[k v] bs items bss (bk & bv & -> & [Wk _] & [Wv _]) _ IH];
    intros n f; cbn [write_map_loop List.concat].
  - unfold ret. cbn [List.length]. rewrite file_write_nil. f_equal. f_equal. lia.
  - cbn [fst snd] in *. unfold bind. rewrite (Wk f), (Wv _), IH.
    rewrite !file_write_app, !length_app, app_assoc. f_equal. f_equal. lia.
Qed.

(** The map reading loop: it stops at the first repeated key, after it has
    read that entry's value, and otherwise appends every entry. *)
Lemma read_map_loop_spec (kt vt : item_type) (items : list (atom * atom))
    (bss : list (list byte)) :
  Forall2 (pair_wire kt vt) items bss ->
  forall (m : list (atom * atom)) (f : stream) (rest : list byte),
    ahead f = List.concat bss ++ rest ->
    read_map_loop kt vt (List.length items) m f
    = match first_duplicate (map fst m) (map fst items) with
      | None => (Ok (m ++ items), mkStream (behind f ++ List.concat bss) rest)
      | Some i =>
          (Raise (ValueError (duplicate_key (nth i (map fst items) ANone))),
           mkStream (behind f ++ List.concat (firstn (S i) bss))
                    (List.concat (skipn (S i) bss) ++ rest))
      end.
Proof.
  induction 1 as [|[k v] bs items bss (bk & bv & -> & [_ Rk] & [_ Rv]) _ IH];
    intros m f rest Hf; cbn [read_map_loop List.concat List.length map first_duplicate].
  - unfold ret. rewrite !app_nil_r. destruct f. cbn in *. now subst.
  - cbn [fst snd] in *. cbn [List.concat] in Hf. rewrite <- !app_assoc in Hf.
    unfold bind at 1. rewrite (Rk f _ Hf). unfold bind at 1.
    rewrite (Rv (mkStream (behind f ++ bk) (bv ++ List.concat bss ++ rest)) _ eq_refl).
    cbn [behind].
    destruct (atom_in k (map fst m)) eqn:D.
    + unfold raise. cbn [nth firstn skipn List.concat].
      now rewrite !app_nil_r, <- !app_assoc.
    + rewrite (IH (m ++ [(k, v)])
                 (mkStream ((behind f ++ bk) ++ bv) (List.concat bss ++ rest))
                 rest eq_refl).
      rewrite map_app. cbn [map fst behind].
      destruct (first_duplicate (map fst m ++ [k]) (map fst items)) as [i|];
        cbn [option_map nth firstn skipn List.concat];
        now rewrite <- !app_assoc.
Qed.
End Loops.

(** ** Sorting *)

#[export] Instance Z_ltb_strict : StrictTotal Z.ltb.
Proof.
  split.
  - intros a. apply Z.ltb_irrefl.
  - intros a b c H1 H2. apply Z.ltb_lt in H1, H2. apply Z.ltb_lt. lia.
  - intros a b H1 H2. apply Z.ltb_ge in H1, H2. lia.
Qed.

#[export] Instance lex_ltb_strict : StrictTotal lex_ltb.
Proof.
  split.
  - induction a as [|x a IH]; cbn [lex_ltb]; [reflexivity|].
    now rewrite Z.ltb_irrefl.
  - induction a as [|x a IH]; intros [|y b] [|z c]; cbn [lex_ltb];
      try discriminate; try reflexivity.
    destruct (Z.ltb_spec x y), (Z.ltb_spec y x), (Z.ltb_spec y z),
      (Z.ltb_spec z y), (Z.ltb_spec x z), (Z.ltb_spec z x);
      try discriminate; try reflexivity; try lia.
    apply IH.
  - induction a as [|x a IH]; intros [|y b]; cbn [lex_ltb];
      try discriminate; try reflexivity.
    destruct (Z.ltb_spec x y), (Z.ltb_spec y x); try discriminate; try lia.
    intros H1 H2. assert (x = y) by lia. subst. f_equal. now apply IH.
Qed.

Section OrderFacts.
Context {A : Type} (ltb : A -> A -> bool) `{!StrictTotal ltb}.

Lemma ltb_asym (a b : A) : ltb a b = true -> ltb b a = false.
Proof.
  intros H. destruct (ltb b a) eqn:E; [|reflexivity].
  pose proof (ltb_trans _ _ _ H E) as T. now rewrite ltb_irrefl in T.
Qed.

Lemma ltb_neg_trans (x y z : A) :
  ltb z x = false -> ltb z y = true -> ltb x y = true.
Proof.
  intros H1 H2. destruct (ltb x y) eqn:E; [reflexivity|].
  destruct (ltb y x) eqn:E'.
  - pose proof (ltb_trans _ _ _ H2 E') as T. congruence.
  - pose proof (ltb_total _ _ E E'). subst. congruence.
Qed.

Lemma pinsert_comm (x y : A) (l : list A) :
  pinsert ltb x (pinsert ltb y l) = pinsert ltb y (pinsert ltb x l).
Proof.
  induction l as [|z l IH]; cbn [pinsert].
  - destruct (ltb y x) eqn:E1, (ltb x y) eqn:E2; cbn [pinsert];
      rewrite ?E1, ?E2; try reflexivity.
    + pose proof (ltb_asym _ _ E1). congruence.
    + now rewrite (ltb_total _ _ E1 E2).
  - destruct (ltb z y) eqn:Ezy, (ltb z x) eqn:Ezx; cbn [pinsert];
      rewrite ?Ezy, ?Ezx.
    + now rewrite IH.
    + now rewrite (ltb_neg_trans _ _ _ Ezx Ezy).
    + now rewrite (ltb_neg_trans _ _ _ Ezy Ezx).
    + destruct (ltb y x) eqn:E1, (ltb x y) eqn:E2; cbn [pinsert];
        rewrite ?Ezy, ?Ezx; try reflexivity.
      * pose proof (ltb_asym _ _ E1). congruence.
      * now rewrite (ltb_total _ _ E1 E2).
Qed.

(** The sorted list only depends on the elements, not on their order. *)
Lemma psort_perm (l1 l2 : list A) :
  Permutation l1 l2 -> psort ltb l1 = psort ltb l2.
Proof.
  induction 1 as [|x l1 l2 _ IH|x y l|l1 l2 l3 _ IH1 _ IH2]; cbn [psort].
  - reflexivity.
  - now rewrite IH.
  - apply pinsert_comm.
  - now rewrite IH1.
Qed.

Lemma pinsert_permutation (x : A) (l : list A) :
  Permutation (pinsert ltb x l) (x :: l).
Proof.
  induction l as [|y l IH]; cbn [pinsert]; [reflexivity|].
  destruct (ltb y x); [|reflexivity].
  rewrite IH. apply perm_swap.
Qed.

Lemma psort_permutation (l : list A) : Permutation (psort ltb l) l.
Proof.
  induction l as [|x l IH]; cbn [psort]; [reflexivity|].
  rewrite pinsert_permutation. now constructor.
Qed.

Lemma pinsert_sorted (x : A) (l : list A) :
  Sorted (fun a b => ltb b a = false) l ->
  Sorted (fun a b => ltb b a = false) (pinsert ltb x l).
Proof.
  induction l as [|y l IH]; cbn [pinsert]; intros H.
  - repeat constructor.
  - apply Sorted_inv in H. destruct H as [Hs Hh].
    destruct (ltb y x) eqn:E.
    + constructor; [now apply IH|].
      destruct l as [|z l]; cbn [pinsert].
      * constructor. now apply ltb_asym.
      * apply HdRel_inv in Hh. destruct (ltb z x); constructor;
          [exact Hh | now apply ltb_asym].
    + constructor; [now constructor | now constructor].
Qed.

(** The sorted list is ascending: no element is smaller than one before. *)
Lemma psort_sorted (l : list A) :
  Sorted (fun a b => ltb b a = false) (psort ltb l).
Proof.
  induction l as [|x l IH]; cbn [psort]; [constructor|].
  now apply pinsert_sorted.
Qed.
End OrderFacts.

Lemma lexprod_strict {A B} (ltA : A -> A -> bool) (ltB : B -> B -> bool) :
  StrictTotal ltA -> StrictTotal ltB -> StrictTotal (lexprod ltA ltB).
Proof.
  intros HA HB. split.
  - intros [a b]. unfold lexprod. cbn [fst snd].
    now rewrite !ltb_irrefl.
  - intros [a1 b1] [a2 b2] [a3 b3]. unfold lexprod. cbn [fst snd].
    destruct (ltA a1 a2) eqn:E12, (ltA a2 a3) eqn:E23; cbn [orb].
    + intros _ _. now rewrite (ltb_trans _ _ _ E12 E23).
    + destruct (ltA a3 a2) eqn:E32; cbn [negb andb]; [discriminate|].
      intros _ _. rewrite (ltb_total _ _ E23 E32) in E12. now rewrite E12.
    + destruct (ltA a2 a1) eqn:E21; cbn [negb andb]; [discriminate|].
      intros _ _. rewrite (ltb_total _ _ E12 E21). now rewrite E23.
    + destruct (ltA a2 a1) eqn:E21, (ltA a3 a2) eqn:E32; cbn [negb andb];
        try discriminate.
      pose proof (ltb_total _ _ E12 E21). pose proof (ltb_total _ _ E23 E32).
      subst. rewrite E12. cbn [negb orb andb]. apply ltb_trans.
  - intros [a1 b1] [a2 b2]. unfold lexprod. cbn [fst snd].
    destruct (ltA a1 a2) eqn:E12, (ltA a2 a1) eqn:E21; cbn [negb orb andb];
      try discriminate.
    intros H1 H2. rewrite (ltb_total _ _ E12 E21), (ltb_total _ _ H1 H2).
    reflexivity.
Qed.

Lemma pullback_strict {A B} (f : A -> B) (ltB : B -> B -> bool) :
  (forall a b, f a = f b -> a = b) -> StrictTotal ltB ->
  StrictTotal (pullback f ltB).
Proof.
  intros Hf HB. unfold pullback. split.
  - intros a. apply ltb_irrefl.
  - intros a b c. apply ltb_trans.
  - intros a b H1 H2. apply Hf. now apply ltb_total.
Qed.

#[export] Instance atom_ltb_strict : StrictTotal atom_ltb.
Proof.
  apply pullback_strict.
  - intros a b E. injection E as Er Ek.
    destruct a, b; cbn in Er, Ek; try discriminate; try reflexivity.
    + now injection Ek as ->.
    + now subst.
    + f_equal. rewrite <- (map_byte_of_Z_of_byte b0), <- (map_byte_of_Z_of_byte b).
      now rewrite Ek.
  - apply lexprod_strict; typeclasses eauto.
Qed.

#[export] Instance item_ltb_strict : StrictTotal item_ltb.
Proof. apply lexprod_strict; typeclasses eauto. Qed.

Section MonadicSort.
Context {A : Type} (lt : A -> A -> result bool) (ltb : A -> A -> bool)
  `{!StrictTotal ltb} (cmp : A -> A -> bool) (R : A -> A -> Prop).
Hypothesis cmp_sym : forall a b, cmp a b = cmp b a.
Hypothesis cmp_trans : forall a b c, cmp a b = true -> cmp b c = cmp a c.
Hypothesis lt_agree :
  forall a b, R a b -> lt a b = if cmp a b then Ok (ltb a b) else Raise TypeError.

Lemma insert_pure (x : A) (r : list A) :
  Forall (fun y => R y x /\ cmp y x = true) r ->
  insert lt x r = Ok (pinsert ltb x r).
Proof.
  induction 1 as [|y r [HR Hc] _ IH]; cbn [insert pinsert]; [reflexivity|].
  rewrite (lt_agree _ _ HR), Hc. cbn [rbind].
  destruct (ltb y x); [|reflexivity]. now rewrite IH.
Qed.

Lemma uniform_in (l : list A) :
  uniform cmp l = true ->
  forall a b, In a l -> In b l -> a = b \/ cmp a b = true.
Proof.
  induction l as [|x l IH]; cbn [uniform].
  { intros _ a b Ha. destruct Ha. }
  intros H. apply andb_prop in H. destruct H as [Hx Hl].
  rewrite forallb_forall in Hx.
  intros a b [->|Ha] [->|Hb].
  - now left.
  - right. now apply Hx.
  - right. rewrite cmp_sym. now apply Hx.
  - now apply IH.
Qed.

Lemma uniform_perm (l1 l2 : list A) :
  Permutation l1 l2 -> uniform cmp l1 = uniform cmp l2.
Proof.
  induction 1 as [|x l1 l2 HP IH|x y l|l1 l2 l3 _ IH1 _ IH2]; cbn [uniform forallb].
  - reflexivity.
  - rewrite IH. f_equal.
    apply eq_true_iff_eq. rewrite !forallb_forall. split; intros H z Hz; apply H.
    + now apply (Permutation_in _ (Permutation_sym HP)).
    + now apply (Permutation_in _ HP).
  - rewrite (cmp_sym y x).
    destruct (cmp x y), (forallb (cmp x) l), (forallb (cmp y) l); reflexivity.
  - now rewrite IH1.
Qed.

Lemma related_all_perm (l1 l2 : list A) :
  Permutation l1 l2 -> related_all R l1 -> related_all R l2.
Proof.
  induction 1 as [|x l1 l2 HP IH|x y l|l1 l2 l3 _ IH1 _ IH2]; cbn [related_all].
  - trivial.
  - intros [H1 H2]. split; [|now apply IH].
    now apply (Permutation_Forall HP).
  - intros [H1 [H2 H3]]. inversion H1 as [|? ? [Hyx Hxy] H1']. subst.
    repeat split; try assumption. constructor; [now split | assumption].
  - intros H. now apply IH2, IH1.
Qed.

(** What [sorted] returns: the sorted list when all elements are mutually
    comparable, a [TypeError] otherwise. *)
Lemma sorted_spec (l : list A) :
  related_all R l ->
  sorted lt l = if uniform cmp l then Ok (psort ltb l) else Raise TypeError.
Proof.
  induction l as [|x l IH]; cbn [related_all sorted uniform psort]; [reflexivity|].
  intros [Hx Hl]. rewrite (IH Hl).
  destruct (uniform cmp l) eqn:U; [|now rewrite andb_false_r].
  rewrite andb_true_r. cbn [rbind].
  assert (Hin : forall z, In z (psort ltb l) -> In z l).
  { intros z. apply Permutation_in. apply psort_permutation; assumption. }
  rewrite Forall_forall in Hx.
  destruct (forallb (cmp x) l) eqn:F.
  - apply insert_pure. rewrite forallb_forall in F. apply Forall_forall.
    intros z Hz. split; [apply Hx, Hin, Hz|].
    rewrite cmp_sym. apply F, Hin, Hz.
  - assert (Hy : exists y, In y l /\ cmp x y = false).
    { clear -F. induction l as [|y l IH]; [discriminate|].
      cbn [forallb] in F. destruct (cmp x y) eqn:E.
      - destruct (IH F) as (y' & Hy' & E'). exists y'. split; [now right | exact E'].
      - exists y. split; [now left | exact E]. }
    destruct Hy as (y & Hy & Exy).
    destruct (psort ltb l) as [|z r] eqn:S.
    { pose proof (psort_permutation ltb l) as Pm. rewrite S in Pm.
      apply Permutation_nil in Pm. subst. destruct Hy. }
    assert (Hz : In z l) by (apply Hin; now left).
    assert (Ezx : cmp z x = false).
    { destruct (cmp z x) eqn:E; [|reflexivity].
      destruct (uniform_in l U z y Hz Hy) as [->|Ezy].
      - rewrite cmp_sym in E. congruence.
      - rewrite cmp_sym in E. rewrite (cmp_trans _ _ _ E) in Ezy. congruence. }
    cbn [insert]. rewrite (lt_agree z x (proj2 (Hx z Hz))), Ezx. reflexivity.
Qed.

(** Sorting does not depend on the order in which the elements come. *)
Lemma sorted_perm (l1 l2 : list A) :
  related_all R l1 -> Permutation l1 l2 -> sorted lt l1 = sorted lt l2.
Proof.
  intros H HP. rewrite (sorted_spec l1 H).
  rewrite (sorted_spec l2 (related_all_perm _ _ HP H)).
  now rewrite (uniform_perm _ _ HP), (psort_perm ltb _ _ HP).
Qed.
End MonadicSort.

Lemma same_kind_sym (a b : atom) : same_kind a b = same_kind b a.
Proof. now destruct a, b. Qed.

Lemma same_kind_trans (a b c : atom) :
  same_kind a b = true -> same_kind b c = same_kind a c.
Proof. destruct a, b; try discriminate; intros _; now destruct c. Qed.

Lemma py_lt_agree (a b : atom) :
  py_lt a b = if same_kind a b then Ok (atom_ltb a b) else Raise TypeError.
Proof.
  destruct a as [x|s|s|], b as [y|t|t|]; cbn [py_lt same_kind]; try reflexivity;
    unfold atom_ltb, pullback, lexprod; cbn [fst snd atom_rank atom_key];
    rewrite Z.ltb_irrefl; cbn [orb negb andb]; try reflexivity.
  cbn [lex_ltb]. now destruct (x <? y), (y <? x).
Qed.

Lemma related_all_True {A} (l : list A) : related_all (fun _ _ => True) l.
Proof.
  induction l as [|x l IH]; cbn [related_all]; [trivial|].
  split; [|exact IH]. apply Forall_forall. now intros.
Qed.

Lemma sorted_atoms_spec (l : list atom) :
  sorted py_lt l
  = if uniform same_kind l then Ok (psort atom_ltb l) else Raise TypeError.
Proof.
  apply (sorted_spec py_lt atom_ltb same_kind (fun _ _ => True)
           same_kind_sym same_kind_trans (fun a b _ => py_lt_agree a b)).
  apply related_all_True.
Qed.

(** [sorted(s)] is the same for every iteration order of the set [s]. *)
Lemma sorted_atoms_perm (l1 l2 : list atom) :
  Permutation l1 l2 -> sorted py_lt l1 = sorted py_lt l2.
Proof.
  intros HP. rewrite !sorted_atoms_spec.
  rewrite (uniform_perm same_kind same_kind_sym _ _ HP).
  now rewrite (psort_perm atom_ltb _ _ HP).
Qed.

Lemma sorted_atoms_permutation (l r : list atom) :
  sorted py_lt l = Ok r -> Permutation r l.
Proof.
  rewrite sorted_atoms_spec. destruct (uniform same_kind l); [|discriminate].
  intros [= <-]. apply psort_permutation.
Qed.

Lemma tuple_lt_agree (p q : atom * atom) :
  fst p <> fst q ->
  tuple_lt p q = if same_kind (fst p) (fst q) then Ok (item_ltb p q)
                 else Raise TypeError.
Proof.
  intros H. unfold tuple_lt.
  destruct (atom_eqb (fst p) (fst q)) eqn:E; [now apply atom_eqb_spec in E|].
  rewrite py_lt_agree. destruct (same_kind (fst p) (fst q)); [|reflexivity].
  f_equal. unfold item_ltb, lexprod.
  destruct (atom_ltb (fst p) (fst q)) eqn:L1; [reflexivity|].
  destruct (atom_ltb (fst q) (fst p)) eqn:L2; [reflexivity|].
  now pose proof (ltb_total _ _ L1 L2).
Qed.

Lemma related_all_keys (l : list (atom * atom)) :
  NoDup (map fst l) -> related_all (fun p q => fst p <> fst q) l.
Proof.
  induction l as [|p l IH]; cbn [related_all map]; [trivial|].
  intros H. inversion H as [|? ? Hn Hl]. subst. split; [|now apply IH].
  apply Forall_forall. intros q Hq.
  assert (fst p <> fst q) by (intros E; apply Hn; rewrite E; now apply in_map).
  split; congruence.
Qed.

Lemma sorted_items_spec (l : list (atom * atom)) :
  NoDup (map fst l) ->
  sorted tuple_lt l
  = if uniform (fun p q => same_kind (fst p) (fst q)) l
    then Ok (psort item_ltb l) else Raise TypeError.
Proof.
  intros H.
  apply (sorted_spec tuple_lt item_ltb (fun p q => same_kind (fst p) (fst q))
           (fun p q => fst p <> fst q)
           (fun a b => same_kind_sym (fst a) (fst b))
           (fun a b c => same_kind_trans (fst a) (fst b) (fst c))
           tuple_lt_agree).
  now apply related_all_keys.
Qed.

(** [sorted(m.items())] is the same for every insertion order of the dict. *)
Lemma sorted_items_perm (l1 l2 : list (atom * atom)) :
  NoDup (map fst l1) -> Permutation l1 l2 ->
  sorted tuple_lt l1 = sorted tuple_lt l2.
Proof.
  intros H HP. rewrite (sorted_items_spec l1 H).
  assert (H2 : NoDup (map fst l2)).
  { apply (Permutation_NoDup (l := map fst l1)); [now apply Permutation_map | exact H]. }
  rewrite (sorted_items_spec l2 H2).
  rewrite (uniform_perm _ (fun a b => same_kind_sym (fst a) (fst b)) _ _ HP).
  now rewrite (psort_perm item_ltb _ _ HP).
Qed.

Lemma sorted_items_permutation (l r : list (atom * atom)) :
  NoDup (map fst l) -> sorted tuple_lt l = Ok r -> Permutation r l.
Proof.
  intros H. rewrite (sorted_items_spec l H).
  destruct (uniform _ l); [|discriminate].
  intros [= <-]. apply psort_permutation.
Qed.

(** ** Sets and keys *)

Lemma set_add_fold (l s : list atom) :
  NoDup s ->
  let r := fold_left (fun s x => set_add x s) l s in
  NoDup r /\ (forall x, In x r <-> In x s \/ In x l).
Proof.
  revert s. induction l as [|a l IH]; intros s Hs; cbn [fold_left].
  - split; [exact Hs|]. intros x. cbn [In]. tauto.
  - assert (Ha : NoDup (set_add a s)
                 /\ forall x, In x (set_add a s) <-> In x s \/ x = a).
    { unfold set_add. destruct (atom_in a s) eqn:E.
      - apply atom_in_spec in E. split; [exact Hs|].
        intros x. split; [tauto | intros [H| ->]; assumption].
      - apply atom_in_false in E. split.
        + apply NoDup_app; [exact Hs | repeat constructor; intros [] |].
          intros x Hx [<-|[]]. contradiction.
        + intros x. rewrite in_app_iff. cbn [In]. split.
          * intros [H|[->|[]]]; [now left | now right].
          * intros [H| ->]; [now left | right; now left]. }
    destruct Ha as [Hn Hi]. destruct (IH _ Hn) as [IH1 IH2]. split; [exact IH1|].
    intros x. rewrite IH2, Hi. cbn [In]. split; intros H; intuition auto.
Qed.

Lemma collapse_spec (l : list atom) :
  NoDup (collapse l) /\ (forall x, In x (collapse l) <-> In x l).
Proof.
  destruct (set_add_fold l [] (NoDup_nil _)) as [H1 H2]. split; [exact H1|].
  intros x. rewrite (H2 x). cbn [In]. tauto.
Qed.

Lemma set_add_fold_NoDup (l s : list atom) :
  NoDup (s ++ l) -> fold_left (fun s x => set_add x s) l s = s ++ l.
Proof.
  revert s. induction l as [|a l IH]; intros s H; cbn [fold_left].
  - now rewrite app_nil_r.
  - assert (E : set_add a s = s ++ [a]).
    { unfold set_add. destruct (atom_in a s) eqn:E; [|reflexivity].
      apply atom_in_spec in E. apply NoDup_remove_2 in H. exfalso. apply H.
      apply in_or_app. now left. }
    rewrite E, IH; rewrite <- app_assoc; [reflexivity | exact H].
Qed.

Lemma collapse_NoDup (l : list atom) : NoDup l -> collapse l = l.
Proof. intros H. apply (set_add_fold_NoDup l []). exact H. Qed.

Lemma first_duplicate_NoDup (seen keys : list atom) :
  NoDup (seen ++ keys) -> first_duplicate seen keys = None.
Proof.
  revert seen. induction keys as [|k keys IH]; intros seen H;
    cbn [first_duplicate]; [reflexivity|].
  destruct (atom_in k seen) eqn:E.
  - apply atom_in_spec in E. apply NoDup_remove_2 in H. exfalso. apply H.
    apply in_or_app. now left.
  - rewrite IH; [reflexivity|]. now rewrite <- app_assoc.
Qed.

Lemma first_duplicate_None (seen keys : list atom) :
  NoDup seen -> first_duplicate seen keys = None -> NoDup (seen ++ keys).
Proof.
  revert seen. induction keys as [|k keys IH]; intros seen Hs;
    cbn [first_duplicate].
  - intros _. now rewrite app_nil_r.
  - destruct (atom_in k seen) eqn:E; [discriminate|].
    apply atom_in_false in E.
    destruct (first_duplicate (seen ++ [k]) keys) eqn:F; [discriminate|].
    intros _. replace (seen ++ k :: keys) with ((seen ++ [k]) ++ keys)
      by (now rewrite <- app_assoc).
    apply IH; [|exact F].
    apply NoDup_app; [exact Hs | repeat constructor; intros [] |].
    intros x Hx [<-|[]]. contradiction.
Qed.

(** The key found is one that came before, in [seen] or earlier in [keys]. *)
Lemma first_duplicate_Some (seen keys : list atom) (i : nat) :
  first_duplicate seen keys = Some i ->
  (i < List.length keys)%nat
  /\ In (nth i keys ANone) (seen ++ firstn i keys).
Proof.
  revert seen i. induction keys as [|k keys IH]; intros seen i;
    cbn [first_duplicate]; [discriminate|].
  destruct (atom_in k seen) eqn:E.
  - intros [= <-]. apply atom_in_spec in E. cbn [nth firstn List.length].
    split; [lia|]. rewrite app_nil_r. exact E.
  - destruct (first_duplicate (seen ++ [k]) keys) as [j|] eqn:F; [|discriminate].
    intros [= <-]. destruct (IH _ _ F) as [H1 H2]. cbn [nth firstn List.length].
    split; [lia|]. now rewrite <- app_assoc in H2.
Qed.



Section Containers.
Context {P : platform}.

Lemma count_wire (v : pyval) (f f' : stream) (k : Z) :
  write_number v LONG_TYPE f = (Ok k, f') ->
  exists n prefix,
    v = PInt n /\ writes (write_number v LONG_TYPE) prefix
    /\ reads (read_number LONG_TYPE) prefix n.
Proof.
  intros W. destruct (write_number_inv _ _ _ _ _ W) as [prefix S].
  destruct (number_wire _ None _ _ S) as (n & E & Wr & Rd).
  now exists n, prefix.
Qed.

Lemma writes_inv (m : io Z) (bs : list byte) (f f' : stream) (n : Z) :
  writes m bs -> m f = (Ok n, f') ->
  n = Z.of_nat (List.length bs) /\ f' = file_write bs f.
Proof. intros W E. rewrite (W f) in E. now inversion E. Qed.

(** A list that [write_vector] accepts is written as its count followed by
    its elements in order, and [read_vector] reads it back. *)
Lemma write_vector_wire (l : list atom) (ty : item_type) (f f' : stream) (n : Z) :
  write_vector (PList l) ty f = (Ok n, f') ->
  exists prefix bss,
    Forall2 (scalar_wire ty) l bss
    /\ reads (read_number LONG_TYPE) prefix (Z.of_nat (List.length l))
    /\ writes (write_vector (PList l) ty) (prefix ++ List.concat bss).
Proof.
  unfold write_vector. cbn [py_len py_iter]. unfold bind at 1, lift.
  unfold bind at 1.
  destruct (write_number (PInt (Z.of_nat (List.length l))) LONG_TYPE f)
    as [[k|e] f1] eqn:W; [|discriminate].
  destruct (count_wire _ _ _ _ W) as (c & prefix & [= <-] & Wr & Rd).
  destruct (writes_inv _ _ _ _ _ Wr W) as [-> ->].
  unfold bind at 1. intros L.
  destruct (write_vector_loop_wire _ _ _ _ _ _ L) as (bss & F & _ & _).
  exists prefix, bss. split; [exact F|]. split; [exact Rd|].
  intros g. unfold bind at 1. unfold bind at 1. rewrite (Wr g). unfold bind at 1.
  rewrite (write_vector_loop_writes _ _ _ F), file_write_app, length_app.
  f_equal. f_equal. lia.
Qed.

Lemma read_vector_reads (l : list atom) (ty : item_type) (prefix : list byte)
    (bss : list (list byte)) :
  Forall2 (scalar_wire ty) l bss ->
  reads (read_number LONG_TYPE) prefix (Z.of_nat (List.length l)) ->
  reads (read_vector ty) (prefix ++ List.concat bss) l.
Proof.
  intros F Rd. unfold read_vector.
  apply reads_bind with (a := Z.of_nat (List.length l)); [exact Rd|].
  rewrite Nat2Z.id. apply (read_vector_loop_reads ty l bss F []).
Qed.

Lemma read_set_reads (l : list atom) (ty : item_type) (prefix : list byte)
    (bss : list (list byte)) :
  Forall2 (scalar_wire ty) l bss ->
  reads (read_number LONG_TYPE) prefix (Z.of_nat (List.length l)) ->
  reads (read_set ty) (prefix ++ List.concat bss) (collapse l).
Proof.
  intros F Rd. unfold read_set.
  apply reads_bind with (a := Z.of_nat (List.length l)); [exact Rd|].
  rewrite Nat2Z.id. apply (read_set_loop_reads ty l bss F []).
Qed.

(** A set that [write_set] accepts is written as its count followed by its
    members in ascending order. *)
Lemma write_set_wire (l : list atom) (ty : item_type) (f f' : stream) (n : Z) :
  write_set (PSet l) ty f = (Ok n, f') ->
  exists prefix bss,
    sorted py_lt l = Ok (psort atom_ltb l)
    /\ Forall2 (scalar_wire ty) (psort atom_ltb l) bss
    /\ reads (read_number LONG_TYPE) prefix (Z.of_nat (List.length l))
    /\ writes (write_set (PSet l) ty) (prefix ++ List.concat bss).
Proof.
  unfold write_set. cbn [py_len py_iter rbind]. unfold bind at 1, lift.
  unfold bind at 1.
  destruct (write_number (PInt (Z.of_nat (List.length l))) LONG_TYPE f)
    as [[k|e] f1] eqn:W; [|discriminate].
  destruct (count_wire _ _ _ _ W) as (c & prefix & [= <-] & Wr & Rd).
  destruct (writes_inv _ _ _ _ _ Wr W) as [-> ->].
  unfold bind at 1. rewrite sorted_atoms_spec.
  destruct (uniform same_kind l); [|discriminate]. intros L.
  destruct (write_vector_loop_wire _ _ _ _ _ _ L) as (bss & F & _ & _).
  exists prefix, bss. split; [reflexivity|]. split; [exact F|]. split; [exact Rd|].
  intros g. unfold bind at 1. unfold bind at 1. rewrite (Wr g). unfold bind at 1.
  rewrite (write_vector_loop_writes _ _ _ F), file_write_app, length_app.
  f_equal. f_equal. lia.
Qed.

Lemma read_map_reads (items : list (atom * atom)) (kt vt : item_type)
    (prefix : list byte) (bss : list (list byte)) :
  Forall2 (pair_wire kt vt) items bss ->
  reads (read_number LONG_TYPE) prefix (Z.of_nat (List.length items)) ->
  forall (f : stream) (rest : list byte),
    ahead f = (prefix ++ List.concat bss) ++ rest ->
    read_map kt vt f
    = match first_duplicate [] (map fst items) with
      | None => (Ok items, mkStream (behind f ++ prefix ++ List.concat bss) rest)
      | Some i =>
          (Raise (ValueError (duplicate_key (nth i (map fst items) ANone))),
           mkStream (behind f ++ prefix ++ List.concat (firstn (S i) bss))
                    (List.concat (skipn (S i) bss) ++ rest))
      end.
Proof.
  intros F Rd f rest Hf. unfold read_map. unfold bind.
  rewrite <- app_assoc in Hf. rewrite (Rd f _ Hf). rewrite Nat2Z.id.
  rewrite (read_map_loop_spec kt vt items bss F []
             (mkStream (behind f ++ prefix) (List.concat bss ++ rest)) rest eq_refl).
  cbn [map behind app]. destruct (first_duplicate [] (map fst items));
    now rewrite <- !app_assoc.
Qed.

(** A dict that [write_map] accepts is written as its count followed by its
    entries in ascending order of key. *)
Lemma write_map_wire (m : list (atom * atom)) (kt vt : item_type)
    (f f' : stream) (n : Z) :
  NoDup (map fst m) ->
  write_map (PDict m) kt vt f = (Ok n, f') ->
  exists prefix bss,
    sorted tuple_lt m = Ok (psort item_ltb m)
    /\ Forall2 (pair_wire kt vt) (psort item_ltb m) bss
    /\ reads (read_number LONG_TYPE) prefix (Z.of_nat (List.length m))
    /\ writes (write_map (PDict m) kt vt) (prefix ++ List.concat bss).
Proof.
  intros ND. unfold write_map. cbn [py_len py_items rbind]. unfold bind at 1, lift.
  unfold bind at 1.
  destruct (write_number (PInt (Z.of_nat (List.length m))) LONG_TYPE f)
    as [[k|e] f1] eqn:W; [|discriminate].
  destruct (count_wire _ _ _ _ W) as (c & prefix & [= <-] & Wr & Rd).
  destruct (writes_inv _ _ _ _ _ Wr W) as [-> ->].
  unfold bind at 1. rewrite (sorted_items_spec m ND).
  destruct (uniform _ m); [|discriminate]. intros L.
  destruct (write_map_loop_wire _ _ _ _ _ _ _ L) as (bss & F & _ & _).
  exists prefix, bss. split; [reflexivity|]. split; [exact F|]. split; [exact Rd|].
  intros g. unfold bind at 1. unfold bind at 1. rewrite (Wr g). unfold bind at 1.
  rewrite (write_map_loop_writes _ _ _ _ F), file_write_app, length_app.
  f_equal. f_equal. lia.
Qed.

Lemma craft_map_wire (items : list (atom * atom)) (kt vt : item_type)
    (f f' : stream) (n : Z) :
  craft_map items kt vt f = (Ok n, f') ->
  exists prefix bss,
    Forall2 (pair_wire kt vt) items bss
    /\ reads (read_number LONG_TYPE) prefix (Z.of_nat (List.length items))
    /\ f' = file_write (prefix ++ List.concat bss) f.
Proof.
  unfold craft_map. unfold bind at 1.
  destruct (write_number (PInt (Z.of_nat (List.length items))) LONG_TYPE f)
    as [[k|e] f1] eqn:W; [|discriminate].
  destruct (count_wire _ _ _ _ W) as (c & prefix & [= <-] & Wr & Rd).
  destruct (writes_inv _ _ _ _ _ Wr W) as [-> ->]. intros L.
  destruct (write_map_loop_wire _ _ _ _ _ _ _ L) as (bss & F & _ & ->).
  exists prefix, bss. split; [exact F|]. split; [exact Rd|].
  now rewrite file_write_app.
Qed.
End Containers.

(** ** Equality of containers *)

Lemma distinct_spec (l : list atom) : distinct l = true <-> NoDup l.
Proof.
  unfold distinct. split.
  - destruct (first_duplicate [] l) eqn:E; [discriminate|]. intros _.
    apply (first_duplicate_None [] l (NoDup_nil _) E).
  - intros H. now rewrite (first_duplicate_NoDup [] l H).
Qed.

Lemma list_eqb_refl (l : list atom) : list_eqb atom_eqb l l = true.
Proof. now apply (list_eqb_spec atom_eqb atom_eqb_spec). Qed.

Lemma dict_get_In (m : list (atom * atom)) (k v : atom) :
  NoDup (map fst m) -> In (k, v) m -> dict_get m k = Some v.
Proof.
  induction m as [|[k' v'] m IH]; cbn [map fst dict_get In]; [intros _ []|].
  intros H. inversion H as [|? ? Hn Hm]. subst. intros [[= -> ->]|Hin].
  - assert (E : atom_eqb k k = true) by (now apply atom_eqb_spec). now rewrite E.
  - destruct (atom_eqb k k') eqn:E.
    + apply atom_eqb_spec in E. subst. exfalso. apply Hn.
      now apply (in_map fst) in Hin.
    + now apply IH.
Qed.

Lemma py_eq_set (l l' : list atom) :
  Permutation l' l -> py_eq (PSet l) (PSet l') = true.
Proof.
  intros HP. cbn [py_eq]. rewrite (Permutation_length HP), Nat.eqb_refl.
  cbn [andb]. apply forallb_forall. intros a Ha. apply atom_in_spec.
  now apply (Permutation_in _ (Permutation_sym HP)).
Qed.

Lemma py_eq_dict (m m' : list (atom * atom)) :
  NoDup (map fst m) -> Permutation m' m -> py_eq (PDict m) (PDict m') = true.
Proof.
  intros ND HP. cbn [py_eq]. rewrite (Permutation_length HP), Nat.eqb_refl.
  cbn [andb]. apply forallb_forall. intros [k v] Hkv. cbn [fst snd].
  assert (ND' : NoDup (map fst m')).
  { apply (Permutation_NoDup (l := map fst m)); [|exact ND].
    apply Permutation_map. now apply Permutation_sym. }
  rewrite (dict_get_In m' k v ND').
  - now apply atom_eqb_spec.
  - now apply (Permutation_in _ (Permutation_sym HP)).
Qed.

Lemma getbuffer_written (bs : list byte) :
  getbuffer (file_write bs (BytesIO [])) = bs.
Proof.
  unfold getbuffer, file_write, BytesIO. cbn [behind ahead app].
  now rewrite skipn_nil, app_nil_r.
Qed.

Lemma Forall2_skipn {A B} (R : A -> B -> Prop) (n : nat) (l : list A)
    (l' : list B) :
  Forall2 R l l' -> Forall2 R (skipn n l) (skipn n l').
Proof.
  intros H. revert n. induction H as [|a b l l' Hab H IH]; intros [|n];
    cbn [skipn].
  - constructor.
  - constructor.
  - now constructor.
  - apply IH.
Qed.

(** ** The dispatcher *)

Section Dispatch.
Context {P : platform}.

Lemma write_scalar_descr (td : string) (ty : item_type) (more : list item_type)
    (item : pyval) (f : stream) :
  parse_type_descr td = ty :: more -> str_in (fst ty) SCALAR_TYPES = true ->
  write item td f = write_scalar item ty f.
Proof.
  intros H S. unfold write. rewrite H. cbn [index nth_error].
  unfold bind, lift. destruct ty as [typ enc]. cbn [fst] in S. now rewrite S.
Qed.

Lemma read_scalar_descr (td : string) (ty : item_type) (more : list item_type)
    (f : stream) :
  parse_type_descr td = ty :: more -> str_in (fst ty) SCALAR_TYPES = true ->
  read td f = (a <- read_scalar ty ;; ret (PAtom a)) f.
Proof.
  intros H S. unfold read. rewrite H. cbn [index nth_error].
  unfold bind at 1, lift. destruct ty as [typ enc]. cbn [fst] in S. rewrite S.
  reflexivity.
Qed.

Lemma write_vec_descr (td : string) (e : option string) (ty : item_type)
    (more : list item_type) (item : pyval) (f : stream) :
  parse_type_descr td = ("vec"%string, e) :: ty :: more ->
  write item td f = write_vector item ty f.
Proof. intros H. unfold write. now rewrite H. Qed.

Lemma read_vec_descr (td : string) (e : option string) (ty : item_type)
    (more : list item_type) (f : stream) :
  parse_type_descr td = ("vec"%string, e) :: ty :: more ->
  read td f = (l <- read_vector ty ;; ret (PList l)) f.
Proof. intros H. unfold read. now rewrite H. Qed.

Lemma write_set_descr (td : string) (e : option string) (ty : item_type)
    (more : list item_type) (item : pyval) (f : stream) :
  parse_type_descr td = ("set"%string, e) :: ty :: more ->
  write item td f = write_set item ty f.
Proof. intros H. unfold write. now rewrite H. Qed.

Lemma read_set_descr (td : string) (e : option string) (ty : item_type)
    (more : list item_type) (f : stream) :
  parse_type_descr td = ("set"%string, e) :: ty :: more ->
  read td f = (s <- read_set ty ;; ret (PSet s)) f.
Proof. intros H. unfold read. now rewrite H. Qed.

Lemma write_map_descr (td : string) (e : option string) (kt vt : item_type)
    (more : list item_type) (item : pyval) (f : stream) :
  parse_type_descr td = ("map"%string, e) :: kt :: vt :: more ->
  write item td f = write_map item kt vt f.
Proof. intros H. unfold write. now rewrite H. Qed.

Lemma read_map_descr (td : string) (e : option string) (kt vt : item_type)
    (more : list item_type) (f : stream) :
  parse_type_descr td = ("map"%string, e) :: kt :: vt :: more ->
  read td f = (m <- read_map kt vt ;; ret (PDict m)) f.
Proof. intros H. unfold read. now rewrite H. Qed.

Lemma reads_wrap {A B} (m : io A) (g : A -> B) (bs : list byte) (a : A) :
  reads m bs a -> reads (x <- m ;; ret (g x)) bs (g a).
Proof.
  intros R. rewrite <- (app_nil_r bs).
  apply reads_bind with (a := a); [exact R | apply reads_ret].
Qed.
End Dispatch.

(** * The specification's properties *)

Section Specification.
Context {P : platform}.

(** C8. The descriptor ["q"] parses without error into the single component
    [("q", None)], and [write(x, "q")] raises the [ValueError] 'type q
    unsupported', whatever [x] is, before anything is written. *)
Theorem write_unsupported_tag (x : pyval) (f : stream) :
  parse_type_descr "q" = [("q"%string, None)]
  /\ write x "q" f = (Raise (ValueError (type_unsupported "q")), f).
Proof. split; reflexivity. Qed.

Lemma native_single (b : byte) : native [b] = [b].
Proof. unfold native. now destruct order. Qed.

Lemma native_zero4 : native (le_bytes 4 0) = le_bytes 4 0.
Proof. unfold native. now destruct order. Qed.

(** C9. Under a [vec] descriptor, writing [None] is writing the empty list:
    both write the four-byte count zero and nothing else, and return 4. *)
Theorem write_none_vector (td : string) (e : option string) (ty : item_type)
    (more : list item_type) (f : stream) :
  parse_type_descr td = ("vec"%string, e) :: ty :: more ->
  write PNone td f = write (PList []) td f
  /\ write PNone td f = (Ok 4, file_write [x00; x00; x00; x00] f).
Proof.
  intros H. rewrite !(write_vec_descr td e ty more _ f H). split; [reflexivity|].
  unfold write_vector, PNone. cbn [py_len py_iter List.length].
  unfold bind, lift, write_number, LONG_TYPE, struct_pack, PInt.
  cbn [format_char String.eqb Ascii.eqb Bool.eqb].
  change (in_range false 4 (Z.of_nat 0)) with true. cbn iota.
  change (Z.of_nat 0) with 0. rewrite native_zero4.
  cbn [write_vector_loop]. unfold PBytes, _out, ret. reflexivity.
Qed.

(** C4, as the code has it.  ['l'] and ['L'] take the width of the
    platform's C [long]; the length prefix of long strings, long bytes and
    containers has the width of ['I'], four bytes; the two widths are the
    same exactly where [long] has four bytes, that is, not under LP64. *)
Theorem long_tags_width :
  lookup NUMBER_SIZES "l" = Ok (Z.of_nat sizeof_long)
  /\ lookup NUMBER_SIZES "L" = Ok (Z.of_nat sizeof_long)
  /\ lookup NUMBER_SIZES (fst LONG_TYPE) = Ok 4
  /\ (lookup NUMBER_SIZES "L" = lookup NUMBER_SIZES (fst LONG_TYPE)
      <-> model <> LP64).
Proof.
  destruct P as [m o]. destruct m, o; vm_compute;
    repeat split; try reflexivity; try discriminate; try congruence.
Qed.

Lemma short_frame (payload : list byte) (fmt : string) :
  _fmt_to_len_type fmt = SHORT_TYPE ->
  _get_len_and_fmt (PBytes payload) fmt
  = if 255 <? Z.of_nat (List.length payload)
    then Raise (ValueError not_a_short_sequence)
    else Ok (Z.of_nat (List.length payload), SHORT_TYPE).
Proof.
  intros H. unfold _get_len_and_fmt. rewrite H. cbn [py_len PBytes rbind].
  unfold SHORT_TYPE. cbn [String.eqb Ascii.eqb Bool.eqb andb]. reflexivity.
Qed.

Lemma fits_frame (payload : list byte) (fmt : string) :
  payload_fits fmt (List.length payload) = true ->
  exists prefix,
    _get_len_and_fmt (PBytes payload) fmt
    = Ok (Z.of_nat (List.length payload), _fmt_to_len_type fmt)
    /\ struct_pack (fst (_fmt_to_len_type fmt))
         (PInt (Z.of_nat (List.length payload))) = Ok prefix.
Proof.
  unfold payload_fits, _get_len_and_fmt, _fmt_to_len_type.
  cbn [py_len PBytes rbind].
  destruct (String.eqb fmt "byt" || String.eqb fmt "str"); intros H.
  - unfold LONG_TYPE. cbn [String.eqb Ascii.eqb Bool.eqb andb fst].
    unfold struct_pack, PInt. cbn [format_char String.eqb Ascii.eqb Bool.eqb].
    unfold in_range. change (8 * Z.of_nat 4) with 32. rewrite H.
    destruct (Z.leb_spec 0 (Z.of_nat (List.length payload))); [|lia].
    cbn [andb]. eexists. split; reflexivity.
  - unfold SHORT_TYPE. cbn [String.eqb Ascii.eqb Bool.eqb andb fst].
    apply Z.leb_le in H.
    destruct (Z.ltb_spec 255 (Z.of_nat (List.length payload))); [lia|].
    unfold struct_pack, PInt. cbn [format_char String.eqb Ascii.eqb Bool.eqb].
    unfold in_range. change (2 ^ (8 * Z.of_nat 1)) with 256.
    destruct (Z.leb_spec 0 (Z.of_nat (List.length payload))); [|lia].
    destruct (Z.ltb_spec (Z.of_nat (List.length payload)) 256); [|lia].
    cbn [andb]. eexists. split; reflexivity.
Qed.

Lemma write_bytes_fits (payload : list byte) (fmt : string) (enc : option string)
    (f : stream) :
  payload_fits fmt (List.length payload) = true ->
  exists n f', write_bytes (PBytes payload) (fmt, enc) f = (Ok n, f').
Proof.
  intros H. destruct (fits_frame payload fmt H) as (prefix & G & S).
  unfold write_bytes. unfold bind at 1, lift. rewrite G.
  rewrite (framed_write payload fmt prefix _ f G S). now eexists _, _.
Qed.

Lemma write_string_fits (item : pyval) (payload : list byte) (fmt : string)
    (enc : option string) (f : stream) :
  _encode_string item enc = Ok payload ->
  payload_fits fmt (List.length payload) = true ->
  exists n f', write_string item (fmt, enc) f = (Ok n, f').
Proof.
  intros E H. destruct (fits_frame payload fmt H) as (prefix & G & S).
  unfold write_string. unfold bind at 1, lift. rewrite E.
  unfold bind at 1. rewrite G.
  rewrite (framed_write payload fmt prefix _ f G S). now eexists _, _.
Qed.

Lemma representable_written (ty : item_type) (a : atom) (f : stream) :
  representable ty a = true ->
  exists n f', write_scalar (PAtom a) ty f = (Ok n, f').
Proof.
  destruct ty as [typ enc]. unfold representable, write_scalar.
  destruct (str_in typ NUMERIC_FMT).
  { destruct a as [z| | |]; try discriminate.
    destruct (format_char typ) as [[signed k]|] eqn:F; [|discriminate].
    intros R. unfold write_number, bind, lift, struct_pack. rewrite F, R.
    now eexists _, _. }
  destruct (str_in typ STRING_TYPES).
  { destruct (_encode_string (PAtom a) enc) as [payload|] eqn:E; [|discriminate].
    intros R. now apply (write_string_fits _ payload). }
  destruct (str_in typ BYTES_TYPES); [|discriminate].
  destruct a as [|?|b|]; try discriminate.
  intros R. now apply write_bytes_fits.
Qed.

(** C1. Every value a scalar type can carry has an encoding: [write_scalar]
    writes exactly these bytes, on any file object, and [read_scalar] with
    the same type, on any file object that has these bytes at its position,
    consumes exactly them and returns the value.  For text this is stated
    under the default encoding and the hints utf-8, latin-1 and ascii, which
    decode what they encoded; a hint may name a codec that does not. *)
Theorem scalar_round_trip (ty : item_type) (v : atom) :
  hint_modelled ty = true ->
  representable ty v = true ->
  exists bs,
    (forall f, write_scalar (PAtom v) ty f
               = (Ok (Z.of_nat (List.length bs)), file_write bs f))
    /\ (forall f rest, ahead f = bs ++ rest ->
          read_scalar ty f = (Ok v, mkStream (behind f ++ bs) rest)).
Proof.
  intros _ R. destruct (representable_written ty v (BytesIO []) R) as (n & f' & W).
  destruct (write_scalar_wire _ _ _ _ _ W) as (a & bs & [= <-] & Wr & Rd).
  exists bs. split; [exact Wr | exact Rd].
Qed.

Lemma representable_scalar_tag (ty : item_type) (a : atom) :
  representable ty a = true -> str_in (fst ty) SCALAR_TYPES = true.
Proof.
  destruct ty as [typ enc]. unfold representable, SCALAR_TYPES, str_in.
  cbn [fst]. rewrite !existsb_app. fold (str_in typ NUMERIC_FMT).
  fold (str_in typ STRING_TYPES). fold (str_in typ BYTES_TYPES).
  destruct (str_in typ NUMERIC_FMT); [reflexivity|].
  destruct (str_in typ STRING_TYPES); [reflexivity|].
  destruct (str_in typ BYTES_TYPES); [reflexivity | discriminate].
Qed.

(** The same through the dispatcher, for a descriptor whose first component
    is the scalar type. *)
Lemma scalar_round_trip_descr (td : string) (ty : item_type)
    (more : list item_type) (v : atom) :
  parse_type_descr td = ty :: more -> representable ty v = true ->
  exists bs,
    writes (write (PAtom v) td) bs /\ reads (read td) bs (PAtom v).
Proof.
  intros H R. pose proof (representable_scalar_tag ty v R) as S.
  destruct (representable_written ty v (BytesIO []) R) as (n & f' & W).
  destruct (write_scalar_wire _ _ _ _ _ W) as (a & bs & [= <-] & Wr & Rd).
  exists bs. split.
  - intros f. rewrite (write_scalar_descr td ty more _ f H S). apply Wr.
  - intros f rest Hf. rewrite (read_scalar_descr td ty more f H S).
    exact (reads_wrap _ PAtom _ _ Rd f rest Hf).
Qed.

Lemma short_overflow_raises (item : pyval) (typ : string)
    (enc : option string) (n : Z) (f : stream) :
  typ = "sstr"%string \/ typ = "sbyt"%string ->
  checked_length item (typ, enc) = Ok n -> 255 < n ->
  write_scalar item (typ, enc) f = (Raise (ValueError not_a_short_sequence), f).
Proof.
  intros [-> | ->]; unfold checked_length, write_scalar;
    cbn [str_in existsb NUMERIC_FMT STRING_TYPES BYTES_TYPES String.eqb
         Ascii.eqb Bool.eqb orb].
  - unfold write_string. unfold bind at 1, lift.
    destruct (_encode_string item enc) as [payload|e]; [|discriminate].
    cbn [rbind py_len PBytes]. intros [= <-] H.
    unfold bind at 1. rewrite (short_frame payload "sstr" eq_refl).
    destruct (Z.ltb_spec 255 (Z.of_nat (List.length payload))); [reflexivity | lia].
  - intros L H. unfold write_bytes. unfold bind at 1, lift.
    unfold _get_len_and_fmt. rewrite L. cbn [rbind].
    change (_fmt_to_len_type "sbyt") with SHORT_TYPE. unfold SHORT_TYPE.
    cbn [String.eqb Ascii.eqb Bool.eqb andb].
    destruct (Z.ltb_spec 255 n); [reflexivity | lia].
Qed.

(** C10. Under a short tag, a payload of more than 255 bytes makes
    [write_scalar] raise 'not a short string/bytes sequence' with the file
    object exactly as it was: the check comes before the first write. *)
Theorem short_overflow_writes_nothing (item : pyval) (typ : string)
    (enc : option string) (n : Z) (f : stream) :
  typ = "sstr"%string \/ typ = "sbyt"%string ->
  checked_length item (typ, enc) = Ok n -> 255 < n ->
  write_scalar item (typ, enc) f = (Raise (ValueError not_a_short_sequence), f)
  /\ snd (write_scalar item (typ, enc) f) = f.
Proof.
  intros T L H. rewrite (short_overflow_raises item typ enc n f T L H).
  split; reflexivity.
Qed.

(** C5. Under a short tag, a payload of exactly 255 bytes is written, as
    the prefix byte 255 and the payload, and a payload of 256 bytes or more
    is refused with 'not a short string/bytes sequence'.  For a string the
    payload is the encoded text: 128 times U+00FC is 128 characters and 256
    bytes of UTF-8 and is refused, 255 times U+00FC in Latin-1 is accepted. *)
Theorem short_length_boundary (a : atom) (typ : string) (enc : option string)
    (payload : list byte) (f : stream) :
  (typ = "sstr"%string /\ _encode_string (PAtom a) enc = Ok payload)
  \/ (typ = "sbyt"%string /\ a = ABytes payload) ->
  (List.length payload = 255%nat ->
   write_scalar (PAtom a) (typ, enc) f = (Ok 256, file_write (xff :: payload) f))
  /\ ((256 <= List.length payload)%nat ->
      write_scalar (PAtom a) (typ, enc) f
      = (Raise (ValueError not_a_short_sequence), f))
  /\ write_scalar (PStr (repeat 252 128)) ("sstr"%string, None) f
     = (Raise (ValueError not_a_short_sequence), f)
  /\ (exists f', write_scalar (PStr (repeat 252 255))
                   ("sstr"%string, Some "latin-1"%string) f = (Ok 256, f')).
Proof.
  intros H.
  assert (Pk : struct_pack "B" (PInt (Z.of_nat 255)) = Ok [xff]).
  { unfold struct_pack, PInt. cbn [format_char String.eqb Ascii.eqb Bool.eqb].
    change (in_range false 1 (Z.of_nat 255)) with true. cbn iota.
    change (le_bytes 1 (Z.of_nat 255)) with [xff]. now rewrite native_single. }
  split; [|split; [|split]].
  - intros L. destruct H as [[-> E] | [-> ->]]; unfold write_scalar;
      cbn [str_in existsb NUMERIC_FMT STRING_TYPES BYTES_TYPES String.eqb
           Ascii.eqb Bool.eqb orb].
    + unfold write_string. unfold bind at 1, lift. rewrite E. unfold bind at 1.
      pose proof (short_frame payload "sstr" eq_refl) as G.
      rewrite (proj2 (Z.ltb_ge _ _)) in G by lia. rewrite G. rewrite <- L in Pk.
      rewrite (framed_write payload "sstr" [xff] SHORT_TYPE f G Pk).
      cbn [app List.length]. now rewrite L.
    + unfold write_bytes. unfold bind at 1, lift.
      pose proof (short_frame payload "sbyt" eq_refl) as G.
      rewrite (proj2 (Z.ltb_ge _ _)) in G by lia.
      change (PAtom (ABytes payload)) with (PBytes payload).
      rewrite G. rewrite <- L in Pk.
      etransitivity;
        [exact (framed_write payload "sbyt" [xff] SHORT_TYPE f G Pk)|].
      cbn [app List.length]. now rewrite L.
  - intros L. apply short_overflow_raises with (n := Z.of_nat (List.length payload));
      [| |lia].
    + destruct H as [[-> _] | [-> _]]; [now left | now right].
    + destruct H as [[-> E] | [-> ->]]; unfold checked_length;
        cbn [str_in existsb STRING_TYPES String.eqb Ascii.eqb Bool.eqb orb].
      * now rewrite E.
      * reflexivity.
  - apply short_overflow_raises with (n := 256); [now left | | lia].
    vm_compute. reflexivity.
  - unfold write_scalar.
    cbn [str_in existsb NUMERIC_FMT STRING_TYPES BYTES_TYPES String.eqb
         Ascii.eqb Bool.eqb orb].
    assert (E : exists payload', _encode_string (PStr (repeat 252 255)) (Some "latin-1"%string)
                = Ok payload' /\ List.length payload' = 255%nat).
    { eexists. split; [vm_compute; reflexivity | reflexivity]. }
    destruct E as (payload' & E & L).
    unfold write_string. unfold bind at 1, lift. rewrite E. unfold bind at 1.
    pose proof (short_frame payload' "sstr" eq_refl) as G.
    rewrite (proj2 (Z.ltb_ge _ _)) in G by lia. rewrite G. rewrite <- L in Pk.
    rewrite (framed_write payload' "sstr" [xff] SHORT_TYPE f G Pk).
    cbn [app List.length]. rewrite L. now eexists.
Qed.

(** C7. A set stream whose count covers repeated members is read without
    error: [read] under a [set] descriptor returns the set of the members
    met, each once.  The stream is what [write_vector] writes for the list
    of members, which has the layout of a set stream and keeps repeats. *)
Theorem set_read_collapses_duplicates (td : string) (e : option string)
    (ty : item_type) (more : list item_type) (l : list atom) (n : Z)
    (s : stream) (rest : list byte) :
  parse_type_descr td = ("set"%string, e) :: ty :: more ->
  write_vector (PList l) ty (BytesIO []) = (Ok n, s) ->
  read td (BytesIO (getbuffer s ++ rest))
  = (Ok (PSet (collapse l)), mkStream (getbuffer s) rest)
  /\ NoDup (collapse l) /\ (forall a, In a (collapse l) <-> In a l).
Proof.
  intros H W. split; [|apply collapse_spec].
  destruct (write_vector_wire _ _ _ _ _ W) as (prefix & bss & F & Rd & Wr).
  destruct (writes_inv _ _ _ _ _ Wr W) as [-> ->].
  rewrite getbuffer_written, (read_set_descr td e ty more _ H).
  now apply (reads_wrap _ PSet (prefix ++ List.concat bss) (collapse l)
               (read_set_reads l ty prefix bss F Rd) (BytesIO _) rest).
Qed.

(** C6. A map stream in which a key occurs twice is refused: [read] under a
    [map] descriptor raises 'duplicate key' for the first key that repeats
    an earlier one.  It raises once it has read that entry, key and value:
    the entries after it are still ahead. *)
Theorem map_read_rejects_duplicate_key (td : string) (e : option string)
    (kt vt : item_type) (more : list item_type) (items : list (atom * atom))
    (n : Z) (s : stream) (rest : list byte) :
  parse_type_descr td = ("map"%string, e) :: kt :: vt :: more ->
  craft_map items kt vt (BytesIO []) = (Ok n, s) ->
  ~ NoDup (map fst items) ->
  exists i key f',
    first_duplicate [] (map fst items) = Some i
    /\ nth_error (map fst items) i = Some key
    /\ In key (firstn i (map fst items))
    /\ read td (BytesIO (getbuffer s ++ rest))
       = (Raise (ValueError (duplicate_key key)), f')
    /\ exists k tail,
         write_map_loop (skipn (S i) items) kt vt 0 (BytesIO []) = (Ok k, tail)
         /\ ahead f' = getbuffer tail ++ rest.
Proof.
  intros H W D.
  destruct (craft_map_wire _ _ _ _ _ _ W) as (prefix & bss & F & Rd & ->).
  destruct (first_duplicate [] (map fst items)) as [i|] eqn:FD.
  2: { exfalso. apply D. apply (first_duplicate_None [] _ (NoDup_nil _) FD). }
  destruct (first_duplicate_Some _ _ _ FD) as [Hi Hin]. cbn [app] in Hin.
  exists i, (nth i (map fst items) ANone). eexists.
  split; [reflexivity|]. split; [now apply nth_error_nth'|]. split; [exact Hin|].
  rewrite getbuffer_written, (read_map_descr td e kt vt more _ H).
  unfold bind.
  rewrite (read_map_reads items kt vt prefix bss F Rd (BytesIO _) rest eq_refl).
  rewrite FD. split; [reflexivity|]. cbn [ahead].
  pose proof (Forall2_skipn _ (S i) _ _ F) as F'.
  eexists _, _. split.
  - apply (write_map_loop_writes _ _ _ _ F').
  - now rewrite getbuffer_written.
Qed.
End Specification.

(** ** Containers that are accepted *)

Section Accepted.
Context {P : platform}.

Lemma count_written (n : nat) :
  Z.of_nat n < 2 ^ 32 ->
  exists prefix, writes (write_number (PInt (Z.of_nat n)) LONG_TYPE) prefix.
Proof.
  intros H.
  assert (S : exists prefix, struct_pack "I" (PInt (Z.of_nat n)) = Ok prefix).
  { unfold struct_pack, PInt. cbn [format_char String.eqb Ascii.eqb Bool.eqb].
    unfold in_range. change (8 * Z.of_nat 4) with 32.
    destruct (Z.leb_spec 0 (Z.of_nat n)); [|lia].
    destruct (Z.ltb_spec (Z.of_nat n) (2 ^ 32)); [|lia].
    cbn [andb]. now eexists. }
  destruct S as (prefix & S).
  destruct (number_wire "I" None _ _ S) as (z & _ & W & _). now exists prefix.
Qed.

Lemma representable_wires (ty : item_type) (l : list atom) :
  Forall (fun a => representable ty a = true) l ->
  exists bss, Forall2 (scalar_wire ty) l bss.
Proof.
  induction 1 as [|a l R _ (bss & IH)]; [now exists []|].
  destruct (representable_written ty a (BytesIO []) R) as (n & f' & W).
  destruct (write_scalar_wire _ _ _ _ _ W) as (a' & bs & [= <-] & SW).
  exists (bs :: bss). now constructor.
Qed.

Lemma representable_same_kind (ty : item_type) (a b : atom) :
  representable ty a = true -> representable ty b = true ->
  same_kind a b = true.
Proof.
  destruct ty as [typ enc]. unfold representable.
  destruct (str_in typ NUMERIC_FMT).
  { destruct a, b; try discriminate. reflexivity. }
  destruct (str_in typ STRING_TYPES).
  { destruct a, b; cbn [_encode_string]; try discriminate. reflexivity. }
  destruct (str_in typ BYTES_TYPES); [|discriminate].
  destruct a, b; try discriminate. reflexivity.
Qed.

Lemma representable_uniform {A} (key : A -> atom) (ty : item_type) (l : list A) :
  Forall (fun x => representable ty (key x) = true) l ->
  uniform (fun x y => same_kind (key x) (key y)) l = true.
Proof.
  induction 1 as [|x l R F IH]; cbn [uniform]; [reflexivity|].
  rewrite IH, andb_true_r. apply forallb_forall. intros y Hy.
  rewrite Forall_forall in F. now apply (representable_same_kind ty), F.
Qed.

(** A list of representable elements, fewer than 2^32, is written. *)
Lemma write_vector_accepts (l : list atom) (ty : item_type) (f : stream) :
  Forall (fun a => representable ty a = true) l ->
  Z.of_nat (List.length l) < 2 ^ 32 ->
  exists n f', write_vector (PList l) ty f = (Ok n, f').
Proof.
  intros R L. destruct (count_written _ L) as (prefix & W).
  destruct (representable_wires ty l R) as (bss & F).
  unfold write_vector. cbn [py_len py_iter]. unfold bind, lift.
  rewrite (W f), (write_vector_loop_writes _ _ _ F). now eexists _, _.
Qed.

(** So is a set of representable members. *)
Lemma write_set_accepts (l : list atom) (ty : item_type) (f : stream) :
  Forall (fun a => representable ty a = true) l ->
  Z.of_nat (List.length l) < 2 ^ 32 ->
  exists n f', write_set (PSet l) ty f = (Ok n, f').
Proof.
  intros R L. destruct (count_written _ L) as (prefix & W).
  assert (R' : Forall (fun a => representable ty a = true) (psort atom_ltb l)).
  { apply (Permutation_Forall (Permutation_sym (psort_permutation atom_ltb l)) R). }
  destruct (representable_wires ty _ R') as (bss & F).
  unfold write_set. cbn [py_len py_iter rbind]. unfold bind, lift.
  rewrite (W f), sorted_atoms_spec.
  replace (uniform same_kind l) with true
    by (symmetry; exact (representable_uniform (fun a => a) ty l R)).
  rewrite (write_vector_loop_writes _ _ _ F). now eexists _, _.
Qed.

Lemma representable_pair_wires (kt vt : item_type) (m : list (atom * atom)) :
  Forall (fun kv => representable kt (fst kv) = true) m ->
  Forall (fun kv => representable vt (snd kv) = true) m ->
  exists bss, Forall2 (pair_wire kt vt) m bss.
Proof.
  induction m as [|[k v] m IH]; intros Rk Rv; [now exists []|].
  inversion Rk as [|? ? Hk Rk']. inversion Rv as [|? ? Hv Rv']. subst.
  destruct (IH Rk' Rv') as (bss & F). cbn [fst snd] in Hk, Hv.
  destruct (representable_written kt k (BytesIO []) Hk) as (nk & fk & Wk).
  destruct (write_scalar_wire _ _ _ _ _ Wk) as (k' & bk & [= <-] & SWk).
  destruct (representable_written vt v (BytesIO []) Hv) as (nv & fv & Wv).
  destruct (write_scalar_wire _ _ _ _ _ Wv) as (v' & bv & [= <-] & SWv).
  exists ((bk ++ bv) :: bss). constructor; [|exact F]. now exists bk, bv.
Qed.

(** So is a dict of representable keys and values. *)
Lemma write_map_accepts (m : list (atom * atom)) (kt vt : item_type)
    (f : stream) :
  NoDup (map fst m) ->
  Forall (fun kv => representable kt (fst kv) = true) m ->
  Forall (fun kv => representable vt (snd kv) = true) m ->
  Z.of_nat (List.length m) < 2 ^ 32 ->
  exists n f', write_map (PDict m) kt vt f = (Ok n, f').
Proof.
  intros D Rk Rv L. destruct (count_written _ L) as (prefix & W).
  pose proof (Permutation_sym (psort_permutation item_ltb m)) as Pm.
  destruct (representable_pair_wires kt vt _ (Permutation_Forall Pm Rk)
              (Permutation_Forall Pm Rv)) as (bss & F).
  unfold write_map. cbn [py_len py_items rbind]. unfold bind, lift.
  rewrite (W f), (sorted_items_spec m D).
  rewrite (representable_uniform fst kt m Rk).
  rewrite (write_map_loop_writes _ _ _ _ F). now eexists _, _.
Qed.
End Accepted.

(** * Concrete runs *)

(** C4, as stated, fails under LP64: on x86-64 Linux ['l'] and ['L'] take
    eight bytes and the length prefix four. *)
Lemma long_tags_width_lp64 :
  lookup (NUMBER_SIZES (P := x86_64_linux)) "L"
    <> lookup (NUMBER_SIZES (P := x86_64_linux)) (fst LONG_TYPE)
  /\ lookup (NUMBER_SIZES (P := x86_64_linux)) "l"
    <> lookup (NUMBER_SIZES (P := x86_64_linux)) (fst LONG_TYPE).
Proof. split; vm_compute; discriminate. Qed.

Lemma write_none_vector_witness :
  parse_type_descr "vec:b" = [("vec"%string, None); ("b"%string, None)]
  /\ write (P := x86_64_linux) PNone "vec:b" (BytesIO [])
     = (Ok 4, mkStream [x00; x00; x00; x00] []).
Proof.
  split; [reflexivity|].
  exact (proj2 (write_none_vector (P := x86_64_linux) "vec:b" None
                  ("b"%string, None) [] (BytesIO []) eq_refl)).
Defined.

(** The values of the module's self-test, on x86-64 Linux. *)

Example self_test_number :
  write (P := x86_64_linux) (PInt 4711) "i" (BytesIO [])
  = (Ok 4, mkStream [byte_of_Z 103; byte_of_Z 18; x00; x00] []).
Proof. reflexivity. Qed.

Example self_test_long_set :
  fst (write (P := x86_64_linux)
         (PSet [AInt 9223372036854775807; AInt 4611686018427387903;
                AInt 2305843009213693951]) "set:L" (BytesIO []))
  = Ok 28
  /\ fst (write (P := x86_64_windows)
            (PSet [AInt 9223372036854775807; AInt 4611686018427387903;
                   AInt 2305843009213693951]) "set:L" (BytesIO []))
     = Raise StructError.
Proof. split; vm_compute; reflexivity. Qed.

Example byte_exact_sample :
  write (P := x86_64_linux) (PInt 42) "I" (BytesIO [])
  = (Ok 4, mkStream [byte_of_Z 42; x00; x00; x00] [])
  /\ write (P := x86_64_linux) (PStr [97; 98]) "sstr" (BytesIO [])
     = (Ok 3, mkStream [byte_of_Z 2; byte_of_Z 97; byte_of_Z 98] []).
Proof. split; reflexivity. Qed.

Lemma scalar_round_trip_witness :
  let ty := ("sstr"%string, Some "utf-8"%string) in
  let v := AStr [106; 252; 109; 112; 115] in
  let bs := [x06; x6a; xc3; xbc; x6d; x70; x73] in
  hint_modelled ty = true
  /\ representable (P := x86_64_linux) ty v = true
  /\ write_scalar (P := x86_64_linux) (PAtom v) ty (BytesIO [])
     = (Ok 7, mkStream bs [])
  /\ read_scalar (P := x86_64_linux) ty (BytesIO bs) = (Ok v, mkStream bs [])
  /\ exists bs',
       (forall f,
          write_scalar (P := x86_64_linux) (PAtom v) ty f
          = (Ok (Z.of_nat (List.length bs')), file_write bs' f))
       /\ (forall f rest, ahead f = bs' ++ rest ->
             read_scalar (P := x86_64_linux) ty f
             = (Ok v, mkStream (behind f ++ bs') rest)).
Proof.
  intros ty v bs.
  split; [reflexivity|]. split; [vm_compute; reflexivity|].
  split; [vm_compute; reflexivity|]. split; [vm_compute; reflexivity|].
  apply (scalar_round_trip (P := x86_64_linux) ty v);
    [reflexivity | vm_compute; reflexivity].
Defined.

Lemma short_length_boundary_witness :
  let payload := repeat x00 255 in
  ("sbyt"%string = "sstr"%string
   /\ _encode_string (PAtom (ABytes payload)) None = Ok payload
   \/ "sbyt"%string = "sbyt"%string /\ ABytes payload = ABytes payload)
  /\ List.length payload = 255%nat
  /\ write_scalar (P := x86_64_linux) (PAtom (ABytes payload))
       ("sbyt"%string, None) (BytesIO [])
     = (Ok 256, file_write (xff :: payload) (BytesIO [])).
Proof.
  intros payload.
  assert (H : "sbyt"%string = "sstr"%string
              /\ _encode_string (PAtom (ABytes payload)) None = Ok payload
              \/ "sbyt"%string = "sbyt"%string /\ ABytes payload = ABytes payload)
    by (right; split; reflexivity).
  split; [exact H|]. split; [reflexivity|].
  apply (proj1 (short_length_boundary (P := x86_64_linux) (ABytes payload)
                  "sbyt" None payload (BytesIO []) H)).
  reflexivity.
Defined.

Lemma short_overflow_writes_nothing_witness :
  let item := PStr (repeat 252 128) in
  ("sstr"%string = "sstr"%string \/ "sstr"%string = "sbyt"%string)
  /\ checked_length (P := x86_64_linux) item ("sstr"%string, None) = Ok 256
  /\ 255 < 256
  /\ write_scalar (P := x86_64_linux) item ("sstr"%string, None)
       (mkStream [x01] [x02])
     = (Raise (ValueError not_a_short_sequence), mkStream [x01] [x02])
  /\ snd (write_scalar (P := x86_64_linux) item ("sstr"%string, None)
            (mkStream [x01] [x02]))
     = mkStream [x01] [x02].
Proof.
  intros item.
  assert (L : checked_length (P := x86_64_linux) item ("sstr"%string, None) = Ok 256)
    by (vm_compute; reflexivity).
  split; [now left|]. split; [exact L|]. split; [lia|].
  apply (short_overflow_writes_nothing (P := x86_64_linux) item "sstr" None 256
           (mkStream [x01] [x02]) (or_introl eq_refl) L).
  lia.
Defined.

Lemma map_read_rejects_duplicate_key_witness :
  let items := [(AInt 1, AInt 10); (AInt 2, AInt 20); (AInt 1, AInt 30);
                (AInt 3, AInt 40)] in
  let td := "map:b:B"%string in
  let s := snd (craft_map (P := x86_64_linux) items ("b"%string, None)
                  ("B"%string, None) (BytesIO [])) in
  parse_type_descr td
    = [("map"%string, None); ("b"%string, None); ("B"%string, None)]
  /\ craft_map (P := x86_64_linux) items ("b"%string, None) ("B"%string, None)
       (BytesIO []) = (Ok 12, s)
  /\ ~ NoDup (map fst items)
  /\ exists i key f',
       first_duplicate [] (map fst items) = Some i
       /\ nth_error (map fst items) i = Some key
       /\ In key (firstn i (map fst items))
       /\ read (P := x86_64_linux) td (BytesIO (getbuffer s ++ []))
          = (Raise (ValueError (duplicate_key key)), f')
       /\ exists k tail,
            write_map_loop (P := x86_64_linux) (skipn (S i) items)
              ("b"%string, None) ("B"%string, None) 0 (BytesIO []) = (Ok k, tail)
            /\ ahead f' = getbuffer tail ++ [].
Proof.
  intros items td s.
  assert (D : ~ NoDup (map fst items)).
  { intros H. apply distinct_spec in H. vm_compute in H. discriminate H. }
  split; [reflexivity|]. split; [vm_compute; reflexivity|]. split; [exact D|].
  apply (map_read_rejects_duplicate_key (P := x86_64_linux) td None
           ("b"%string, None) ("B"%string, None) [] items 12 s []);
    [reflexivity | vm_compute; reflexivity | exact D].
Defined.

Lemma set_read_collapses_duplicates_witness :
  let l := [AInt 7; AInt 7; AInt 5; AInt 7] in
  let td := "set:b"%string in
  let s := snd (write_vector (P := x86_64_linux) (PList l) ("b"%string, None)
                  (BytesIO [])) in
  parse_type_descr td = [("set"%string, None); ("b"%string, None)]
  /\ write_vector (P := x86_64_linux) (PList l) ("b"%string, None) (BytesIO [])
     = (Ok 8, s)
  /\ read (P := x86_64_linux) td (BytesIO (getbuffer s ++ []))
     = (Ok (PSet [AInt 7; AInt 5]), mkStream (getbuffer s) [])
  /\ NoDup (collapse l) /\ (forall a, In a (collapse l) <-> In a l).
Proof.
  intros l td s.
  split; [reflexivity|]. split; [vm_compute; reflexivity|].
  apply (set_read_collapses_duplicates (P := x86_64_linux) td None
           ("b"%string, None) [] l 8 s []);
    [reflexivity | vm_compute; reflexivity].
Defined.

(** * Further properties of the module *)

(** ** Descriptors *)

Lemma split_not_nil (sep : ascii) (s : string) : split sep s <> [].
Proof.
  induction s as [|c s IH]; cbn [split]; [discriminate|].
  destruct (Ascii.eqb c sep); [discriminate|].
  destruct (split sep s); [contradiction | discriminate].
Qed.

Lemma join_split (sep : ascii) (s : string) : join sep (split sep s) = s.
Proof.
  induction s as [|c s IH]; cbn [split]; [reflexivity|].
  destruct (Ascii.eqb_spec c sep) as [->|Hc].
  - pose proof (split_not_nil sep s) as N.
    destruct (split sep s) as [|h t]; [contradiction|].
    cbn [join] in *. cbn [append]. now rewrite IH.
  - pose proof (split_not_nil sep s) as N.
    destruct (split sep s) as [|h t]; [contradiction|].
    destruct t as [|h' t]; cbn [join] in *; cbn [append]; now rewrite IH.
Qed.

Lemma split_free (sep : ascii) (s : string) :
  occurs sep s = false -> split sep s = [s].
Proof.
  induction s as [|c s IH]; cbn [occurs split]; [reflexivity|].
  intros H. apply orb_false_elim in H. destruct H as [Hc Hs].
  now rewrite Hc, (IH Hs).
Qed.

Lemma split_append (sep : ascii) (p s : string) :
  occurs sep p = false ->
  split sep (p ++ String sep s) = p :: split sep s.
Proof.
  induction p as [|c p IH]; cbn [occurs append split].
  - intros _. now rewrite Ascii.eqb_refl.
  - intros H. apply orb_false_elim in H. destruct H as [Hc Hp].
    now rewrite Hc, (IH Hp).
Qed.

Lemma split_join (sep : ascii) (pieces : list string) :
  pieces <> [] -> forallb (fun p => negb (occurs sep p)) pieces = true ->
  split sep (join sep pieces) = pieces.
Proof.
  induction pieces as [|p rest IH]; [contradiction|].
  intros _ H. cbn [forallb] in H. apply andb_prop in H. destruct H as [Hp Hr].
  apply negb_true_iff in Hp. destruct rest as [|q rest].
  - cbn [join]. now apply split_free.
  - change (join sep (p :: q :: rest)) with (p ++ String sep (join sep (q :: rest)))%string.
    rewrite (split_append sep p _ Hp). f_equal. apply IH; [discriminate | exact Hr].
Qed.

Lemma occurs_split (sep : ascii) (s p : string) :
  In p (split sep s) -> occurs sep p = false.
Proof.
  revert p. induction s as [|c s IH]; intros p; cbn [split].
  - intros [<-|[]]. reflexivity.
  - pose proof (split_not_nil sep s) as N.
    destruct (Ascii.eqb c sep) eqn:E.
    + intros [<-|H]; [reflexivity | now apply IH].
    + destruct (split sep s) as [|h t]; [contradiction|].
      intros [<-|H].
      * cbn [occurs]. rewrite E. apply IH. now left.
      * apply IH. now right.
Qed.

Lemma occurs_append (c : ascii) (a b : string) :
  occurs c (a ++ b) = occurs c a || occurs c b.
Proof.
  induction a as [|x a IH]; cbn [append occurs]; [reflexivity|].
  now rewrite IH, orb_assoc.
Qed.

Lemma cut_spec (sep : ascii) (s : string) :
  match cut sep s with
  | Some (a, b) => s = (a ++ String sep b)%string /\ occurs sep a = false
  | None => occurs sep s = false
  end.
Proof.
  induction s as [|c s IH]; cbn [cut occurs]; [reflexivity|].
  destruct (Ascii.eqb_spec c sep) as [->|Hc].
  - split; reflexivity.
  - destruct (cut sep s) as [[a b]|]; cbn [option_map fst snd orb].
    + destruct IH as [-> Ha]. split; [reflexivity|]. cbn [occurs].
      rewrite Ha. destruct (Ascii.eqb_spec c sep); [contradiction | reflexivity].
    + exact IH.
Qed.

Lemma cut_append (sep : ascii) (a b : string) :
  occurs sep a = false -> cut sep (a ++ String sep b) = Some (a, b).
Proof.
  induction a as [|c a IH]; cbn [occurs append cut].
  - intros _. now rewrite Ascii.eqb_refl.
  - intros H. apply orb_false_elim in H. destruct H as [Hc Ha].
    now rewrite Hc, (IH Ha).
Qed.

Lemma cut_free (sep : ascii) (s : string) :
  occurs sep s = false -> cut sep s = None.
Proof.
  induction s as [|c s IH]; cbn [occurs cut]; [reflexivity|].
  intros H. apply orb_false_elim in H. destruct H as [Hc Hs].
  now rewrite Hc, (IH Hs).
Qed.

Lemma render_parse_component (s : string) :
  render_component (parse_type_component s) = s.
Proof.
  unfold parse_type_component. pose proof (cut_spec "/" s) as H.
  destruct (cut "/" s) as [[a b]|]; [|reflexivity].
  destruct H as [-> _]. reflexivity.
Qed.

Lemma parse_render_component (c : item_type) :
  occurs "/" (fst c) = false -> parse_type_component (render_component c) = c.
Proof.
  destruct c as [typ [enc|]]; cbn [fst render_component]; intros H;
    unfold parse_type_component.
  - now rewrite (cut_append "/" typ enc H).
  - now rewrite (cut_free "/" typ H).
Qed.

(** X1. Parsing loses nothing: joining the components of a parsed
    descriptor, each as tag, ['/'] and hint, gives the descriptor back; and
    a descriptor always has at least one component. *)
Theorem render_parse_type_descr (type_descr : string) :
  render_descr (parse_type_descr type_descr) = type_descr
  /\ parse_type_descr type_descr <> [].
Proof.
  unfold render_descr, parse_type_descr. split.
  - rewrite map_map. rewrite (map_ext _ (fun s => s) render_parse_component).
    rewrite map_id. apply join_split.
  - pose proof (split_not_nil ":" type_descr). now destruct (split ":" type_descr).
Qed.

(** X2. Components that a descriptor can spell are parsed back from their
    text, in order; a hint may itself contain ['/']. *)
Theorem parse_render_descr (type_components : list item_type) :
  type_components <> [] ->
  forallb spellable type_components = true ->
  parse_type_descr (render_descr type_components) = type_components.
Proof.
  intros N H. unfold parse_type_descr, render_descr.
  rewrite forallb_forall in H.
  rewrite split_join.
  - rewrite map_map. rewrite <- (map_id type_components) at 2.
    apply map_ext_in. intros c Hc. apply parse_render_component.
    specialize (H c Hc). unfold spellable in H.
    apply andb_prop in H. destruct H as [H _].
    apply andb_prop in H. destruct H as [_ H]. now apply negb_true_iff.
  - now destruct type_components.
  - apply forallb_forall. intros p Hp. apply in_map_iff in Hp.
    destruct Hp as (c & <- & Hc). specialize (H c Hc). unfold spellable in H.
    apply andb_prop in H. destruct H as [H He].
    apply andb_prop in H. destruct H as [Ht _]. apply negb_true_iff in Ht.
    apply negb_true_iff. destruct c as [typ [enc|]]; cbn [fst snd render_component] in *.
    + rewrite occurs_append. cbn [occurs]. apply negb_true_iff in He.
      rewrite Ht, He. reflexivity.
    + exact Ht.
Qed.

(** X3. In every parsed component the tag has neither [':'] nor ['/'] and
    the hint has no [':']: the tag ends at the first ['/']. *)
Theorem parsed_components_spellable (type_descr : string) :
  forallb spellable (parse_type_descr type_descr) = true.
Proof.
  apply forallb_forall. intros c Hc. unfold parse_type_descr in Hc.
  apply in_map_iff in Hc. destruct Hc as (s & <- & Hs).
  pose proof (occurs_split ":" _ _ Hs) as Hcolon.
  unfold parse_type_component, spellable. pose proof (cut_spec "/" s) as H.
  destruct (cut "/" s) as [[a b]|]; cbn [fst snd].
  - destruct H as [-> Ha]. rewrite occurs_append in Hcolon. cbn [occurs] in Hcolon.
    apply orb_false_elim in Hcolon. destruct Hcolon as [H1 H2].
    cbn [Ascii.eqb Bool.eqb orb] in H2. now rewrite H1, Ha, H2.
  - now rewrite Hcolon, H.
Qed.

Lemma parse_render_descr_witness :
  [("map"%string, None); ("str"%string, Some "a/b"%string); ("L"%string, None)]
    <> []
  /\ forallb spellable
       [("map"%string, None); ("str"%string, Some "a/b"%string);
        ("L"%string, None)] = true
  /\ parse_type_descr
       (render_descr [("map"%string, None); ("str"%string, Some "a/b"%string);
                      ("L"%string, None)])
     = [("map"%string, None); ("str"%string, Some "a/b"%string);
        ("L"%string, None)].
Proof.
  split; [discriminate|]. split; [reflexivity|].
  apply parse_render_descr; [discriminate | reflexivity].
Defined.

(** ** Writers only append, readers only advance *)

Lemma emits_lift {A} (r : result A) : emits (lift r) r [].
Proof. intros f. unfold lift. now rewrite file_write_nil. Qed.

Lemma emits_ret {A} (a : A) : emits (ret a) (Ok a) [].
Proof. apply (emits_lift (Ok a)). Qed.

Lemma emits_raise {A} (e : exn) : emits (raise e : io A) (Raise e) [].
Proof. apply (emits_lift (Raise e)). Qed.

Lemma emits_bind_ok {A B} (m : io A) (k : A -> io B) a bs r bs' :
  emits m (Ok a) bs -> emits (k a) r bs' -> emits (bind m k) r (bs ++ bs').
Proof.
  intros Hm Hk f. unfold bind. rewrite (Hm f), (Hk _). now rewrite file_write_app.
Qed.

Lemma emits_bind_raise {A B} (m : io A) (k : A -> io B) e bs :
  emits m (Raise e) bs -> emits (bind m k) (Raise e) bs.
Proof. intros Hm f. unfold bind. now rewrite (Hm f). Qed.

Lemma emits_bind {A B} (m : io A) (k : A -> io B) :
  (exists r bs, emits m r bs) ->
  (forall a, exists r bs, emits (k a) r bs) ->
  exists r bs, emits (bind m k) r bs.
Proof.
  intros ([a|e] & bs & Hm) Hk.
  - destruct (Hk a) as (r & bs' & Hka). exists r, (bs ++ bs').
    now apply emits_bind_ok with (a := a).
  - exists (Raise e), bs. now apply emits_bind_raise.
Qed.

Lemma emits_out (data : pyval) :
  exists r bs, emits (_out data) r bs
               /\ forall n, r = Ok n -> n = Z.of_nat (List.length bs).
Proof.
  destruct data as [[z|s|b|]|l|l|m]; cbn [_out];
    try (exists (Raise TypeError), []; split; [apply emits_raise | discriminate]).
  exists (Ok (Z.of_nat (List.length b))), b. split; [now intros f|].
  now intros n [= <-].
Qed.

Lemma consumes_lift {A} (r : result A) : consumes (lift r).
Proof. intros f. exists []. cbn. now rewrite app_nil_r. Qed.

Lemma consumes_bind {A B} (m : io A) (k : A -> io B) :
  consumes m -> (forall a, consumes (k a)) -> consumes (bind m k).
Proof.
  intros Hm Hk f. unfold bind. destruct (Hm f) as (bs & H1 & H2).
  destruct (m f) as [[a|e] f1] eqn:E; cbn [snd] in *.
  - destruct (Hk a f1) as (bs' & H3 & H4). exists (bs ++ bs').
    rewrite H1, H3 at 1. rewrite H4, H2. now rewrite !app_assoc.
  - exists bs. now split.
Qed.

Lemma firstn_skipn_app {A} (n : nat) (l : list A) : l = firstn n l ++ skipn n l.
Proof. symmetry. apply firstn_skipn. Qed.

Section Frames.
Context {P : platform}.

Lemma consumes_in (length : Z) : consumes (_in length).
Proof.
  intros f. unfold _in, file_read. destruct (length <? 0); cbn [snd behind ahead].
  - exists (ahead f). now rewrite app_nil_r.
  - exists (firstn (Z.to_nat length) (ahead f)). split; [apply firstn_skipn_app | reflexivity].
Qed.

Lemma consumes_read_number (ty : item_type) : consumes (read_number ty).
Proof.
  destruct ty as [fmt enc]. unfold read_number.
  destruct (negb (str_in fmt NUMERIC_FMT)); [apply (consumes_lift (Raise _))|].
  apply consumes_bind; [apply consumes_lift|]. intros size.
  apply consumes_bind; [apply consumes_in|]. intros data. apply consumes_lift.
Qed.

Lemma consumes_read_scalar (ty : item_type) : consumes (read_scalar ty).
Proof.
  destruct ty as [typ enc]. unfold read_scalar.
  destruct (str_in typ NUMERIC_FMT).
  { apply consumes_bind; [apply consumes_read_number|].
    intros n. apply (consumes_lift (Ok _)). }
  destruct (str_in typ STRING_TYPES).
  { apply consumes_bind; [|intros s; apply (consumes_lift (Ok _))].
    unfold read_string. apply consumes_bind; [apply consumes_read_number|].
    intros n. apply consumes_bind; [apply consumes_in|]. intros b. apply consumes_lift. }
  destruct (str_in typ BYTES_TYPES); [|apply (consumes_lift (Raise _))].
  apply consumes_bind; [|intros s; apply (consumes_lift (Ok _))].
  unfold read_bytes. apply consumes_bind; [apply consumes_read_number|].
  intros n. apply consumes_in.
Qed.

Lemma consumes_read_vector (ty : item_type) : consumes (read_vector ty).
Proof.
  unfold read_vector. apply consumes_bind; [apply consumes_read_number|].
  intros l. generalize (@nil atom). induction (Z.to_nat l) as [|k IH]; intros v;
    cbn [read_vector_loop]; [apply (consumes_lift (Ok _))|].
  apply consumes_bind; [apply consumes_read_scalar | intros x; apply IH].
Qed.

Lemma consumes_read_set (ty : item_type) : consumes (read_set ty).
Proof.
  unfold read_set. apply consumes_bind; [apply consumes_read_number|].
  intros l. generalize (@nil atom). induction (Z.to_nat l) as [|k IH]; intros v;
    cbn [read_set_loop]; [apply (consumes_lift (Ok _))|].
  apply consumes_bind; [apply consumes_read_scalar | intros x; apply IH].
Qed.

Lemma consumes_read_map (kt vt : item_type) : consumes (read_map kt vt).
Proof.
  unfold read_map. apply consumes_bind; [apply consumes_read_number|].
  intros l. generalize (@nil (atom * atom)).
  induction (Z.to_nat l) as [|k IH]; intros m;
    cbn [read_map_loop]; [apply (consumes_lift (Ok _))|].
  apply consumes_bind; [apply consumes_read_scalar | intros x].
  apply consumes_bind; [apply consumes_read_scalar | intros y].
  destruct (atom_in x (map fst m)); [apply (consumes_lift (Raise _)) | apply IH].
Qed.

(** X4. Whatever the descriptor and the file object, and whether it returns
    or raises, [read] only moves the position forward over bytes that were
    ahead: it never changes the contents and never goes back. *)
Theorem read_only_advances (type_descr : string) (f : stream) :
  exists bs,
    ahead f = bs ++ ahead (snd (read type_descr f))
    /\ behind (snd (read type_descr f)) = behind f ++ bs
    /\ getbuffer (snd (read type_descr f)) = getbuffer f.
Proof.
  assert (C : consumes (read type_descr)).
  { unfold read. apply consumes_bind; [apply consumes_lift|]. intros [typ enc].
    cbv zeta.
    destruct (str_in typ SCALAR_TYPES).
    { apply consumes_bind; [apply consumes_lift|]. intros t0.
      apply consumes_bind; [apply consumes_read_scalar|].
      intros a. apply (consumes_lift (Ok _)). }
    destruct (String.eqb typ "vec").
    { apply consumes_bind; [apply consumes_lift|]. intros t1.
      apply consumes_bind; [apply consumes_read_vector|].
      intros a. apply (consumes_lift (Ok _)). }
    destruct (String.eqb typ "set").
    { apply consumes_bind; [apply consumes_lift|]. intros t1.
      apply consumes_bind; [apply consumes_read_set|].
      intros a. apply (consumes_lift (Ok _)). }
    destruct (String.eqb typ "map"); [|apply (consumes_lift (Raise _))].
    apply consumes_bind; [apply consumes_lift|]. intros t1.
    apply consumes_bind; [apply consumes_lift|]. intros t2.
    apply consumes_bind; [apply consumes_read_map|].
    intros a. apply (consumes_lift (Ok _)). }
  destruct (C f) as (bs & H1 & H2). exists bs. split; [exact H1|]. split; [exact H2|].
  unfold getbuffer. rewrite H2, <- app_assoc. now rewrite <- H1.
Qed.

Lemma counts_lift {A} (base : Z) (r : result A) (k : A -> io Z) :
  (forall a, counts_from base (k a)) -> counts_from base (bind (lift r) k).
Proof.
  intros H. destruct r as [a|e].
  - destruct (H a) as (r & bs & E & N). exists r, bs. split; [|exact N].
    intros f. unfold bind, lift. apply E.
  - exists (Raise e), []. split; [|discriminate].
    apply emits_bind_raise, (emits_lift (Raise e)).
Qed.

Lemma counts_bind (base : Z) (m : io Z) (k : Z -> io Z) :
  counts_from 0 m -> (forall n, counts_from (base + n) (k n)) ->
  counts_from base (bind m k).
Proof.
  intros (r & bs & E & N) H. destruct r as [n|e].
  - destruct (H n) as (r' & bs' & E' & N'). exists r', (bs ++ bs'). split.
    + now apply emits_bind_ok with (a := n).
    + intros n' Hn'. rewrite (N' n' Hn'), (N n eq_refl), length_app. lia.
  - exists (Raise e), bs. split; [now apply emits_bind_raise | discriminate].
Qed.

Lemma counts_ret (n : Z) : counts_from n (ret n).
Proof.
  exists (Ok n), []. split; [apply emits_ret|]. intros ? [= <-]. cbn. lia.
Qed.

Lemma counts_raise (base : Z) (e : exn) : counts_from base (raise e).
Proof. exists (Raise e), []. split; [apply emits_raise | discriminate]. Qed.

Lemma counts_out (data : pyval) : counts_from 0 (_out data).
Proof.
  destruct (emits_out data) as (r & bs & E & N). exists r, bs. split; [exact E|].
  intros n Hn. rewrite (N n Hn). lia.
Qed.

Lemma counts_write_number (v : pyval) (ty : item_type) :
  counts_from 0 (write_number v ty).
Proof.
  destruct ty as [fmt enc]. unfold write_number.
  apply counts_lift. intros data. apply counts_out.
Qed.

Lemma counts_prefixed (v payload : pyval) (ty : item_type) :
  counts_from 0 (n <- write_number v ty ;; k <- _out payload ;; ret (n + k)).
Proof.
  apply counts_bind; [apply counts_write_number|]. intros n.
  apply counts_bind; [apply counts_out|]. intros k.
  replace (0 + n + k) with (n + k) by lia. apply counts_ret.
Qed.

Lemma counts_write_scalar (item : pyval) (ty : item_type) :
  counts_from 0 (write_scalar item ty).
Proof.
  destruct ty as [typ enc]. unfold write_scalar.
  destruct (str_in typ NUMERIC_FMT); [apply counts_write_number|].
  destruct (str_in typ STRING_TYPES).
  { unfold write_string. apply counts_lift. intros b.
    apply counts_lift. intros [len nt]. apply counts_prefixed. }
  destruct (str_in typ BYTES_TYPES); [|apply counts_raise].
  unfold write_bytes. apply counts_lift. intros [len nt]. apply counts_prefixed.
Qed.

Lemma counts_write_vector_loop (l : list atom) (ty : item_type) (n : Z) :
  counts_from n (write_vector_loop l ty n).
Proof.
  revert n. induction l as [|a l IH]; intros n; cbn [write_vector_loop];
    [apply counts_ret|].
  apply counts_bind; [apply counts_write_scalar | intros k; apply IH].
Qed.

Lemma counts_write_map_loop (m : list (atom * atom)) (kt vt : item_type) (n : Z) :
  counts_from n (write_map_loop m kt vt n).
Proof.
  revert n. induction m as [|[k v] m IH]; intros n; cbn [write_map_loop];
    [apply counts_ret|].
  apply counts_bind; [apply counts_write_scalar | intros a].
  apply counts_bind; [apply counts_write_scalar | intros b].
  apply IH.
Qed.

Lemma counts_write_vector (item : pyval) (ty : item_type) :
  counts_from 0 (write_vector item ty).
Proof.
  unfold write_vector. apply counts_lift. intros len.
  apply counts_bind; [apply counts_write_number|]. intros n.
  apply counts_lift. intros els. replace (0 + n) with n by lia.
  apply counts_write_vector_loop.
Qed.

Lemma counts_write_set (item : pyval) (ty : item_type) :
  counts_from 0 (write_set item ty).
Proof.
  unfold write_set. apply counts_lift. intros len.
  apply counts_bind; [apply counts_write_number|]. intros n.
  apply counts_lift. intros els. replace (0 + n) with n by lia.
  apply counts_write_vector_loop.
Qed.

Lemma counts_write_map (item : pyval) (kt vt : item_type) :
  counts_from 0 (write_map item kt vt).
Proof.
  unfold write_map. apply counts_lift. intros len.
  apply counts_bind; [apply counts_write_number|]. intros n.
  apply counts_lift. intros els. replace (0 + n) with n by lia.
  apply counts_write_map_loop.
Qed.

Lemma counts_write (item : pyval) (type_descr : string) :
  counts_from 0 (write item type_descr).
Proof.
  unfold write. apply counts_lift. intros [typ enc]. cbv zeta.
  destruct (str_in typ SCALAR_TYPES).
  { apply counts_lift. intros t0. apply counts_write_scalar. }
  destruct (String.eqb typ "vec").
  { apply counts_lift. intros t1. apply counts_write_vector. }
  destruct (String.eqb typ "set").
  { apply counts_lift. intros t1. apply counts_write_set. }
  destruct (String.eqb typ "map"); [|apply counts_raise].
  apply counts_lift. intros t1. apply counts_lift. intros t2.
  apply counts_write_map.
Qed.

(** X5. Whatever the value and the descriptor, [write] does the same on
    every file object: it has one outcome and one sequence of bytes, written
    at the position; when it returns, it returns the number of bytes it
    wrote (the self-test's [n == len(bytes_written)]); when it raises, what
    it wrote before stays written. *)
Theorem write_appends_and_counts (item : pyval) (type_descr : string) :
  exists r bs,
    (forall f, write item type_descr f = (r, file_write bs f))
    /\ forall n, r = Ok n -> n = Z.of_nat (List.length bs).
Proof.
  destruct (counts_write item type_descr) as (r & bs & E & N).
  exists r, bs. split; [exact E|]. intros n Hn. rewrite (N n Hn). lia.
Qed.
End Frames.

(** ** Numbers *)

Section Numbers.
Context {P : platform}.

Lemma in_range_zero (signed : bool) (k : nat) :
  (0 < k)%nat -> in_range signed k 0 = true.
Proof.
  intros Hk. unfold in_range.
  assert (0 < 2 ^ (8 * Z.of_nat k)) by (apply Z.pow_pos_nonneg; lia).
  assert (0 < 2 ^ (8 * Z.of_nat k - 1)) by (apply Z.pow_pos_nonneg; lia).
  destruct signed; apply andb_true_intro;
    (split; [apply Z.leb_le | apply Z.ltb_lt]); lia.
Qed.

Lemma number_size (fmt : string) (signed : bool) (k : nat) :
  format_char fmt = Some (signed, k) ->
  lookup NUMBER_SIZES fmt = Ok (Z.of_nat k).
Proof.
  intros F.
  assert (S : struct_pack fmt (PInt 0) = Ok (native (le_bytes k 0))).
  { unfold struct_pack, PInt.
    now rewrite F, (in_range_zero _ _ (format_char_pos _ _ _ F)). }
  rewrite (struct_pack_length _ _ _ S). now rewrite length_native, length_le_bytes.
Qed.

Lemma struct_unpack_range (fmt : string) (signed : bool) (k : nat)
    (data : list byte) :
  format_char fmt = Some (signed, k) -> List.length data = k ->
  exists n, struct_unpack fmt data = Ok n /\ in_range signed k n = true.
Proof.
  intros F L. unfold struct_unpack. rewrite F, L, Nat.eqb_refl.
  pose proof (le_value_range (native data)) as R.
  rewrite length_native, L in R.
  pose proof (format_char_pos _ _ _ F) as Hk.
  unfold in_range. destruct signed; cbn [andb].
  - rewrite (pow2_split k Hk) in R.
    destruct (Z.leb_spec (2 ^ (8 * Z.of_nat k - 1)) (le_value (native data))).
    + eexists. split; [reflexivity|]. rewrite (pow2_split k Hk).
      apply andb_true_intro. split; [apply Z.leb_le | apply Z.ltb_lt]; lia.
    + eexists. split; [reflexivity|].
      apply andb_true_intro. split; [apply Z.leb_le | apply Z.ltb_lt]; lia.
  - eexists. split; [reflexivity|].
    apply andb_true_intro. split; [apply Z.leb_le | apply Z.ltb_lt]; lia.
Qed.

(** X6. What [read_number] does, case by case.  An unknown format is refused
    before anything is read.  With fewer bytes ahead than the format takes,
    it raises [struct.error] after it has consumed what was left.
    Otherwise it consumes exactly the bytes of the format and returns a
    number in the range of the format.  The sizes table never misses a
    format that passed the check. *)
Theorem read_number_outcomes (fmt : string) (enc : option string) (f : stream) :
  match format_char fmt with
  | None =>
      read_number (fmt, enc) f
      = (Raise (ValueError (format_unsupported_number_expected fmt)), f)
  | Some (signed, k) =>
      if (List.length (ahead f) <? k)%nat then
        read_number (fmt, enc) f
        = (Raise StructError, mkStream (behind f ++ ahead f) [])
      else
        exists n,
          read_number (fmt, enc) f
          = (Ok n, mkStream (behind f ++ firstn k (ahead f)) (skipn k (ahead f)))
          /\ in_range signed k n = true
  end.
Proof.
  unfold read_number.
  destruct (format_char fmt) as [[signed k]|] eqn:F.
  - assert (N : str_in fmt NUMERIC_FMT = true)
      by (apply format_char_numeric; now exists (signed, k)).
    rewrite N. cbn [negb]. unfold bind, lift. rewrite (number_size _ _ _ F).
    unfold _in, file_read.
    destruct (Z.ltb_spec (Z.of_nat k) 0); [lia|]. rewrite Nat2Z.id.
    destruct (Nat.ltb_spec (List.length (ahead f)) k) as [Hlt|Hge].
    + rewrite firstn_all2, skipn_all2 by lia.
      unfold struct_unpack. rewrite F.
      destruct (Nat.eqb_spec (List.length (ahead f)) k); [lia | reflexivity].
    + assert (L : List.length (firstn k (ahead f)) = k)
        by (apply firstn_length_le; lia).
      destruct (struct_unpack_range _ _ _ _ F L) as (n & U & R).
      exists n. now rewrite U.
  - assert (N : str_in fmt NUMERIC_FMT = false).
    { destruct (str_in fmt NUMERIC_FMT) eqn:E; [|reflexivity].
      apply format_char_numeric in E. destruct E as [sk E]. congruence. }
    now rewrite N.
Qed.

(** X7. [write_byte] writes one byte, the number itself, on every platform,
    and [read_byte] reads it back, whatever its argument; a number outside
    0..255, or a value that is no integer, is refused with [struct.error]
    and nothing written. *)
Theorem byte_round_trip (number : pyval) (ignored : pyval) (f : stream) :
  match number with
  | PAtom (AInt n) =>
      if (0 <=? n) && (n <=? 255) then
        write_byte number f = (Ok 1, file_write [byte_of_Z n] f)
        /\ forall g rest, ahead g = byte_of_Z n :: rest ->
             read_byte ignored g = (Ok n, mkStream (behind g ++ [byte_of_Z n]) rest)
      else write_byte number f = (Raise StructError, f)
  | _ => write_byte number f = (Raise StructError, f)
  end.
Proof.
  unfold write_byte, read_byte, SHORT_TYPE, write_number, bind, lift, struct_pack.
  cbn [format_char String.eqb Ascii.eqb Bool.eqb].
  destruct number as [[n|s|b|]|l|l|m]; try reflexivity.
  unfold in_range. change (2 ^ (8 * Z.of_nat 1)) with 256.
  destruct (Z.leb_spec 0 n); cbn [andb]; [|reflexivity].
  destruct (Z.leb_spec n 255); destruct (Z.ltb_spec n 256); try lia; [|reflexivity].
  cbn [le_bytes]. rewrite native_single. split; [reflexivity|].
  intros g rest Hg.
  assert (S : struct_pack "B" (PInt n) = Ok [byte_of_Z n]).
  { unfold struct_pack, PInt. cbn [format_char String.eqb Ascii.eqb Bool.eqb].
    unfold in_range. change (2 ^ (8 * Z.of_nat 1)) with 256.
    destruct (Z.leb_spec 0 n); [|lia]. destruct (Z.ltb_spec n 256); [|lia].
    cbn [andb le_bytes]. now rewrite native_single. }
  destruct (number_wire "B" None _ _ S) as (z & E & _ & R).
  unfold PInt in E. injection E as <-. exact (R g rest Hg).
Qed.
End Numbers.

(** ** Scalars: what is accepted, what a failure leaves behind *)

Section ScalarEdges.
Context {P : platform}.

Lemma frame_fits (payload : list byte) (fmt : string) (len : Z)
    (nt : item_type) (prefix : list byte) :
  _get_len_and_fmt (PBytes payload) fmt = Ok (len, nt) ->
  struct_pack (fst nt) (PInt len) = Ok prefix ->
  payload_fits fmt (List.length payload) = true.
Proof.
  unfold _get_len_and_fmt, _fmt_to_len_type, payload_fits.
  cbn [py_len PBytes rbind].
  destruct (String.eqb fmt "byt" || String.eqb fmt "str").
  - unfold LONG_TYPE. cbn [String.eqb Ascii.eqb Bool.eqb andb].
    intros [= <- <-]. cbn [fst]. intros S.
    destruct (struct_pack_inv _ _ _ S) as (sg & k & n & F & E & R & _).
    cbn in F. injection F as <- <-. unfold PInt in E. injection E as <-.
    unfold in_range in R. apply andb_prop in R. destruct R as [_ R].
    exact R.
  - unfold SHORT_TYPE. cbn [String.eqb Ascii.eqb Bool.eqb andb].
    destruct (Z.ltb_spec 255 (Z.of_nat (List.length payload))); [discriminate|].
    intros _ _. now apply Z.leb_le.
Qed.

(** What [write_scalar] returns for is a representable scalar. *)
Lemma written_representable (item : pyval) (ty : item_type) (f f' : stream)
    (n : Z) :
  write_scalar item ty f = (Ok n, f') ->
  exists a, item = PAtom a /\ representable ty a = true.
Proof.
  intros W. destruct (write_scalar_wire _ _ _ _ _ W) as (a & bs & -> & _).
  exists a. split; [reflexivity|]. revert W.
  destruct ty as [typ enc]. unfold write_scalar, representable.
  destruct (str_in typ NUMERIC_FMT).
  { intros W. destruct (write_number_inv _ _ _ _ _ W) as [data S]. cbn [fst] in S.
    destruct (struct_pack_inv _ _ _ S) as (sg & k & z & F & [= ->] & R & _).
    now rewrite F. }
  destruct (str_in typ STRING_TYPES).
  { unfold write_string. unfold bind at 1, lift.
    destruct (_encode_string (PAtom a) enc) as [payload|e]; [|discriminate].
    unfold bind at 1.
    destruct (_get_len_and_fmt (PBytes payload) typ) as [[len nt]|e] eqn:G;
      [|discriminate].
    unfold bind at 1.
    destruct (write_number (PInt len) nt f) as [[k|e] f1] eqn:Wn; [|discriminate].
    destruct (write_number_inv _ _ _ _ _ Wn) as [prefix S]. intros _.
    now apply (frame_fits payload typ len nt prefix). }
  destruct (str_in typ BYTES_TYPES); [|discriminate].
  unfold write_bytes. unfold bind at 1, lift.
  destruct (_get_len_and_fmt (PAtom a) typ) as [[len nt]|e] eqn:G; [|discriminate].
  unfold bind at 1.
  destruct (write_number (PInt len) nt f) as [[k|e] f1] eqn:Wn; [|discriminate].
  destruct (write_number_inv _ _ _ _ _ Wn) as [prefix S].
  destruct a as [z|s|b|]; try discriminate. intros _.
  now apply (frame_fits b typ len nt prefix).
Qed.

(** X8. [write_scalar] accepts exactly the representable scalars: it
    returns for a value if and only if the value is an integer in the range
    of a numeric tag, a text that its codec encodes and whose encoding fits
    the length prefix of a string tag, or bytes that fit the length prefix
    of a bytes tag. *)
Theorem write_scalar_accepts_iff (item : pyval) (ty : item_type) (f : stream) :
  hint_modelled ty = true ->
  ((exists n f', write_scalar item ty f = (Ok n, f'))
   <-> exists a, item = PAtom a /\ representable ty a = true).
Proof.
  intros _. split.
  - intros (n & f' & W). exact (written_representable _ _ _ _ _ W).
  - intros (a & -> & R). apply representable_written, R.
Qed.

Lemma scalar_families (typ : string) :
  str_in typ SCALAR_TYPES
  = str_in typ NUMERIC_FMT || str_in typ STRING_TYPES || str_in typ BYTES_TYPES.
Proof.
  unfold SCALAR_TYPES, str_in. now rewrite !existsb_app, orb_assoc.
Qed.

(** X9. The encoding hint only matters where text is encoded.  Under a
    numeric or a bytes tag every hint, even the name of no encoding, gives
    the same [write_scalar] and [read_scalar]; under any tag an empty hint
    and the hint ['utf-8'] are the same as no hint. *)
Theorem hint_only_for_text (typ : string) (enc enc' : option string)
    (item : pyval) (f : stream) :
  (str_in typ STRING_TYPES = false ->
   write_scalar item (typ, enc) f = write_scalar item (typ, enc') f
   /\ read_scalar (typ, enc) f = read_scalar (typ, enc') f)
  /\ write_scalar item (typ, Some ""%string) f = write_scalar item (typ, None) f
  /\ write_scalar item (typ, Some "utf-8"%string) f = write_scalar item (typ, None) f
  /\ read_scalar (typ, Some ""%string) f = read_scalar (typ, None) f
  /\ read_scalar (typ, Some "utf-8"%string) f = read_scalar (typ, None) f.
Proof.
  unfold write_scalar, read_scalar.
  destruct (str_in typ NUMERIC_FMT); [repeat split; reflexivity|].
  destruct (str_in typ STRING_TYPES); [|repeat split; reflexivity].
  split; [discriminate|]. repeat split; reflexivity.
Qed.

(** X10. A value of the wrong type under a string tag is refused before
    anything is written; under a bytes tag a value that has a length but is
    no bytes object (a string, a list, a set, a dict) is refused only after
    its length prefix has been written. *)
Theorem wrong_type_leaves_prefix (item : pyval) (typ : string)
    (enc : option string) (n : Z) (f : stream) :
  (str_in typ STRING_TYPES = true ->
   (forall s, item <> PStr s) ->
   write_scalar item (typ, enc) f = (Raise TypeError, f))
  /\ (str_in typ BYTES_TYPES = true ->
      (forall b, item <> PBytes b) ->
      py_len item = Ok n -> payload_fits typ (Z.to_nat n) = true ->
      exists prefix,
        List.length prefix = (if String.eqb typ "byt" then 4 else 1)%nat
        /\ write_scalar item (typ, enc) f
           = (Raise TypeError, file_write prefix f)).
Proof.
  split.
  - intros S N. unfold write_scalar.
    assert (Hn : str_in typ NUMERIC_FMT = false).
    { unfold str_in, STRING_TYPES, NUMERIC_FMT in *. cbn [existsb] in *.
      apply orb_prop in S. destruct S as [S|S];
        [|apply orb_prop in S; destruct S as [S|S]; [|discriminate]];
        apply String.eqb_eq in S; subst; reflexivity. }
    rewrite Hn, S. unfold write_string, bind, lift, _encode_string.
    destruct item as [[z|s|b|]|l|l|m]; try reflexivity.
    now destruct (N s).
  - intros B N L F.
    assert (Hn : str_in typ NUMERIC_FMT = false /\ str_in typ STRING_TYPES = false).
    { unfold str_in, STRING_TYPES, BYTES_TYPES, NUMERIC_FMT in *. cbn [existsb] in *.
      apply orb_prop in B. destruct B as [B|B];
        [|apply orb_prop in B; destruct B as [B|B]; [|discriminate]];
        apply String.eqb_eq in B; subst; split; reflexivity. }
    destruct Hn as [Hn Hs]. unfold write_scalar. rewrite Hn, Hs, B.
    assert (Hl : 0 <= n).
    { destruct item as [[z|s|b|]|l|l|m]; cbn [py_len] in L; try discriminate;
        injection L as <-; lia. }
    destruct (fits_frame (repeat x00 (Z.to_nat n)) typ) as (prefix & G & S).
    { now rewrite repeat_length. }
    rewrite repeat_length, Z2Nat.id in G, S by lia.
    assert (G' : _get_len_and_fmt item typ = Ok (n, _fmt_to_len_type typ)).
    { revert G. unfold _get_len_and_fmt. rewrite L. cbn [py_len PBytes rbind].
      now rewrite repeat_length, Z2Nat.id by lia. }
    exists prefix. split.
    + destruct (struct_pack_inv _ _ _ S) as (sg & k & z & Fc & _ & _ & ->).
      rewrite length_native, length_le_bytes.
      revert Fc. unfold _fmt_to_len_type.
      unfold str_in, BYTES_TYPES in B. cbn [existsb] in B.
      apply orb_prop in B. destruct B as [B|B];
        [|apply orb_prop in B; destruct B as [B|B]; [|discriminate]];
        apply String.eqb_eq in B; subst typ; cbn; now intros [= _ <-].
    + unfold write_bytes. unfold bind at 1, lift. rewrite G'.
      destruct (_fmt_to_len_type typ) as [lt le] eqn:T. cbn [fst] in S.
      destruct (number_wire lt le _ _ S) as (z & _ & W & _).
      unfold bind at 1. rewrite (W f). unfold bind.
      destruct item as [[z'|s|b|]|l|l|m]; cbn [_out]; try reflexivity;
        try discriminate.
      now destruct (N b).
Qed.

End ScalarEdges.

Lemma wrong_type_leaves_prefix_witness :
  let item := PStr [104; 105] in
  str_in "byt" BYTES_TYPES = true
  /\ (forall b, item <> PBytes b)
  /\ py_len item = Ok 2
  /\ payload_fits "byt" (Z.to_nat 2) = true
  /\ exists prefix,
       List.length prefix = 4%nat
       /\ write_scalar (P := x86_64_linux) item ("byt"%string, None) (BytesIO [])
          = (Raise TypeError, file_write prefix (BytesIO [])).
Proof.
  intros item.
  assert (N : forall b, item <> PBytes b) by (intros b; discriminate).
  split; [reflexivity|]. split; [exact N|]. split; [reflexivity|].
  split; [reflexivity|].
  exact (proj2 (wrong_type_leaves_prefix (P := x86_64_linux) item "byt" None 2
                  (BytesIO [])) eq_refl N eq_refl eq_refl).
Defined.


(** ** The dispatcher's edge cases *)

Section DispatchEdges.
Context {P : platform}.

Lemma index_firstn {A} (n i : nat) (l : list A) :
  (i < n)%nat -> index (firstn n l) i = index l i.
Proof.
  revert i l. induction n as [|n IH]; intros i l H; [lia|].
  destruct l as [|a l]; [reflexivity|]. destruct i as [|i]; [reflexivity|].
  cbn [firstn]. unfold index in *. cbn [nth_error]. apply IH. lia.
Qed.

Lemma index_short {A} (i : nat) (l : list A) :
  (List.length l <= i)%nat -> index l i = Raise IndexError.
Proof.
  intros H. unfold index. now rewrite (proj2 (nth_error_None l i) H).
Qed.

Lemma bind_lift_ok {A B} (a : A) (k : A -> io B) (f : stream) :
  bind (lift (Ok a)) k f = k a f.
Proof. reflexivity. Qed.

Lemma bind_lift_raise {A B} (e : exn) (k : A -> io B) (f : stream) :
  bind (lift (Raise e)) k f = (Raise e, f).
Proof. reflexivity. Qed.

(** [read] and [write] as functions of the parsed components. *)
Lemma dispatch_on_components (td1 td2 : string) (typ : string)
    (e : option string) (rest : list item_type) (item : pyval) (f : stream) :
  parse_type_descr td1 = (typ, e) :: rest ->
  (forall i, (i < components_used typ)%nat ->
     index (parse_type_descr td1) i = index (parse_type_descr td2) i) ->
  read td1 f = read td2 f /\ write item td1 f = write item td2 f.
Proof.
  intros H I. unfold read, write. cbv zeta. unfold components_used in I.
  assert (E0 : index (parse_type_descr td1) 0 = Ok (typ, e))
    by (now rewrite H).
  rewrite <- (I 0%nat)
    by (destruct (str_in typ SCALAR_TYPES),
          (String.eqb typ "vec" || String.eqb typ "set"), (String.eqb typ "map"); lia).
  rewrite E0, !bind_lift_ok. cbv beta iota.
  destruct (str_in typ SCALAR_TYPES); [split; reflexivity|].
  destruct (String.eqb typ "vec") eqn:V.
  { cbn [orb] in I. now rewrite <- (I 1%nat) by lia. }
  destruct (String.eqb typ "set") eqn:S.
  { cbn [orb] in I. now rewrite <- (I 1%nat) by lia. }
  cbn [orb] in I.
  destruct (String.eqb typ "map") eqn:M; [|split; reflexivity].
  now rewrite <- (I 1%nat), <- (I 2%nat) by lia.
Qed.

(** X12. Only the components its first tag asks for count in a descriptor:
    one for a scalar tag, two for [vec] and [set], three for [map].  Two
    descriptors that agree on them make [read] and [write] do the same;
    what follows them is never looked at. *)
Theorem descriptor_tail_ignored (td1 td2 : string) (typ : string)
    (e : option string) (rest : list item_type) (item : pyval) (f : stream) :
  parse_type_descr td1 = (typ, e) :: rest ->
  firstn (components_used typ) (parse_type_descr td1)
  = firstn (components_used typ) (parse_type_descr td2) ->
  read td1 f = read td2 f /\ write item td1 f = write item td2 f.
Proof.
  intros H E. apply (dispatch_on_components td1 td2 typ e rest item f H).
  intros i Hi.
  rewrite <- (index_firstn (components_used typ) i (parse_type_descr td1) Hi).
  rewrite E. now apply index_firstn.
Qed.

(** X13. A container tag without the components it asks for ([vec] or [set]
    alone, [map] with fewer than two more) makes [read] and [write] raise
    [IndexError]; the value is not looked at and the file object is as it
    was. *)
Theorem missing_component (td : string) (typ : string) (e : option string)
    (rest : list item_type) (item : pyval) (f : stream) :
  parse_type_descr td = (typ, e) :: rest ->
  (List.length (parse_type_descr td) < components_used typ)%nat ->
  read td f = (Raise IndexError, f) /\ write item td f = (Raise IndexError, f).
Proof.
  intros H L. unfold read, write. cbv zeta.
  assert (E0 : index (parse_type_descr td) 0 = Ok (typ, e))
    by (now rewrite H).
  rewrite E0, !bind_lift_ok. cbv beta iota.
  unfold components_used in L.
  destruct (str_in typ SCALAR_TYPES); [rewrite H in L; cbn [List.length] in L; lia|].
  destruct (String.eqb typ "vec") eqn:V.
  { cbn [orb] in L. rewrite (index_short 1) by lia. split; reflexivity. }
  destruct (String.eqb typ "set") eqn:S.
  { cbn [orb] in L. rewrite (index_short 1) by lia. split; reflexivity. }
  cbn [orb] in L.
  destruct (String.eqb typ "map") eqn:M;
    [|rewrite H in L; cbn [List.length] in L; lia].
  rewrite (index_short 2) by lia.
  destruct (index (parse_type_descr td) 1) as [t1|x] eqn:E1.
  - rewrite !bind_lift_ok, !bind_lift_raise. split; reflexivity.
  - rewrite !bind_lift_raise.
    unfold index in E1. destruct (nth_error (parse_type_descr td) 1); [discriminate|].
    injection E1 as <-. split; reflexivity.
Qed.

(** X14. A first tag that is neither a scalar tag nor [vec], [set] or [map]
    (the empty descriptor, a tag in another case, a hint without a tag) makes
    [read] and [write] raise 'type ... unsupported', with the file object as
    it was. *)
Theorem unsupported_tag (td : string) (typ : string) (e : option string)
    (rest : list item_type) (item : pyval) (f : stream) :
  parse_type_descr td = (typ, e) :: rest ->
  str_in typ (SCALAR_TYPES ++ ["vec"; "set"; "map"]%string) = false ->
  read td f = (Raise (ValueError (type_unsupported typ)), f)
  /\ write item td f = (Raise (ValueError (type_unsupported typ)), f).
Proof.
  intros H U. unfold str_in in U. rewrite existsb_app in U.
  apply orb_false_elim in U. destruct U as [U1 U2]. cbn [existsb] in U2.
  apply orb_false_elim in U2. destruct U2 as [V U2].
  apply orb_false_elim in U2. destruct U2 as [S U2].
  apply orb_false_elim in U2. destruct U2 as [M _].
  unfold read, write. cbv zeta.
  assert (E0 : index (parse_type_descr td) 0 = Ok (typ, e))
    by (now rewrite H).
  rewrite E0, !bind_lift_ok. cbv beta iota.
  fold (str_in typ SCALAR_TYPES) in U1. rewrite U1, V, S, M.
  split; reflexivity.
Qed.
End DispatchEdges.

Lemma descriptor_tail_ignored_witness :
  let P := x86_64_linux in
  let f := BytesIO [x02; x00; x00; x00; x07; x09] in
  read "vec:b:junk/x:::" f = read "vec:b" f
  /\ write (PList [AInt 1]) "vec:b:junk/x:::" f = write (PList [AInt 1]) "vec:b" f.
Proof.
  intros P f.
  exact (descriptor_tail_ignored (P := P) "vec:b:junk/x:::" "vec:b" "vec" None _
           (PList [AInt 1]) f eq_refl eq_refl).
Defined.

Lemma missing_component_witness :
  let P := x86_64_linux in
  let f := BytesIO [x01; x00; x00; x00] in
  read "map:i" f = (Raise IndexError, f)
  /\ write (PDict [(AInt 1, AInt 2)]) "map:i" f = (Raise IndexError, f).
Proof.
  intros P f.
  apply (missing_component (P := P) "map:i" "map" None [("i"%string, None)]);
    [reflexivity | cbn; lia].
Defined.

Lemma unsupported_tag_witness :
  let P := x86_64_linux in
  let f := BytesIO [x01] in
  read "" f = (Raise (ValueError (type_unsupported "")), f)
  /\ write (PInt 1) "" f = (Raise (ValueError (type_unsupported "")), f).
Proof.
  intros P f.
  apply (unsupported_tag (P := P) "" "" None []); reflexivity.
Defined.

(** ** Containers: what a failure leaves behind *)

Section ContainerEdges.
Context {P : platform}.

(** The count of a container of [n] elements: four bytes. *)
Lemma count_frame (n : nat) :
  Z.of_nat n < 2 ^ 32 ->
  exists prefix,
    List.length prefix = 4%nat
    /\ writes (write_number (PInt (Z.of_nat n)) LONG_TYPE) prefix
    /\ reads (read_number LONG_TYPE) prefix (Z.of_nat n).
Proof.
  intros H.
  assert (S : struct_pack "I" (PInt (Z.of_nat n))
              = Ok (native (le_bytes 4 (Z.of_nat n)))).
  { unfold struct_pack, PInt. cbn [format_char String.eqb Ascii.eqb Bool.eqb].
    unfold in_range. change (8 * Z.of_nat 4) with 32.
    destruct (Z.leb_spec 0 (Z.of_nat n)); [|lia].
    destruct (Z.ltb_spec (Z.of_nat n) (2 ^ 32)); [|lia]. reflexivity. }
  exists (native (le_bytes 4 (Z.of_nat n))). split.
  { now rewrite length_native, length_le_bytes. }
  destruct (number_wire "I" None _ _ S) as (z & E & W & R).
  assert (z = Z.of_nat n) by (unfold PInt in E; congruence). subst z.
  now split.
Qed.

Lemma write_scalar_unsupported (item : pyval) (ty : item_type) (f : stream) :
  str_in (fst ty) SCALAR_TYPES = false ->
  write_scalar item ty f
  = (Raise (ValueError (value_type_unsupported_scalar_expected (fst ty))), f).
Proof.
  destruct ty as [typ enc]. cbn [fst]. rewrite scalar_families. intros H.
  apply orb_false_elim in H. destruct H as [H B].
  apply orb_false_elim in H. destruct H as [N S].
  unfold write_scalar. now rewrite N, S, B.
Qed.

Lemma read_scalar_unsupported (ty : item_type) (f : stream) :
  str_in (fst ty) SCALAR_TYPES = false ->
  read_scalar ty f
  = (Raise (ValueError (type_unsupported_scalar_expected (fst ty))), f).
Proof.
  destruct ty as [typ enc]. cbn [fst]. rewrite scalar_families. intros H.
  apply orb_false_elim in H. destruct H as [H B].
  apply orb_false_elim in H. destruct H as [N S].
  unfold read_scalar. now rewrite N, S, B.
Qed.

(** X15. An element tag that is no scalar tag is noticed only at the first
    element.  [write_vector] writes the count first: the empty list is
    written, as the count zero, and for any other list the count is written
    and then 'value_type ... unsupported, scalar expected' is raised.
    [read_vector] on these four bytes returns the empty list for the count
    zero and otherwise raises 'type ... unsupported, scalar expected' with
    the count consumed. *)
Theorem element_tag_checked_late (ty : item_type) (l : list atom) :
  str_in (fst ty) SCALAR_TYPES = false ->
  Z.of_nat (List.length l) < 2 ^ 32 ->
  exists prefix,
    List.length prefix = 4%nat
    /\ (forall f,
          write_vector (PList l) ty f
          = (match l with
             | [] => Ok 4
             | _ :: _ =>
                 Raise (ValueError
                          (value_type_unsupported_scalar_expected (fst ty)))
             end, file_write prefix f))
    /\ (forall g rest, ahead g = prefix ++ rest ->
          read_vector ty g
          = (match l with
             | [] => Ok []
             | _ :: _ =>
                 Raise (ValueError (type_unsupported_scalar_expected (fst ty)))
             end, mkStream (behind g ++ prefix) rest)).
Proof.
  intros U H. destruct (count_frame _ H) as (prefix & L & W & R).
  exists prefix. split; [exact L|]. split.
  - intros f. unfold write_vector. cbn [py_len py_iter].
    rewrite bind_lift_ok. unfold bind at 1. rewrite (W f), bind_lift_ok.
    destruct l as [|a l]; cbn [write_vector_loop].
    + unfold ret. now rewrite L.
    + unfold bind. now rewrite write_scalar_unsupported.
  - intros g rest Hg. unfold read_vector, bind at 1.
    rewrite (R g rest Hg), Nat2Z.id.
    destruct l as [|a l]; cbn [List.length read_vector_loop]; [reflexivity|].
    unfold bind. now rewrite read_scalar_unsupported.
Qed.

Lemma write_vector_loop_app (ty : item_type) (good : list atom)
    (bss : list (list byte)) :
  Forall2 (scalar_wire ty) good bss ->
  forall (more : list atom) (n : Z) (f : stream),
    write_vector_loop (good ++ more) ty n f
    = write_vector_loop more ty (n + Z.of_nat (List.length (List.concat bss)))
        (file_write (List.concat bss) f).
Proof.
  induction 1 as [|a bs good bss [Wa _] F IH]; intros more n f.
  - cbn. now rewrite Z.add_0_r, file_write_nil.
  - cbn [app write_vector_loop List.concat]. unfold bind. rewrite (Wa f), IH.
    rewrite file_write_app, length_app, Nat2Z.inj_add.
    now rewrite Z.add_assoc.
Qed.

(** A scalar that is not representable makes [write_scalar] raise, the same
    way on every file object. *)
Lemma unrepresentable_raises (ty : item_type) (a : atom) :
  representable ty a = false ->
  exists e bs, emits (write_scalar (PAtom a) ty) (Raise e) bs.
Proof.
  intros N. destruct (counts_write_scalar (PAtom a) ty) as (r & bs & E & _).
  destruct r as [n|e]; [|now exists e, bs].
  destruct (written_representable _ _ _ _ _ (E (BytesIO [])))
    as (a' & [= <-] & R).
  congruence.
Qed.

(** X16. [write_vector] stops at the first element it cannot write and
    leaves what it wrote: the count of all the elements, the encodings of
    the elements before that one, and what [write_scalar] wrote of that one.
    The elements after it are not attempted. *)
Theorem write_vector_stops_at_first_failure (ty : item_type)
    (good : list atom) (bad : atom) (rest : list atom) :
  hint_modelled ty = true ->
  Forall (fun a => representable ty a = true) good ->
  representable ty bad = false ->
  Z.of_nat (List.length (good ++ bad :: rest)) < 2 ^ 32 ->
  exists prefix bss e bs',
    List.length prefix = 4%nat
    /\ Forall2 (scalar_wire ty) good bss
    /\ emits (write_scalar (PAtom bad) ty) (Raise e) bs'
    /\ emits (write_vector (PList (good ++ bad :: rest)) ty) (Raise e)
         (prefix ++ List.concat bss ++ bs').
Proof.
  intros _ G B H. destruct (count_frame _ H) as (prefix & L & W & _).
  destruct (representable_wires ty good G) as (bss & F).
  destruct (unrepresentable_raises ty bad B) as (e & bs' & E).
  exists prefix, bss, e, bs'. repeat split; try assumption.
  intros f. unfold write_vector. cbn [py_len py_iter].
  rewrite bind_lift_ok. unfold bind at 1. rewrite (W f), bind_lift_ok.
  rewrite (write_vector_loop_app ty good bss F). cbn [write_vector_loop].
  unfold bind. rewrite (E _). now rewrite !file_write_app.
Qed.

End ContainerEdges.

Lemma element_tag_checked_late_witness :
  let P := x86_64_linux in
  exists prefix,
    List.length prefix = 4%nat
    /\ (forall f,
          write_vector (PList [AInt 1; AInt 2]) ("vec"%string, None) f
          = (Raise (ValueError (value_type_unsupported_scalar_expected "vec")),
             file_write prefix f))
    /\ (forall g rest, ahead g = prefix ++ rest ->
          read_vector ("vec"%string, None) g
          = (Raise (ValueError (type_unsupported_scalar_expected "vec")),
             mkStream (behind g ++ prefix) rest)).
Proof.
  intros P.
  apply (element_tag_checked_late (P := P) ("vec"%string, None) [AInt 1; AInt 2]);
    [reflexivity | cbn; lia].
Defined.

Lemma write_vector_stops_at_first_failure_witness :
  let P := x86_64_linux in
  exists prefix bss e bs',
    List.length prefix = 4%nat
    /\ Forall2 (scalar_wire ("b"%string, None)) [AInt 1; AInt 2] bss
    /\ emits (write_scalar (PInt 200) ("b"%string, None)) (Raise e) bs'
    /\ emits (write_vector (PList ([AInt 1; AInt 2] ++ AInt 200 :: [AInt 3]))
                ("b"%string, None)) (Raise e)
         (prefix ++ List.concat bss ++ bs').
Proof.
  intros P.
  apply (write_vector_stops_at_first_failure (P := P) ("b"%string, None)
           [AInt 1; AInt 2] (AInt 200) [AInt 3]);
    [reflexivity | repeat constructor | reflexivity | cbn; lia].
Defined.


(** ** What a read returns *)

Lemma bind_ok_inv {A B} (m : io A) (k : A -> io B) (f f' : stream) (b : B) :
  bind m k f = (Ok b, f') ->
  exists a f1, m f = (Ok a, f1) /\ k a f1 = (Ok b, f').
Proof.
  unfold bind. destruct (m f) as [[a|e] f1]; [eauto | discriminate].
Qed.

Lemma bind_raised {A B} (m : io A) (k : A -> io B) (f f' : stream) (e : exn) :
  m f = (Raise e, f') -> bind m k f = (Raise e, f').
Proof. intros H. unfold bind. now rewrite H. Qed.

Lemma set_add_NoDup (x : atom) (s : list atom) :
  NoDup s -> NoDup (set_add x s) /\ (List.length (set_add x s) <= S (List.length s))%nat.
Proof.
  intros D. unfold set_add. destruct (atom_in x s) eqn:E.
  - split; [exact D | lia].
  - apply atom_in_false in E. split.
    + apply (Permutation_NoDup (Permutation_cons_append s x)).
      now constructor.
    + rewrite length_app. cbn. lia.
Qed.

Section ReadResults.
Context {P : platform}.

Lemma read_vector_loop_length (ty : item_type) (n : nat) :
  forall (v : list atom) (f : stream) (r : list atom) (f' : stream),
    read_vector_loop ty n v f = (Ok r, f') ->
    List.length r = (List.length v + n)%nat.
Proof.
  induction n as [|n IH]; intros v f r f' H; cbn [read_vector_loop] in H.
  - unfold ret in H. assert (v = r) by congruence. subst. lia.
  - apply bind_ok_inv in H. destruct H as (x & f1 & _ & H).
    apply IH in H. rewrite length_app in H. cbn [List.length] in H. lia.
Qed.

Lemma read_set_loop_inv (ty : item_type) (n : nat) :
  forall (s : list atom) (f : stream) (r : list atom) (f' : stream),
    read_set_loop ty n s f = (Ok r, f') -> NoDup s ->
    NoDup r /\ (List.length r <= List.length s + n)%nat.
Proof.
  induction n as [|n IH]; intros s f r f' H D; cbn [read_set_loop] in H.
  - unfold ret in H. assert (s = r) by congruence. subst. split; [exact D | lia].
  - apply bind_ok_inv in H. destruct H as (x & f1 & _ & H).
    destruct (set_add_NoDup x s D) as [D' L'].
    destruct (IH _ _ _ _ H D') as [Dr Lr]. split; [exact Dr | lia].
Qed.

Lemma read_map_loop_inv (kt vt : item_type) (n : nat) :
  forall (m : list (atom * atom)) (f : stream) (r : list (atom * atom))
         (f' : stream),
    read_map_loop kt vt n m f = (Ok r, f') -> NoDup (map fst m) ->
    NoDup (map fst r) /\ List.length r = (List.length m + n)%nat.
Proof.
  induction n as [|n IH]; intros m f r f' H D; cbn [read_map_loop] in H.
  - unfold ret in H. assert (m = r) by congruence. subst. split; [exact D | lia].
  - apply bind_ok_inv in H. destruct H as (key & f1 & _ & H).
    apply bind_ok_inv in H. destruct H as (value & f2 & _ & H).
    destruct (atom_in key (map fst m)) eqn:E; [discriminate|].
    apply atom_in_false in E.
    assert (D' : NoDup (map fst (m ++ [(key, value)]))).
    { rewrite map_app. cbn [map fst].
      apply (Permutation_NoDup (Permutation_cons_append (map fst m) key)).
      now constructor. }
    destruct (IH _ _ _ _ H D') as [Dr Lr]. split; [exact Dr|].
    rewrite length_app in Lr. cbn [List.length] in Lr. lia.
Qed.

Lemma read_count_nonneg (f f1 : stream) (c : Z) :
  read_number LONG_TYPE f = (Ok c, f1) -> 0 <= c.
Proof.
  unfold read_number, LONG_TYPE.
  replace (str_in "I" NUMERIC_FMT) with true by reflexivity. cbn [negb].
  intros H. apply bind_ok_inv in H. destruct H as (size & f0 & _ & H).
  apply bind_ok_inv in H. destruct H as (data & f2 & _ & H).
  unfold lift in H. assert (U : struct_unpack "I" data = Ok c) by congruence.
  unfold struct_unpack in U.
  replace (format_char "I") with (Some (false, 4%nat)) in U by reflexivity.
  destruct (Nat.eqb (List.length data) 4); [|discriminate].
  cbn [andb] in U. assert (c = le_value (native data)) by congruence. subst c.
  apply le_value_range.
Qed.

(** X18. A container read holds what its count announces.  [read_vector]
    returns as many elements as the count, [read_map] as many entries, with
    no key twice; [read_set] returns at most as many members, each once.
    This holds on every file object on which they return. *)
Theorem read_container_sizes (ty kt vt : item_type) (f f1 : stream) (c : Z) :
  read_number LONG_TYPE f = (Ok c, f1) ->
  (forall l f', read_vector ty f = (Ok l, f') -> Z.of_nat (List.length l) = c)
  /\ (forall s f', read_set ty f = (Ok s, f') ->
        NoDup s /\ Z.of_nat (List.length s) <= c)
  /\ (forall m f', read_map kt vt f = (Ok m, f') ->
        NoDup (map fst m) /\ Z.of_nat (List.length m) = c).
Proof.
  intros Hc. pose proof (read_count_nonneg _ _ _ Hc) as Hn.
  split; [|split].
  - intros l f' H. unfold read_vector, bind in H. rewrite Hc in H.
    apply read_vector_loop_length in H. cbn [List.length] in H. lia.
  - intros s f' H. unfold read_set, bind in H. rewrite Hc in H.
    destruct (read_set_loop_inv _ _ _ _ _ _ H (NoDup_nil _)) as [D L].
    cbn [List.length] in L. split; [exact D | lia].
  - intros m f' H. unfold read_map, bind in H. rewrite Hc in H.
    destruct (read_map_loop_inv _ _ _ _ _ _ _ H (NoDup_nil _)) as [D L].
    cbn [List.length] in L. split; [exact D | lia].
Qed.

Lemma read_number_eof (fmt : string) (enc : option string) (f : stream) :
  str_in fmt NUMERIC_FMT = true -> ahead f = [] ->
  read_number (fmt, enc) f = (Raise StructError, f).
Proof.
  intros N E. unfold read_number. rewrite N. cbn [negb].
  apply format_char_numeric in N. destruct N as [[signed k] F].
  pose proof (format_char_pos _ _ _ F) as Hk.
  unfold bind, lift. rewrite (number_size _ _ _ F). unfold _in, file_read.
  destruct (Z.ltb_spec (Z.of_nat k) 0); [lia|]. rewrite E.
  rewrite firstn_nil, skipn_nil. unfold struct_unpack. rewrite F.
  destruct (Nat.eqb_spec (@List.length byte []) k) as [K|K];
    [cbn in K; lia|].
  destruct f as [b a]. cbn [ahead behind] in *. subst a.
  now rewrite app_nil_r.
Qed.

Lemma len_type_numeric (fmt : string) :
  str_in (fst (_fmt_to_len_type fmt)) NUMERIC_FMT = true.
Proof.
  unfold _fmt_to_len_type.
  now destruct (String.eqb fmt "byt" || String.eqb fmt "str").
Qed.

Lemma read_scalar_eof (ty : item_type) (f : stream) :
  str_in (fst ty) SCALAR_TYPES = true -> ahead f = [] ->
  read_scalar ty f = (Raise StructError, f).
Proof.
  destruct ty as [typ enc]. cbn [fst]. rewrite scalar_families. intros S E.
  unfold read_scalar.
  destruct (str_in typ NUMERIC_FMT) eqn:N.
  { apply bind_raised. now apply read_number_eof. }
  pose proof (len_type_numeric typ) as L.
  destruct (str_in typ STRING_TYPES) eqn:T.
  - apply bind_raised. unfold read_string.
    destruct (_fmt_to_len_type typ) as [lt le]. cbn [fst] in L.
    apply bind_raised. now apply read_number_eof.
  - destruct (str_in typ BYTES_TYPES) eqn:B; [|discriminate].
    apply bind_raised. unfold read_bytes.
    destruct (_fmt_to_len_type typ) as [lt le]. cbn [fst] in L.
    apply bind_raised. now apply read_number_eof.
Qed.

(** X19. At the end of the file object [read] raises [struct.error], under
    every descriptor with a supported tag and the components the tag asks
    for: the end of the data is never read as an empty value, and the file
    object stays as it was. *)
Theorem read_at_end_of_file (td : string) (typ : string) (e : option string)
    (rest : list item_type) (f : stream) :
  parse_type_descr td = (typ, e) :: rest ->
  str_in typ (SCALAR_TYPES ++ ["vec"; "set"; "map"]%string) = true ->
  (components_used typ <= List.length (parse_type_descr td))%nat ->
  ahead f = [] ->
  read td f = (Raise StructError, f).
Proof.
  intros H S L E.
  assert (C : read_number LONG_TYPE f = (Raise StructError, f))
    by (apply read_number_eof; [reflexivity | exact E]).
  unfold read. cbv zeta. rewrite H in *. cbn [List.length] in L.
  unfold index. cbn [nth_error]. rewrite bind_lift_ok. cbv beta iota.
  unfold components_used in L. unfold str_in in S. rewrite existsb_app in S.
  fold (str_in typ SCALAR_TYPES) in S.
  destruct (str_in typ SCALAR_TYPES) eqn:Sc.
  { rewrite bind_lift_ok. apply bind_raised.
    now apply (read_scalar_eof (typ, e) f). }
  cbn [orb existsb] in S.
  destruct rest as [|t1 rest].
  { destruct (String.eqb typ "vec"), (String.eqb typ "set"),
      (String.eqb typ "map"); cbn in L, S; try lia; discriminate. }
  destruct (String.eqb typ "vec").
  { rewrite bind_lift_ok. apply bind_raised. unfold read_vector.
    now apply bind_raised. }
  destruct (String.eqb typ "set").
  { rewrite bind_lift_ok. apply bind_raised. unfold read_set.
    now apply bind_raised. }
  cbn [orb] in L, S.
  destruct (String.eqb typ "map"); [|discriminate].
  destruct rest as [|t2 rest]; [cbn in L; lia|].
  rewrite !bind_lift_ok. apply bind_raised. unfold read_map.
  now apply bind_raised.
Qed.
End ReadResults.

Lemma read_container_sizes_witness :
  let P := x86_64_linux in
  let f := BytesIO [x02; x00; x00; x00; x07; x07] in
  (forall l f', read_vector ("b"%string, None) f = (Ok l, f') ->
     Z.of_nat (List.length l) = 2)
  /\ (forall s f', read_set ("b"%string, None) f = (Ok s, f') ->
        NoDup s /\ Z.of_nat (List.length s) <= 2)
  /\ (forall m f', read_map ("b"%string, None) ("b"%string, None) f = (Ok m, f') ->
        NoDup (map fst m) /\ Z.of_nat (List.length m) = 2).
Proof.
  intros P f.
  apply (read_container_sizes (P := P) ("b"%string, None) ("b"%string, None)
           ("b"%string, None) f (mkStream [x02; x00; x00; x00] [x07; x07]) 2).
  reflexivity.
Defined.

Lemma read_at_end_of_file_witness :
  let P := x86_64_linux in
  let f := mkStream [x01; x02] [] in
  read "map:sstr/latin-1:L" f = (Raise StructError, f).
Proof.
  intros P f.
  apply (read_at_end_of_file (P := P) "map:sstr/latin-1:L" "map" None
           [("sstr"%string, Some "latin-1"%string); ("L"%string, None)]);
    [reflexivity | reflexivity | cbn; lia | reflexivity].
Defined.

(** ** The layout of what is written *)

Section StrictOrder.
Context {A : Type} (ltb : A -> A -> bool) `{!StrictTotal ltb}.

Lemma sorted_strictly (l : list A) :
  NoDup l -> Sorted (fun a b => ltb b a = false) l ->
  StronglySorted (fun a b => ltb a b = true) l.
Proof.
  intros D S. apply Sorted_StronglySorted in S.
  2: { intros a b c Hab Hbc.
       destruct (ltb c a) eqn:E; [|reflexivity].
       pose proof (ltb_neg_trans ltb b a c Hbc E). congruence. }
  induction S as [|a l S IH F]; [constructor|].
  inversion D as [|? ? Na D']. subst. constructor; [now apply IH|].
  rewrite Forall_forall in *. intros b Hb.
  destruct (ltb a b) eqn:E; [reflexivity|].
  pose proof (ltb_total a b E (F b Hb)). subst b. contradiction.
Qed.
End StrictOrder.

Lemma StronglySorted_within {A} (R R' : A -> A -> Prop) (l : list A) :
  StronglySorted R l ->
  (forall a b, In a l -> In b l -> R a b -> R' a b) ->
  StronglySorted R' l.
Proof.
  induction 1 as [|a l S IH F]; intros H; [constructor|].
  constructor.
  - apply IH. intros x y Hx Hy. apply H; now right.
  - rewrite Forall_forall in *. intros b Hb.
    apply H; [now left | now right | now apply F].
Qed.

Section Layout.
Context {P : platform}.

(** X20. What [write_set] writes is a vector in ascending order: read back
    under the [vec] of the member type, the bytes of a written set give its
    members, each smaller by [<] than all that follow, whatever order the
    set iterates in. *)
Theorem set_written_ascending (l : list atom) (ty : item_type) (n : Z)
    (s : stream) :
  NoDup l ->
  write_set (PSet l) ty (BytesIO []) = (Ok n, s) ->
  exists members,
    read_vector ty (BytesIO (getbuffer s))
    = (Ok members, mkStream (getbuffer s) [])
    /\ Permutation members l
    /\ StronglySorted (fun a b => py_lt a b = Ok true) members.
Proof.
  intros D W.
  destruct (write_set_wire _ _ _ _ _ W) as (prefix & bss & Hs & F & Rd & Wr).
  destruct (writes_inv _ _ _ _ _ Wr W) as [-> ->].
  pose proof (psort_permutation atom_ltb l) as Pm.
  exists (psort atom_ltb l). split; [|split].
  - rewrite getbuffer_written.
    rewrite <- (Permutation_length Pm) in Rd.
    pose proof (read_vector_reads _ _ _ _ F Rd) as R.
    rewrite (R (BytesIO (prefix ++ List.concat bss)) []);
      [reflexivity | cbn [ahead BytesIO]; now rewrite app_nil_r].
  - exact Pm.
  - assert (U : uniform same_kind l = true).
    { rewrite sorted_atoms_spec in Hs.
      destruct (uniform same_kind l); [reflexivity | discriminate]. }
    assert (D' : NoDup (psort atom_ltb l))
      by (apply (Permutation_NoDup (Permutation_sym Pm) D)).
    apply (StronglySorted_within (fun a b => atom_ltb a b = true)).
    { exact (sorted_strictly atom_ltb _ D' (psort_sorted atom_ltb l)). }
    intros a b Ha Hb Lt. rewrite py_lt_agree.
    destruct (uniform_in same_kind same_kind_sym l U a b) as [->|K].
    + now apply (Permutation_in _ Pm).
    + now apply (Permutation_in _ Pm).
    + rewrite (ltb_irrefl b) in Lt. discriminate.
    + now rewrite K, Lt.
Qed.

Lemma write_number_size (fmt : string) (enc : option string) (v : pyval)
    (signed : bool) (k : nat) (f f' : stream) (n : Z) :
  format_char fmt = Some (signed, k) ->
  write_number v (fmt, enc) f = (Ok n, f') -> n = Z.of_nat k.
Proof.
  intros F W. destruct (write_number_inv _ _ _ _ _ W) as [bs S]. cbn [fst] in S.
  destruct (number_wire fmt enc _ _ S) as (z & _ & Wr & _).
  destruct (writes_inv _ _ _ _ _ Wr W) as [-> _].
  destruct (struct_pack_inv _ _ _ S) as (sg & k' & z' & F' & _ & _ & ->).
  rewrite length_native, length_le_bytes. congruence.
Qed.

Lemma numeric_loop_size (typ : string) (enc : option string) (signed : bool)
    (k : nat) (l : list atom) :
  format_char typ = Some (signed, k) ->
  forall (n0 : Z) (f : stream) (n : Z) (f' : stream),
    write_vector_loop l (typ, enc) n0 f = (Ok n, f') ->
    n = n0 + Z.of_nat k * Z.of_nat (List.length l).
Proof.
  intros F.
  assert (N : str_in typ NUMERIC_FMT = true)
    by (apply format_char_numeric; now exists (signed, k)).
  induction l as [|a l IH]; intros n0 f n f' H; cbn [write_vector_loop] in H.
  - unfold ret in H. assert (n0 = n) by congruence. subst. cbn [List.length]. lia.
  - apply bind_ok_inv in H. destruct H as (w & f1 & Wa & H).
    unfold write_scalar in Wa. rewrite N in Wa.
    apply (write_number_size _ _ _ _ _ _ _ _ F) in Wa. subst w.
    apply IH in H. cbn [List.length]. lia.
Qed.

(** X21. Under a numeric element tag a vector takes four bytes and the
    width of the format for each element: [write_vector] of [n] integers
    under ['i'] returns [4 + 4 * n], under ['b'] it returns [4 + n]. *)
Theorem numeric_vector_size (typ : string) (enc : option string)
    (signed : bool) (k : nat) (l : list atom) (f f' : stream) (n : Z) :
  format_char typ = Some (signed, k) ->
  write_vector (PList l) (typ, enc) f = (Ok n, f') ->
  n = 4 + Z.of_nat k * Z.of_nat (List.length l).
Proof.
  intros F W. unfold write_vector in W. cbn [py_len py_iter] in W.
  rewrite bind_lift_ok in W. apply bind_ok_inv in W.
  destruct W as (n0 & f1 & Wn & W). rewrite bind_lift_ok in W.
  apply (write_number_size "I" None _ false 4 _ _ _ eq_refl) in Wn. subst n0.
  now apply (numeric_loop_size _ _ _ _ _ F) in W.
Qed.

(** X22. A string is written as the bytes frame of its encoding: what
    [write_scalar] does for a text under ['str'] it does for the encoded
    bytes under ['byt'], and the same for ['sstr'] and ['sbyt'], so that the
    bytes tags read the encoded text back. *)
Theorem string_written_as_bytes (s : pystr) (enc enc' : option string)
    (payload : list byte) (f : stream) :
  _encode_string (PStr s) enc = Ok payload ->
  write_scalar (PStr s) ("str"%string, enc) f
  = write_scalar (PBytes payload) ("byt"%string, enc') f
  /\ write_scalar (PStr s) ("sstr"%string, enc) f
     = write_scalar (PBytes payload) ("sbyt"%string, enc') f.
Proof.
  intros E. unfold write_scalar.
  replace (str_in "str" NUMERIC_FMT) with false by reflexivity.
  replace (str_in "sstr" NUMERIC_FMT) with false by reflexivity.
  replace (str_in "byt" NUMERIC_FMT) with false by reflexivity.
  replace (str_in "sbyt" NUMERIC_FMT) with false by reflexivity.
  replace (str_in "str" STRING_TYPES) with true by reflexivity.
  replace (str_in "sstr" STRING_TYPES) with true by reflexivity.
  replace (str_in "byt" STRING_TYPES) with false by reflexivity.
  replace (str_in "sbyt" STRING_TYPES) with false by reflexivity.
  replace (str_in "byt" BYTES_TYPES) with true by reflexivity.
  replace (str_in "sbyt" BYTES_TYPES) with true by reflexivity.
  unfold write_string, write_bytes. rewrite E, !bind_lift_ok.
  split; reflexivity.
Qed.

Lemma count_in_range (c : Z) (f f' : stream) (n : Z) :
  write_number (PInt c) LONG_TYPE f = (Ok n, f') -> c < 2 ^ 32.
Proof.
  intros W. destruct (write_number_inv _ _ _ _ _ W) as [bs S].
  unfold LONG_TYPE in S. cbn [fst] in S.
  destruct (struct_pack_inv _ _ _ S) as (sg & k & z & F & E & R & _).
  replace (format_char "I") with (Some (false, 4%nat)) in F by reflexivity.
  assert (sg = false /\ k = 4%nat) as [-> ->] by (split; congruence).
  assert (c = z) by (unfold PInt in E; congruence). subst z.
  unfold in_range in R. apply andb_prop in R. destruct R as [_ R].
  apply Z.ltb_lt in R. exact R.
Qed.

Lemma write_vector_loop_representable (ty : item_type) (l : list atom) :
  forall (n0 : Z) (f : stream) (n : Z) (f' : stream),
    write_vector_loop l ty n0 f = (Ok n, f') ->
    Forall (fun a => representable ty a = true) l.
Proof.
  induction l as [|a l IH]; intros n0 f n f' H; [constructor|].
  cbn [write_vector_loop] in H. apply bind_ok_inv in H.
  destruct H as (w & f1 & Wa & H).
  destruct (written_representable _ _ _ _ _ Wa) as (a' & E & R).
  assert (a = a') by congruence. subst a'.
  constructor; [exact R | exact (IH _ _ _ _ H)].
Qed.

Lemma write_map_loop_representable (kt vt : item_type)
    (m : list (atom * atom)) :
  forall (n0 : Z) (f : stream) (n : Z) (f' : stream),
    write_map_loop m kt vt n0 f = (Ok n, f') ->
    Forall (fun kv => representable kt (fst kv) = true) m
    /\ Forall (fun kv => representable vt (snd kv) = true) m.
Proof.
  induction m as [|[key value] m IH]; intros n0 f n f' H;
    [split; constructor|].
  cbn [write_map_loop] in H. apply bind_ok_inv in H.
  destruct H as (w & f1 & Wk & H). apply bind_ok_inv in H.
  destruct H as (w' & f2 & Wv & H).
  destruct (written_representable _ _ _ _ _ Wk) as (a & E & R).
  assert (key = a) by congruence. subst a.
  destruct (written_representable _ _ _ _ _ Wv) as (a & E' & R').
  assert (value = a) by congruence. subst a.
  destruct (IH _ _ _ _ H) as [Fk Fv].
  split; constructor; assumption.
Qed.

(** X23. What the container writers accept: [write_vector] returns for a
    list, and [write_set] for a set, exactly when every element is
    representable under the element type and there are fewer than 2^32 of
    them; [write_map] returns for a dict exactly when every key is
    representable under the key type, every value under the value type, and
    there are fewer than 2^32 entries. *)
Theorem containers_accepted_iff (l : list atom) (m : list (atom * atom))
    (ty kt vt : item_type) (f : stream) :
  hint_modelled ty = true -> hint_modelled kt = true ->
  hint_modelled vt = true ->
  NoDup (map fst m) ->
  ((exists n f', write_vector (PList l) ty f = (Ok n, f'))
   <-> Forall (fun a => representable ty a = true) l
       /\ Z.of_nat (List.length l) < 2 ^ 32)
  /\ ((exists n f', write_set (PSet l) ty f = (Ok n, f'))
      <-> Forall (fun a => representable ty a = true) l
          /\ Z.of_nat (List.length l) < 2 ^ 32)
  /\ ((exists n f', write_map (PDict m) kt vt f = (Ok n, f'))
      <-> Forall (fun kv => representable kt (fst kv) = true) m
          /\ Forall (fun kv => representable vt (snd kv) = true) m
          /\ Z.of_nat (List.length m) < 2 ^ 32).
Proof.
  intros _ _ _ D. split; [|split]; split.
  - intros (n & f' & W). unfold write_vector in W. cbn [py_len py_iter] in W.
    rewrite bind_lift_ok in W. apply bind_ok_inv in W.
    destruct W as (n0 & f1 & Wn & W). rewrite bind_lift_ok in W.
    split; [exact (write_vector_loop_representable _ _ _ _ _ _ W)|].
    exact (count_in_range _ _ _ _ Wn).
  - intros [F L]. now apply write_vector_accepts.
  - intros (n & f' & W). unfold write_set in W. cbn [py_len py_iter rbind] in W.
    rewrite bind_lift_ok in W. apply bind_ok_inv in W.
    destruct W as (n0 & f1 & Wn & W). apply bind_ok_inv in W.
    destruct W as (members & f2 & S & W).
    split; [|exact (count_in_range _ _ _ _ Wn)].
    unfold lift in S. rewrite sorted_atoms_spec in S.
    destruct (uniform same_kind l); [|discriminate].
    assert (members = psort atom_ltb l) by congruence. subst members.
    pose proof (write_vector_loop_representable _ _ _ _ _ _ W) as F.
    rewrite Forall_forall in *. intros a Ha. apply F.
    apply (Permutation_in _ (Permutation_sym (psort_permutation atom_ltb l)) Ha).
  - intros [F L]. now apply write_set_accepts.
  - intros (n & f' & W). unfold write_map in W. cbn [py_len py_items rbind] in W.
    rewrite bind_lift_ok in W. apply bind_ok_inv in W.
    destruct W as (n0 & f1 & Wn & W). apply bind_ok_inv in W.
    destruct W as (items & f2 & S & W).
    unfold lift in S. rewrite (sorted_items_spec m D) in S.
    destruct (uniform (fun p q => same_kind (fst p) (fst q)) m); [|discriminate].
    assert (items = psort item_ltb m) by congruence. subst items.
    destruct (write_map_loop_representable _ _ _ _ _ _ _ W) as [Fk Fv].
    pose proof (Permutation_sym (psort_permutation item_ltb m)) as Pm.
    split; [|split; [|exact (count_in_range _ _ _ _ Wn)]];
      rewrite Forall_forall in *; intros kv Hkv;
      [apply Fk | apply Fv]; apply (Permutation_in _ Pm Hkv).
  - intros (Fk & Fv & L). now apply write_map_accepts.
Qed.
End Layout.

(** ** Values written one after another *)

Section Sequences.
Context {P : platform}.

Lemma atom_eqb_refl (a : atom) : atom_eqb a a = true.
Proof. now apply atom_eqb_spec. Qed.

(** A value of the kind of its descriptor, once written, has an encoding
    that [read] takes back to an equal value. *)
Lemma thing_wire (x : pyval) (td : string) (f f' : stream) (n : Z) :
  value_under (x, td) = true ->
  write x td f = (Ok n, f') ->
  exists bs y,
    writes (write x td) bs /\ reads (read td) bs y /\ py_eq x y = true.
Proof.
  unfold value_under. cbn [fst snd]. intros T.
  apply orb_prop in T. destruct T as [T|T].
  - destruct x as [a|l|l|m]; cbn [scalar_under] in T; try discriminate.
    destruct (parse_type_descr td) as [|[typ e] more] eqn:H; [discriminate|].
    rewrite (write_scalar_descr td (typ, e) more _ f H T). intros W.
    destruct (written_representable _ _ _ _ _ W) as (a' & E & R).
    assert (a = a') by congruence. subst a'.
    destruct (scalar_round_trip_descr td (typ, e) more a H R) as (bs & Wr & Rd).
    exists bs, (PAtom a). repeat split; try assumption.
    apply atom_eqb_refl.
  - revert T.
    destruct (parse_type_descr td) as [|[typ e] [|t1 more]] eqn:H;
      destruct x as [a|l|l|m]; cbn [container_under]; try discriminate.
    + intros T. apply String.eqb_eq in T. subst typ.
      rewrite (write_vec_descr td e t1 more _ f H). intros W.
      destruct (write_vector_wire _ _ _ _ _ W) as (prefix & bss & F & Rd & Wr).
      exists (prefix ++ List.concat bss), (PList l).
      split; [|split; [|apply list_eqb_refl]].
      * intros g. rewrite (write_vec_descr td e t1 more _ g H). apply Wr.
      * intros g rest Hg. rewrite (read_vec_descr td e t1 more g H).
        exact (reads_wrap _ PList _ _ (read_vector_reads l t1 prefix bss F Rd)
                 g rest Hg).
    + intros T. apply andb_prop in T. destruct T as [T D].
      apply String.eqb_eq in T. subst typ. apply distinct_spec in D.
      rewrite (write_set_descr td e t1 more _ f H). intros W.
      destruct (write_set_wire _ _ _ _ _ W) as (prefix & bss & _ & F & Rd & Wr).
      pose proof (psort_permutation atom_ltb l) as Pm.
      assert (D' : NoDup (psort atom_ltb l))
        by (apply (Permutation_NoDup (Permutation_sym Pm) D)).
      exists (prefix ++ List.concat bss), (PSet (psort atom_ltb l)).
      split; [|split; [|now apply py_eq_set]].
      * intros g. rewrite (write_set_descr td e t1 more _ g H). apply Wr.
      * intros g rest Hg. rewrite (read_set_descr td e t1 more g H).
        rewrite <- (Permutation_length Pm) in Rd.
        pose proof (reads_wrap _ PSet _ _
                      (read_set_reads (psort atom_ltb l) t1 prefix bss F Rd)) as R.
        rewrite (collapse_NoDup _ D') in R. exact (R g rest Hg).
    + destruct more as [|t2 more]; [discriminate|].
      intros T. apply andb_prop in T. destruct T as [T D].
      apply String.eqb_eq in T. subst typ. apply distinct_spec in D.
      rewrite (write_map_descr td e t1 t2 more _ f H). intros W.
      destruct (write_map_wire _ _ _ _ _ _ D W) as (prefix & bss & _ & F & Rd & Wr).
      pose proof (psort_permutation item_ltb m) as Pm.
      assert (D' : NoDup (map fst (psort item_ltb m))).
      { apply (Permutation_NoDup (l := map fst m)); [|exact D].
        apply Permutation_map. now apply Permutation_sym. }
      exists (prefix ++ List.concat bss), (PDict (psort item_ltb m)).
      split; [|split; [|now apply py_eq_dict]].
      * intros g. rewrite (write_map_descr td e t1 t2 more _ g H). apply Wr.
      * intros g rest Hg. rewrite (read_map_descr td e t1 t2 more g H).
        unfold bind.
        rewrite (read_map_reads (psort item_ltb m) t1 t2 prefix bss F)
          with (rest := rest);
          [| now rewrite (Permutation_length Pm) | exact Hg].
        rewrite (first_duplicate_NoDup [] _ D'). unfold ret.
        now rewrite app_assoc.
Qed.

Lemma write_things_wire (things : list (pyval * string)) :
  Forall (fun thing => value_under thing = true) things ->
  forall (n0 : Z) (f : stream) (n : Z) (f' : stream),
    write_things things n0 f = (Ok n, f') ->
    exists bs roundtrips,
      n = n0 + Z.of_nat (List.length bs) /\ f' = file_write bs f
      /\ reads (read_things things) bs roundtrips
      /\ Forall2 (fun thing y => py_eq (fst thing) y = true) things roundtrips.
Proof.
  induction 1 as [|[x td] things T _ IH]; intros n0 f n f' H;
    cbn [write_things read_things] in *.
  - unfold ret in H. assert (n0 = n /\ f = f') as [-> ->] by (split; congruence).
    exists [], []. rewrite file_write_nil. cbn [List.length].
    repeat split; [lia | apply reads_ret | constructor].
  - apply bind_ok_inv in H. destruct H as (k & f1 & W & H).
    destruct (thing_wire _ _ _ _ _ T W) as (bs1 & y & Wr & Rd & E).
    destruct (writes_inv _ _ _ _ _ Wr W) as [-> ->].
    destruct (IH _ _ _ _ H) as (bs2 & ys & -> & -> & Rs & Es).
    exists (bs1 ++ bs2), (y :: ys). repeat split.
    + rewrite length_app, Nat2Z.inj_add. lia.
    + apply file_write_app.
    + apply (reads_bind _ _ _ _ _ _ Rd).
      exact (reads_wrap _ (cons y) _ _ Rs).
    + constructor; [exact E | exact Es].
Qed.

(** X24. Values written one after another are read back one after another,
    under the default encoding and the hints utf-8, latin-1 and ascii: when
    a caller's loop has written a list of values, each of the kind of its
    descriptor, the loop that reads with the same descriptors in the same
    order, from where the writing started, returns a value equal to each,
    and consumes exactly what was written.  The count the writing loop adds
    up is the number of bytes written. *)
Theorem things_round_trip (things : list (pyval * string)) (f f' : stream)
    (n : Z) :
  Forall (fun thing => value_under thing = true) things ->
  Forall (fun thing =>
            forallb hint_modelled (parse_type_descr (snd thing)) = true)
         things ->
  write_things things 0 f = (Ok n, f') ->
  exists bytes_written roundtrips,
    f' = file_write bytes_written f
    /\ n = Z.of_nat (List.length bytes_written)
    /\ (forall g rest, ahead g = bytes_written ++ rest ->
          read_things things g
          = (Ok roundtrips, mkStream (behind g ++ bytes_written) rest))
    /\ Forall2 (fun thing y => py_eq (fst thing) y = true) things roundtrips.
Proof.
  intros T _ W.
  destruct (write_things_wire things T _ _ _ _ W) as (bs & ys & N & F & R & E).
  exists bs, ys. repeat split; assumption.
Qed.
End Sequences.

Lemma set_written_ascending_witness :
  let P := x86_64_linux in
  let l := [AInt 3; AInt 1; AInt 2] in
  let s := snd (write_set (PSet l) ("L"%string, None) (BytesIO [])) in
  exists members,
    read_vector ("L"%string, None) (BytesIO (getbuffer s))
    = (Ok members, mkStream (getbuffer s) [])
    /\ Permutation members l
    /\ StronglySorted (fun a b => py_lt a b = Ok true) members.
Proof.
  intros P l s.
  apply (set_written_ascending (P := P) l ("L"%string, None) 28 s);
    [|vm_compute; reflexivity].
  repeat constructor; cbn; intuition discriminate.
Defined.

Lemma numeric_vector_size_witness :
  16 = 4 + Z.of_nat 4 * Z.of_nat (List.length [AInt 1; AInt (-2); AInt 3]).
Proof.
  apply (numeric_vector_size (P := s390x_linux) "i" None true 4
           [AInt 1; AInt (-2); AInt 3] (BytesIO [])
           (snd (write_vector (P := s390x_linux)
                   (PList [AInt 1; AInt (-2); AInt 3]) ("i"%string, None)
                   (BytesIO []))));
    [reflexivity | vm_compute; reflexivity].
Defined.

Lemma string_written_as_bytes_witness :
  let P := x86_64_linux in
  let f := BytesIO [] in
  write_scalar (PStr [104; 252]) ("str"%string, Some "latin-1"%string) f
  = write_scalar (PBytes [x68; xfc]) ("byt"%string, None) f
  /\ write_scalar (PStr [104; 252]) ("sstr"%string, Some "latin-1"%string) f
     = write_scalar (PBytes [x68; xfc]) ("sbyt"%string, None) f.
Proof.
  intros P f.
  apply (string_written_as_bytes (P := P) [104; 252] (Some "latin-1"%string)
           None [x68; xfc] f).
  reflexivity.
Defined.

Lemma containers_accepted_iff_witness :
  let P := x86_64_linux in
  let m := [(AInt 1, AInt 300); (AInt 2, AInt 3)] in
  (exists n f', write_map (PDict m) ("i"%string, None) ("B"%string, None)
                  (BytesIO []) = (Ok n, f'))
  <-> Forall (fun kv => representable ("i"%string, None) (fst kv) = true) m
      /\ Forall (fun kv => representable ("B"%string, None) (snd kv) = true) m
      /\ Z.of_nat (List.length m) < 2 ^ 32.
Proof.
  intros P m.
  apply (containers_accepted_iff (P := P) [] m ("i"%string, None)
           ("i"%string, None) ("B"%string, None) (BytesIO []));
    [reflexivity | reflexivity | reflexivity |].
  repeat constructor; cbn; intuition discriminate.
Defined.

Lemma things_round_trip_witness :
  let P := x86_64_linux in
  let things := the_things x20 in
  let bytes :=
    [x2b; x61; x20; x71; x75; x69; x63; x6b; x20; x62; x72; x6f; x77; x6e;
     x20; x66; x6f; x78; x20; x6a; xc3; xbc; x6d; x70; x73; x20; x6f; x76;
     x65; x72; x20; x74; x68; x65; x20; x6c; xc3; xa4; x7a; x79; x20; x64;
     x30; x67; x67; x12; x00; x00; x0b; x00; x00; x00; x01; x02; x03; x04;
     x05; x06; x07; x08; x09; x0a; xed; x05; x00; x00; x00; x03; x65; x67;
     x67; x04; x73; x70; x61; x6d; x05; x62; x61; x63; x6f; x6e; x03; x68;
     x61; x6d; x0a; x72; xe4; x6b; x73; x6d; xf6; x72; x67; xe5; x73; x03;
     x00; x00; x00; xff; xff; xff; xff; xff; xff; xff; x1f; xff; xff; xff;
     xff; xff; xff; xff; x3f; xff; xff; xff; xff; xff; xff; xff; x7f; x03;
     x00; x00; x00; x03; x00; x00; x00; x62; x61; x72; x67; x12; x00; x00;
     x00; x00; x00; x00; x04; x00; x00; x00; x73; x77; x61; x67; x87; x50;
     xdf; x01; x00; x00; x00; x00; x05; x00; x00; x00; x78; x79; x7a; x7a;
     x79; x2a; x00; x00; x00; x00; x00; x00; x00; x03; x00; x00; x00; xff;
     xff; xff; xff; x02; x00; x00; x00; xff; xa0; x8f; x02; x01; x00; x00;
     x00; x07; x80; xba; x12; xff; xff; x00; x00; x01; x20] in
  Forall (fun thing => value_under thing = true) things
  /\ Forall (fun thing =>
               forallb hint_modelled (parse_type_descr (snd thing)) = true)
            things
  /\ write_things things 0 (BytesIO []) = (Ok 207, mkStream bytes [])
  /\ exists bytes_written roundtrips,
       mkStream bytes [] = file_write bytes_written (BytesIO [])
       /\ 207 = Z.of_nat (List.length bytes_written)
       /\ (forall g rest, ahead g = bytes_written ++ rest ->
             read_things things g
             = (Ok roundtrips, mkStream (behind g ++ bytes_written) rest))
       /\ Forall2 (fun thing y => py_eq (fst thing) y = true) things roundtrips.
Proof.
  intros P things bytes.
  assert (T : Forall (fun thing => value_under thing = true) things)
    by (repeat constructor).
  assert (M : Forall (fun thing =>
                        forallb hint_modelled (parse_type_descr (snd thing))
                        = true) things) by (repeat constructor).
  assert (W : write_things things 0 (BytesIO []) = (Ok 207, mkStream bytes []))
    by (vm_compute; reflexivity).
  split; [exact T|]. split; [exact M|]. split; [exact W|].
  exact (things_round_trip (P := P) things (BytesIO []) (mkStream bytes []) 207
           T M W).
Defined.

(** ** One encoding for each value *)

Lemma le_value_inj (a b : list byte) :
  List.length a = List.length b -> le_value a = le_value b -> a = b.
Proof.
  revert b. induction a as [|x a IH]; intros [|y b] L E; try discriminate;
    [reflexivity|].
  cbn [le_value] in E. cbn [List.length] in L.
  pose proof (Z_of_byte_range x). pose proof (Z_of_byte_range y).
  assert (Z_of_byte x = Z_of_byte y /\ le_value a = le_value b) as [E1 E2] by lia.
  f_equal; [now apply Z_of_byte_inj | apply IH; [lia | exact E2]].
Qed.

Lemma utf8_encode_1 (x : Z) :
  0 <= x < 128 -> utf8_encode_char x = Some [byte_of_Z x].
Proof. intros H. unfold utf8_encode_char. decide_tests. reflexivity. Qed.

Lemma utf8_encode_2 (x0 x1 c : Z) :
  192 <= x0 < 224 -> 128 <= x1 < 192 ->
  c = (x0 - 192) * 64 + (x1 - 128) -> 128 <= c ->
  utf8_encode_char c = Some [byte_of_Z x0; byte_of_Z x1].
Proof.
  intros H0 H1 Ec Hc. unfold utf8_encode_char.
  assert (D : c / 64 = x0 - 192 /\ c mod 64 = x1 - 128) by byte_arith.
  destruct D as [-> ->]. decide_tests.
  repeat (f_equal; try lia).
Qed.

Lemma utf8_encode_3 (x0 x1 x2 c : Z) :
  224 <= x0 < 240 -> 128 <= x1 < 192 -> 128 <= x2 < 192 ->
  c = (x0 - 224) * 4096 + (x1 - 128) * 64 + (x2 - 128) ->
  2048 <= c -> ~ (55296 <= c <= 57343) ->
  utf8_encode_char c = Some [byte_of_Z x0; byte_of_Z x1; byte_of_Z x2].
Proof.
  intros H0 H1 H2 Ec Hc Hs. unfold utf8_encode_char.
  assert (D : c / 4096 = x0 - 224 /\ (c / 64) mod 64 = x1 - 128
              /\ c mod 64 = x2 - 128) by byte_arith.
  destruct D as (-> & -> & ->).
  destruct (Z.ltb_spec c 0); [lia|]. destruct (Z.ltb_spec c 128); [lia|].
  destruct (Z.ltb_spec c 2048); [lia|]. destruct (Z.ltb_spec c 65536); [|lia].
  destruct (Z.leb_spec 55296 c); destruct (Z.leb_spec c 57343); cbn [andb];
    try lia; repeat (f_equal; try lia).
Qed.

Lemma utf8_encode_4 (x0 x1 x2 x3 c : Z) :
  240 <= x0 < 248 -> 128 <= x1 < 192 -> 128 <= x2 < 192 -> 128 <= x3 < 192 ->
  c = (x0 - 240) * 262144 + (x1 - 128) * 4096 + (x2 - 128) * 64 + (x3 - 128) ->
  65536 <= c < 1114112 ->
  utf8_encode_char c
  = Some [byte_of_Z x0; byte_of_Z x1; byte_of_Z x2; byte_of_Z x3].
Proof.
  intros H0 H1 H2 H3 Ec Hc. unfold utf8_encode_char.
  assert (D : c / 262144 = x0 - 240 /\ (c / 4096) mod 64 = x1 - 128
              /\ (c / 64) mod 64 = x2 - 128 /\ c mod 64 = x3 - 128)
    by byte_arith.
  destruct D as (-> & -> & -> & ->).
  destruct (Z.ltb_spec c 0); [lia|]. destruct (Z.ltb_spec c 128); [lia|].
  destruct (Z.ltb_spec c 2048); [lia|]. destruct (Z.ltb_spec c 65536); [lia|].
  destruct (Z.ltb_spec c 1114112); [|lia].
  repeat (f_equal; try lia).
Qed.

Lemma encode_chars_cons (f : Z -> option (list byte)) (c : Z) (s : pystr)
    (bs r : list byte) :
  f c = Some bs -> encode_chars f s = Some r ->
  encode_chars f (c :: s) = Some (bs ++ r).
Proof. intros E1 E2. cbn [encode_chars]. now rewrite E1, E2. Qed.

Lemma continuation_range (b : byte) :
  is_continuation b = true -> 128 <= Z_of_byte b < 192.
Proof.
  unfold is_continuation. intros H. apply andb_prop in H. destruct H as [H1 H2].
  apply Z.leb_le in H1. apply Z.ltb_lt in H2. lia.
Qed.

Lemma utf8_encode_decode_bounded (n : nat) :
  forall (bs : list byte) (s : pystr),
    (List.length bs <= n)%nat -> utf8_decode bs = Some s ->
    encode_chars utf8_encode_char s = Some bs.
Proof.
  induction n as [|n IH]; intros bs s L H.
  { destruct bs; [|cbn in L; lia]. cbn in H. apply Some_eq in H. now subst s. }
  destruct bs as [|b0 r0].
  { cbn in H. apply Some_eq in H. now subst s. }
  cbn [List.length] in L. cbn [utf8_decode] in H.
  pose proof (Z_of_byte_range b0) as R0.
  destruct (Z.ltb_spec (Z_of_byte b0) 128).
  { destruct (utf8_decode r0) as [s'|] eqn:D; [|discriminate].
    cbn [option_map] in H. apply Some_eq in H. subst s.
    rewrite (encode_chars_cons _ _ _ [b0] r0); [reflexivity | | apply IH; [lia|exact D]].
    rewrite utf8_encode_1 by lia. now rewrite byte_of_Z_of_byte. }
  destruct (Z.ltb_spec (Z_of_byte b0) 192); [discriminate|].
  destruct r0 as [|b1 r1]; [discriminate|]. cbn [List.length] in L.
  destruct (Z.ltb_spec (Z_of_byte b0) 224).
  { remember ((Z_of_byte b0 - 192) * 64 + (Z_of_byte b1 - 128)) as c eqn:Ec.
    destruct (is_continuation b1) eqn:C1; [|discriminate].
    destruct (Z.leb_spec 128 c); [|discriminate]. cbn [andb] in H.
    apply continuation_range in C1.
    destruct (utf8_decode r1) as [s'|] eqn:D; [|discriminate].
    cbn [option_map] in H. apply Some_eq in H. subst s.
    rewrite (encode_chars_cons _ _ _ [b0; b1] r1);
      [reflexivity | | apply IH; [lia|exact D]].
    rewrite (utf8_encode_2 (Z_of_byte b0) (Z_of_byte b1) c) by lia.
    now rewrite !byte_of_Z_of_byte. }
  destruct r1 as [|b2 r2]; [discriminate|]. cbn [List.length] in L.
  destruct (Z.ltb_spec (Z_of_byte b0) 240).
  { remember ((Z_of_byte b0 - 224) * 4096 + (Z_of_byte b1 - 128) * 64
              + (Z_of_byte b2 - 128)) as c eqn:Ec.
    destruct (is_continuation b1) eqn:C1; [|discriminate].
    destruct (is_continuation b2) eqn:C2; [|discriminate].
    destruct (Z.leb_spec 2048 c); [|discriminate]. cbn [andb] in H.
    apply continuation_range in C1. apply continuation_range in C2.
    destruct (Z.leb_spec 55296 c); destruct (Z.leb_spec c 57343);
      cbn [andb negb] in H; try discriminate;
      (destruct (utf8_decode r2) as [s'|] eqn:D; [|discriminate]);
      cbn [option_map] in H; apply Some_eq in H; subst s;
      (rewrite (encode_chars_cons _ _ _ [b0; b1; b2] r2);
       [reflexivity | | apply IH; [lia|exact D]]);
      rewrite (utf8_encode_3 (Z_of_byte b0) (Z_of_byte b1) (Z_of_byte b2) c)
        by lia;
      now rewrite !byte_of_Z_of_byte. }
  destruct r2 as [|b3 r3]; [discriminate|]. cbn [List.length] in L.
  remember ((Z_of_byte b0 - 240) * 262144 + (Z_of_byte b1 - 128) * 4096
            + (Z_of_byte b2 - 128) * 64 + (Z_of_byte b3 - 128)) as c eqn:Ec.
  destruct (Z.ltb_spec (Z_of_byte b0) 248); [|discriminate].
  destruct (is_continuation b1) eqn:C1; [|discriminate].
  destruct (is_continuation b2) eqn:C2; [|discriminate].
  destruct (is_continuation b3) eqn:C3; [|discriminate].
  destruct (Z.leb_spec 65536 c); [|discriminate].
  destruct (Z.ltb_spec c 1114112); [|discriminate]. cbn [andb] in H.
  apply continuation_range in C1. apply continuation_range in C2.
  apply continuation_range in C3.
  destruct (utf8_decode r3) as [s'|] eqn:D; [|discriminate].
  cbn [option_map] in H. apply Some_eq in H. subst s.
  rewrite (encode_chars_cons _ _ _ [b0; b1; b2; b3] r3);
    [reflexivity | | apply IH; [lia|exact D]].
  rewrite (utf8_encode_4 (Z_of_byte b0) (Z_of_byte b1) (Z_of_byte b2)
             (Z_of_byte b3) c) by lia.
  now rewrite !byte_of_Z_of_byte.
Qed.

Lemma single_byte_encode_bytes (bound : Z) (bs : list byte) :
  forallb (fun b => Z_of_byte b <? bound) bs = true ->
  encode_chars (single_byte_encode_char bound) (map Z_of_byte bs) = Some bs.
Proof.
  induction bs as [|b bs IH]; [reflexivity|]. cbn [forallb map].
  intros H. apply andb_prop in H. destruct H as [Hb H]. apply Z.ltb_lt in Hb.
  apply (encode_chars_cons _ _ _ [b] bs); [|now apply IH].
  unfold single_byte_encode_char. pose proof (Z_of_byte_range b).
  destruct (Z.leb_spec 0 (Z_of_byte b)); [|lia].
  destruct (Z.ltb_spec (Z_of_byte b) bound); [|lia].
  cbn [andb]. now rewrite byte_of_Z_of_byte.
Qed.

(** The three decoders are one to one: what was decoded encodes to the bytes
    it came from. *)
Lemma codec_encode_decode (c : codec) (bs : list byte) (s : pystr) :
  codec_decode c bs = Ok s -> codec_encode c s = Ok bs.
Proof.
  unfold codec_encode, codec_decode. destruct c.
  - destruct (utf8_decode bs) as [s'|] eqn:E; [|discriminate].
    intros H. assert (s' = s) by congruence. subst s'.
    now rewrite (utf8_encode_decode_bounded _ bs s (le_n _) E).
  - intros H. assert (map Z_of_byte bs = s) by congruence. subst s.
    rewrite single_byte_encode_bytes; [reflexivity|].
    apply forallb_forall. intros b _. apply Z.ltb_lt.
    pose proof (Z_of_byte_range b). lia.
  - unfold ascii_decode.
    destruct (forallb (fun b => Z_of_byte b <? 128) bs) eqn:F; [|discriminate].
    intros H. assert (map Z_of_byte bs = s) by congruence. subst s.
    now rewrite single_byte_encode_bytes.
Qed.

Section Canonical.
Context {P : platform}.

(** [struct.unpack] is one to one: packing what was unpacked gives the
    bytes back. *)
Lemma struct_pack_unpack (fmt : string) (bs : list byte) (n : Z) :
  struct_unpack fmt bs = Ok n -> struct_pack fmt (PInt n) = Ok bs.
Proof.
  intros U. pose proof U as U'. unfold struct_unpack in U'.
  destruct (format_char fmt) as [[signed k]|] eqn:F; [|discriminate].
  destruct (Nat.eqb_spec (List.length bs) k) as [L|]; [|discriminate].
  destruct (struct_unpack_range _ _ _ _ F L) as (n' & U2 & R).
  assert (n' = n) by congruence. subst n'.
  unfold struct_pack, PInt. rewrite F, R. f_equal.
  rewrite <- (native_involutive bs). f_equal.
  apply le_value_inj; [now rewrite length_le_bytes, length_native|].
  rewrite le_value_le_bytes.
  pose proof (le_value_range (native bs)) as Rg. rewrite length_native, L in Rg.
  cbv zeta in U'.
  destruct (signed && (2 ^ (8 * Z.of_nat k - 1) <=? le_value (native bs))).
  - assert (n = le_value (native bs) - 2 ^ (8 * Z.of_nat k)) by congruence.
    subst n. symmetry. apply Z.mod_unique with (q := -1); lia.
  - assert (n = le_value (native bs)) by congruence. subst n.
    apply Z.mod_small. lia.
Qed.

Lemma read_number_run (fmt : string) (enc : option string) (signed : bool)
    (k : nat) (f : stream) :
  format_char fmt = Some (signed, k) ->
  read_number (fmt, enc) f
  = (struct_unpack fmt (firstn k (ahead f)),
     mkStream (behind f ++ firstn k (ahead f)) (skipn k (ahead f))).
Proof.
  intros F. unfold read_number.
  assert (N : str_in fmt NUMERIC_FMT = true)
    by (apply format_char_numeric; now exists (signed, k)).
  rewrite N. cbn [negb]. unfold bind, lift. rewrite (number_size _ _ _ F).
  unfold _in, file_read.
  destruct (Z.ltb_spec (Z.of_nat k) 0); [lia|]. now rewrite Nat2Z.id.
Qed.

Lemma read_number_ok_inv (ty : item_type) (f f' : stream) (n : Z) :
  read_number ty f = (Ok n, f') ->
  exists p, ahead f = p ++ ahead f' /\ behind f' = behind f ++ p
            /\ struct_unpack (fst ty) p = Ok n.
Proof.
  destruct ty as [fmt enc]. cbn [fst]. intros H.
  assert (N : str_in fmt NUMERIC_FMT = true).
  { unfold read_number in H. destruct (str_in fmt NUMERIC_FMT); [reflexivity|].
    discriminate. }
  apply format_char_numeric in N. destruct N as [[signed k] F].
  rewrite (read_number_run _ _ _ _ _ F) in H.
  exists (firstn k (ahead f)).
  assert (E : f' = mkStream (behind f ++ firstn k (ahead f)) (skipn k (ahead f)))
    by congruence.
  subst f'. cbn [ahead behind]. split; [now rewrite firstn_skipn|].
  split; [reflexivity | congruence].
Qed.

(** A length-prefixed payload that was read with something left behind it
    was complete, and its prefix is the one its length is written as. *)
Lemma frame_run (fmt : string) (f f' : stream) (data : list byte) :
  (length <- read_number (_fmt_to_len_type fmt) ;; _in length) f = (Ok data, f') ->
  ahead f' <> [] ->
  exists prefix,
    ahead f = (prefix ++ data) ++ ahead f'
    /\ struct_pack (fst (_fmt_to_len_type fmt))
         (PInt (Z.of_nat (List.length data))) = Ok prefix
    /\ payload_fits fmt (List.length data) = true.
Proof.
  intros H Hne. apply bind_ok_inv in H. destruct H as (len & f1 & Rn & Ri).
  destruct (read_number_ok_inv _ _ _ _ Rn) as (p & Ha & _ & U).
  unfold _in, file_read in Ri.
  destruct (Z.ltb_spec len 0) as [Hneg|Hpos].
  { assert (E : f' = mkStream (behind f1 ++ ahead f1) []) by congruence.
    subst f'. now destruct Hne. }
  assert (Ed : data = firstn (Z.to_nat len) (ahead f1)) by congruence.
  assert (Ef : f' = mkStream (behind f1 ++ firstn (Z.to_nat len) (ahead f1))
                             (skipn (Z.to_nat len) (ahead f1))) by congruence.
  subst f'. cbn [ahead] in *.
  assert (Hl : (Z.to_nat len < List.length (ahead f1))%nat).
  { destruct (Nat.ltb_spec (Z.to_nat len) (List.length (ahead f1)));
      [assumption|]. rewrite skipn_all2 in Hne by lia. now destruct Hne. }
  assert (Ld : Z.of_nat (List.length data) = len).
  { subst data. rewrite firstn_length_le by lia. lia. }
  exists p. split; [|split].
  - rewrite Ha, <- app_assoc. f_equal. subst data. now rewrite firstn_skipn.
  - rewrite Ld. now apply struct_pack_unpack.
  - apply struct_pack_unpack in U.
    destruct (struct_pack_inv _ _ _ U) as (sg & k & z & F & E & R & _).
    assert (z = len) by (unfold PInt in E; congruence). subst z.
    revert F R. unfold payload_fits, _fmt_to_len_type. rewrite Ld.
    destruct (String.eqb fmt "byt" || String.eqb fmt "str"); cbn [fst].
    + replace (format_char "I") with (Some (false, 4%nat)) by reflexivity.
      intros F R. assert (sg = false /\ k = 4%nat) as [-> ->] by (split; congruence).
      unfold in_range in R. apply andb_prop in R. destruct R as [_ R]. exact R.
    + replace (format_char "B") with (Some (false, 1%nat)) by reflexivity.
      intros F R. assert (sg = false /\ k = 1%nat) as [-> ->] by (split; congruence).
      unfold in_range in R. apply andb_prop in R. destruct R as [_ R].
      apply Z.ltb_lt in R. change (2 ^ (8 * Z.of_nat 1)) with 256 in R.
      apply Z.leb_le. lia.
Qed.

Lemma _decode_string_inv (typ : string) (data : list byte)
    (enc : option string) (s : pystr) :
  str_in typ STRING_TYPES = true -> hint_modelled (typ, enc) = true ->
  _decode_string data enc = Ok s -> _encode_string (PStr s) enc = Ok data.
Proof.
  intros T M. unfold hint_modelled in M. rewrite T in M.
  unfold _decode_string, _encode_string, PStr.
  destruct (lookup_codec (enc_or_default enc)) as [c|]; [|discriminate].
  destruct data as [|b data]; [|apply codec_encode_decode].
  intros E. assert (s = []) by congruence. subst s. now destruct c.
Qed.

(** What [read_scalar] read with something left behind it is what
    [write_scalar] writes for the value it returned. *)
Lemma read_scalar_run (ty : item_type) (f f' : stream) (a : atom) :
  hint_modelled ty = true ->
  read_scalar ty f = (Ok a, f') -> ahead f' <> [] ->
  exists bs, ahead f = bs ++ ahead f' /\ writes (write_scalar (PAtom a) ty) bs.
Proof.
  destruct ty as [typ enc]. unfold read_scalar, write_scalar. intros M H Hne.
  destruct (str_in typ NUMERIC_FMT) eqn:N.
  { apply bind_ok_inv in H. destruct H as (n & f1 & Rn & Rr).
    unfold ret in Rr. assert (a = AInt n /\ f1 = f') as [-> ->] by (split; congruence).
    destruct (read_number_ok_inv _ _ _ _ Rn) as (p & Ha & _ & U). cbn [fst] in U.
    exists p. split; [exact Ha|]. apply struct_pack_unpack in U.
    destruct (number_wire typ enc _ _ U) as (z & _ & W & _). exact W. }
  destruct (str_in typ STRING_TYPES) eqn:S.
  { apply bind_ok_inv in H. destruct H as (s & f1 & Rs & Rr).
    unfold ret in Rr. assert (a = AStr s /\ f1 = f') as [-> ->] by (split; congruence).
    unfold read_string in Rs.
    apply bind_ok_inv in Rs. destruct Rs as (len & f2 & Rn & Rs).
    apply bind_ok_inv in Rs. destruct Rs as (data & f3 & Ri & Rd).
    unfold lift in Rd.
    assert (_decode_string data enc = Ok s /\ f3 = f') as [D ->] by (split; congruence).
    assert (Fr : (length <- read_number (_fmt_to_len_type typ) ;; _in length) f
                 = (Ok data, f'))
      by (unfold bind; now rewrite Rn).
    destruct (frame_run _ _ _ _ Fr Hne) as (prefix & Ha & Sp & Fits).
    exists (prefix ++ data). split; [exact Ha|].
    destruct (fits_frame data typ Fits) as (prefix' & G & Sp').
    assert (prefix' = prefix) by congruence. subst prefix'.
    intros g. unfold write_string.
    change (PAtom (AStr s)) with (PStr s).
    rewrite (_decode_string_inv typ _ _ _ S M D), bind_lift_ok, G, bind_lift_ok.
    exact (framed_write data typ prefix _ g G Sp). }
  destruct (str_in typ BYTES_TYPES) eqn:B; [|discriminate].
  apply bind_ok_inv in H. destruct H as (data & f1 & Rb & Rr).
  unfold ret in Rr. assert (a = ABytes data /\ f1 = f') as [-> ->] by (split; congruence).
  unfold read_bytes in Rb.
  destruct (frame_run _ _ _ _ Rb Hne) as (prefix & Ha & Sp & Fits).
  exists (prefix ++ data). split; [exact Ha|].
  destruct (fits_frame data typ Fits) as (prefix' & G & Sp').
  assert (prefix' = prefix) by congruence. subst prefix'.
  intros g. unfold write_bytes. change (PAtom (ABytes data)) with (PBytes data).
  rewrite G, bind_lift_ok.
  exact (framed_write data typ prefix _ g G Sp).
Qed.

Lemma read_vector_loop_run (ty : item_type) (n : nat) :
  hint_modelled ty = true ->
  forall (acc : list atom) (f f' : stream) (l : list atom),
    read_vector_loop ty n acc f = (Ok l, f') -> ahead f' <> [] ->
    exists items bs,
      l = acc ++ items /\ List.length items = n
      /\ ahead f = bs ++ ahead f'
      /\ forall n0 g,
           write_vector_loop items ty n0 g
           = (Ok (n0 + Z.of_nat (List.length bs)), file_write bs g).
Proof.
  intros M.
  induction n as [|n IH]; intros acc f f' l H Hne; cbn [read_vector_loop] in H.
  - unfold ret in H. assert (acc = l /\ f = f') as [-> ->] by (split; congruence).
    exists [], []. rewrite app_nil_r. repeat split.
    intros n0 g. cbn. now rewrite Z.add_0_r, file_write_nil.
  - apply bind_ok_inv in H. destruct H as (x & f1 & Rx & H).
    destruct (IH _ _ _ _ H Hne) as (items & bs' & -> & Ln & Ha & W).
    assert (Hne1 : ahead f1 <> []).
    { rewrite Ha. intros E. apply app_eq_nil in E. now destruct E. }
    destruct (read_scalar_run _ _ _ _ M Rx Hne1) as (bs0 & Ha0 & W0).
    exists (x :: items), (bs0 ++ bs'). repeat split.
    + now rewrite <- app_assoc.
    + cbn [List.length]. now rewrite Ln.
    + now rewrite Ha0, Ha, app_assoc.
    + intros n0 g. cbn [write_vector_loop]. unfold bind. rewrite (W0 g), W.
      rewrite file_write_app, length_app, Nat2Z.inj_add.
      now rewrite Z.add_assoc.
Qed.

Lemma read_vector_run (ty : item_type) (f f' : stream) (l : list atom) :
  hint_modelled ty = true ->
  read_vector ty f = (Ok l, f') -> ahead f' <> [] ->
  exists bs, ahead f = bs ++ ahead f' /\ writes (write_vector (PList l) ty) bs.
Proof.
  intros M H Hne. unfold read_vector in H. apply bind_ok_inv in H.
  destruct H as (c & f1 & Rn & H).
  pose proof (read_count_nonneg _ _ _ Rn) as Hc.
  destruct (read_vector_loop_run _ _ M _ _ _ _ H Hne) as (items & bs & -> & Ln & Ha & W).
  destruct (read_number_ok_inv _ _ _ _ Rn) as (p & Hp & _ & U).
  apply struct_pack_unpack in U.
  destruct (number_wire _ None _ _ U) as (z & _ & Wp & _).
  exists (p ++ bs). split; [now rewrite Hp, Ha, app_assoc|].
  intros g. unfold write_vector. cbn [app py_len py_iter].
  rewrite bind_lift_ok, Ln, Z2Nat.id by lia.
  unfold bind at 1. pose proof (Wp g) as Wg.
  change (write_number (PInt c) LONG_TYPE g
          = (Ok (Z.of_nat (List.length p)), file_write p g)) in Wg.
  rewrite Wg, bind_lift_ok, W.
  now rewrite file_write_app, length_app, Nat2Z.inj_add.
Qed.

(** What [read] returned as a scalar or as a list, it read under a scalar
    tag or under [vec]. *)
Lemma read_inv (td : string) (f f' : stream) (v : pyval) :
  read td f = (Ok v, f') ->
  match v with
  | PAtom a =>
      exists ty more,
        parse_type_descr td = ty :: more
        /\ str_in (fst ty) SCALAR_TYPES = true
        /\ read_scalar ty f = (Ok a, f')
  | PList l =>
      exists e ty more,
        parse_type_descr td = ("vec"%string, e) :: ty :: more
        /\ read_vector ty f = (Ok l, f')
  | _ => True
  end.
Proof.
  unfold read. cbv zeta.
  destruct (parse_type_descr td) as [|[typ e] rest] eqn:H; [discriminate|].
  unfold index at 1. cbn [nth_error]. rewrite bind_lift_ok. cbv beta iota.
  destruct (str_in typ SCALAR_TYPES) eqn:S.
  { unfold index. cbn [nth_error]. rewrite bind_lift_ok. intros R.
    apply bind_ok_inv in R. destruct R as (a & f1 & Ra & Rr). unfold ret in Rr.
    assert (v = PAtom a /\ f1 = f') as [-> ->] by (split; congruence).
    now exists (typ, e), rest. }
  destruct (String.eqb_spec typ "vec") as [->|_].
  { destruct rest as [|t1 rest]; [discriminate|].
    unfold index. cbn [nth_error]. rewrite bind_lift_ok. intros R.
    apply bind_ok_inv in R. destruct R as (l & f1 & Rl & Rr). unfold ret in Rr.
    assert (v = PList l /\ f1 = f') as [-> ->] by (split; congruence).
    now exists e, t1, rest. }
  destruct (String.eqb typ "set").
  { destruct rest as [|t1 rest]; [discriminate|].
    unfold index. cbn [nth_error]. rewrite bind_lift_ok. intros R.
    apply bind_ok_inv in R. destruct R as (l & f1 & Rl & Rr). unfold ret in Rr.
    assert (v = PSet l) by congruence. now subst v. }
  destruct (String.eqb typ "map"); [|discriminate].
  destruct rest as [|t1 [|t2 rest]]; try discriminate.
  unfold index. cbn [nth_error]. rewrite !bind_lift_ok. intros R.
  apply bind_ok_inv in R. destruct R as (l & f1 & Rl & Rr). unfold ret in Rr.
  assert (v = PDict l) by congruence. now subst v.
Qed.

(** X25. Every scalar and every list has one encoding, under the encodings
    utf-8, latin-1 and ascii.  A byte sequence that [read] takes to a scalar
    or to a list, on every file object that has it at the position, is the
    sequence [write] writes for that value under the same descriptor:
    reading and writing again gives the same bytes.  Sets and dicts are left
    out: a stream may give their entries in any order, and [write] sorts
    them.  So is a hint that names another codec: an empty string is read
    under any name, even one no codec has, and is not written under it. *)
Theorem read_write_canonical (td : string) (bs : list byte) (v : pyval) :
  forallb hint_modelled (parse_type_descr td) = true ->
  reads (read td) bs v ->
  (forall s, v <> PSet s) -> (forall m, v <> PDict m) ->
  writes (write v td) bs.
Proof.
  intros M R Ns Nm. specialize (R (BytesIO (bs ++ [x00])) [x00] eq_refl).
  apply read_inv in R. destruct v as [a|l|s|m].
  - destruct R as (ty & more & H & S & R). rewrite H in M. cbn [forallb] in M.
    apply andb_prop in M. destruct M as [M _].
    destruct (read_scalar_run _ _ _ _ M R) as (bs' & E & W); [discriminate|].
    cbn [ahead BytesIO] in E. apply app_inv_tail in E. subst bs'.
    intros g. rewrite (write_scalar_descr td ty more _ g H S). apply W.
  - destruct R as (e & ty & more & H & R). rewrite H in M. cbn [forallb] in M.
    apply andb_prop in M. destruct M as [_ M].
    apply andb_prop in M. destruct M as [M _].
    destruct (read_vector_run _ _ _ _ M R) as (bs' & E & W); [discriminate|].
    cbn [ahead BytesIO] in E. apply app_inv_tail in E. subst bs'.
    intros g. rewrite (write_vec_descr td e ty more _ g H). apply W.
  - now destruct (Ns s).
  - now destruct (Nm m).
Qed.
End Canonical.

Lemma read_write_canonical_witness :
  let P := s390x_linux in
  let bs := [x00; x00; x00; x02; xc3; xbc] in
  forallb hint_modelled (parse_type_descr "str") = true
  /\ reads (read "str") bs (PStr [252])
  /\ writes (write (PStr [252]) "str") bs.
Proof.
  intros P bs. split; [reflexivity|].
  assert (R : reads (read "str") bs (PStr [252])).
  { destruct (scalar_round_trip_descr (P := P) "str" ("str"%string, None) []
                (AStr [252]) eq_refl eq_refl) as (bs' & W & R).
    assert (bs' = bs); [|now subst bs'].
    pose proof (W (BytesIO [])) as W0.
    assert (W6 : write (PStr [252]) "str" (BytesIO []) = (Ok 6, mkStream bs []))
      by (vm_compute; reflexivity).
    change (PAtom (AStr [252])) with (PStr [252]) in W0. rewrite W6 in W0.
    unfold file_write in W0. cbn [behind ahead BytesIO app] in W0. congruence. }
  split; [exact R|].
  apply (read_write_canonical (P := P) "str" bs (PStr [252]) eq_refl R);
    intros x; discriminate.
Defined.

Lemma write_scalar_accepts_iff_witness :
  let P := x86_64_linux in
  let ty := ("sstr"%string, Some "ascii"%string) in
  hint_modelled ty = true
  /\ ((exists n f', write_scalar (PStr [252]) ty (BytesIO []) = (Ok n, f'))
      <-> exists a, PStr [252] = PAtom a /\ representable ty a = true).
Proof.
  intros P ty. split; [reflexivity|].
  apply (write_scalar_accepts_iff (P := P) (PStr [252]) ty (BytesIO [])).
  reflexivity.
Defined.

Lemma hint_only_for_text_witness :
  let P := x86_64_linux in
  let f := BytesIO [x07; x00; x00; x00] in
  str_in "i" STRING_TYPES = false
  /\ write_scalar (PInt 7) ("i"%string, Some "no-such-codec"%string) f
     = write_scalar (PInt 7) ("i"%string, None) f
  /\ read_scalar ("i"%string, Some "no-such-codec"%string) f
     = read_scalar ("i"%string, None) f.
Proof.
  intros P f. split; [reflexivity|].
  apply (proj1 (hint_only_for_text (P := P) "i" (Some "no-such-codec"%string)
                  None (PInt 7) f)).
  reflexivity.
Defined.

Lemma write_appends_and_counts_witness :
  let P := x86_64_linux in
  exists r bs,
    (forall f, write (PList [AInt 1; AInt 300]) "vec:B" f = (r, file_write bs f))
    /\ forall n, r = Ok n -> n = Z.of_nat (List.length bs).
Proof.
  intros P.
  exact (write_appends_and_counts (P := P) (PList [AInt 1; AInt 300]) "vec:B").
Defined.

(** ** The same bytes where [long] differs *)

Section Portability.
Variables (m1 m2 : data_model) (o : byte_order).
















End Portability.


(** ** Values of another kind than the descriptor's *)

Section DuckTyping.
Context {P : platform}.

(** X27. The container writers take what Python lets them iterate.  Under
    [vec] a string is written as the vector of its characters, a bytes
    object as the vector of its byte values and a dict as the vector of its
    keys.  [write_set] and [write_map] refuse [None] with [TypeError] before
    anything is written, and [write_map] refuses a list, a set, a string or
    a bytes object with [AttributeError] after it has written their length
    as the count. *)
Theorem containers_take_iterables (s : pystr) (b : list byte)
    (m : list (atom * atom)) (x : pyval) (ty kt vt : item_type) (n : Z)
    (f : stream) :
  write_vector (PStr s) ty f
  = write_vector (PList (map (fun c => AStr [c]) s)) ty f
  /\ write_vector (PBytes b) ty f
     = write_vector (PList (map (fun c => AInt (Z_of_byte c)) b)) ty f
  /\ write_vector (PDict m) ty f = write_vector (PList (map fst m)) ty f
  /\ write_set PNone ty f = (Raise TypeError, f)
  /\ write_map PNone kt vt f = (Raise TypeError, f)
  /\ ((forall d, x <> PDict d) -> py_len x = Ok n -> 0 <= n < 2 ^ 32 ->
      exists prefix,
        List.length prefix = 4%nat
        /\ write_map x kt vt f = (Raise AttributeError, file_write prefix f)).
Proof.
  repeat split.
  - unfold write_vector, PStr. cbn [py_len py_iter]. now rewrite length_map.
  - unfold write_vector, PBytes. cbn [py_len py_iter]. now rewrite length_map.
  - unfold write_vector. cbn [py_len py_iter]. now rewrite length_map.
  - intros Nd L R.
    destruct (count_frame (Z.to_nat n)) as (prefix & Lp & W & _);
      [rewrite Z2Nat.id by lia; lia|].
    rewrite Z2Nat.id in W by lia.
    exists prefix. split; [exact Lp|].
    unfold write_map. rewrite L, bind_lift_ok. unfold bind at 1. rewrite (W f).
    destruct x as [[z|t|t|]|l|l|d]; cbn [py_len] in L; try discriminate;
      try reflexivity.
    now destruct (Nd d).
Qed.
End DuckTyping.

Lemma containers_take_iterables_witness :
  let P := x86_64_linux in
  exists prefix,
    List.length prefix = 4%nat
    /\ write_map (PList [AInt 1; AInt 2]) ("i"%string, None) ("i"%string, None)
         (BytesIO [])
       = (Raise AttributeError, file_write prefix (BytesIO [])).
Proof.
  intros P.
  apply (containers_take_iterables (P := P) [] [] [] (PList [AInt 1; AInt 2])
           ("i"%string, None) ("i"%string, None) ("i"%string, None) 2
           (BytesIO []));
    [intros d; discriminate | reflexivity | lia].
Defined.

(** * The specification's properties on containers *)

Section StrictKeys.
Context {A : Type} (ltb : A -> A -> bool) `{!StrictTotal ltb}.

Lemma sorted_weakly (l : list A) :
  Sorted (fun a b => ltb b a = false) l ->
  StronglySorted (fun a b => ltb b a = false) l.
Proof.
  apply Sorted_StronglySorted. intros a b c Hab Hbc.
  destruct (ltb c a) eqn:E; [|reflexivity].
  pose proof (ltb_neg_trans ltb b a c Hbc E). congruence.
Qed.
End StrictKeys.

(** Entries with distinct keys that are sorted as pairs are strictly
    ascending by key. *)
Lemma keys_strictly_sorted (items : list (atom * atom)) :
  NoDup (map fst items) ->
  Sorted (fun p q => item_ltb q p = false) items ->
  StronglySorted (fun p q => atom_ltb (fst p) (fst q) = true) items.
Proof.
  intros D S. apply (sorted_weakly item_ltb) in S.
  induction S as [|p items S IH F]; [constructor|].
  cbn [map] in D. inversion D as [|? ? Np D']. subst.
  constructor; [now apply IH|].
  rewrite Forall_forall in *. intros q Hq. specialize (F q Hq).
  unfold item_ltb, lexprod in F. apply orb_false_elim in F. destruct F as [F _].
  destruct (atom_ltb (fst p) (fst q)) eqn:E; [reflexivity|].
  pose proof (ltb_total (fst p) (fst q) E F) as K.
  destruct Np. rewrite K. now apply in_map.
Qed.

Section ContainerSpecification.
Context {P : platform}.

Lemma forallb_Forall {A} (p : A -> bool) (l : list A) :
  forallb p l = true -> Forall (fun a => p a = true) l.
Proof. intros H. apply Forall_forall. now apply forallb_forall. Qed.

(** C2. A list under a [vec] descriptor, a set under a [set] descriptor and
    a dict under a [map] descriptor are written whenever their elements are
    representable and fewer than 2^32; and once written, whatever the file
    object, they are read back with the same descriptor as an equal value of
    the same kind: the same list, a set with the same members, a dict with
    the same value for every key.  For text this is stated under the default
    encoding and the hints utf-8, latin-1 and ascii. *)
Theorem container_round_trip (td : string) (x : pyval) (f : stream) :
  container_under (parse_type_descr td) x = true ->
  forallb hint_modelled (parse_type_descr td) = true ->
  (storable_under (parse_type_descr td) x = true ->
   exists n f', write x td f = (Ok n, f'))
  /\ (forall n f',
        write x td f = (Ok n, f') ->
        exists bs y,
          n = Z.of_nat (List.length bs) /\ f' = file_write bs f
          /\ (forall g rest, ahead g = bs ++ rest ->
                read td g = (Ok y, mkStream (behind g ++ bs) rest))
          /\ py_eq x y = true
          /\ container_under (parse_type_descr td) y = true).
Proof.
  intros C _. split.
  { revert C.
    destruct (parse_type_descr td) as [|[typ e] [|t1 more]] eqn:H;
      destruct x as [a|l|l|m]; cbn [container_under storable_under];
      try discriminate.
    - intros T S. apply String.eqb_eq in T. subst typ.
      apply andb_prop in S. destruct S as [S L]. apply Z.ltb_lt in L.
      rewrite (write_vec_descr td e t1 more _ f H).
      apply write_vector_accepts; [now apply forallb_Forall | exact L].
    - intros T S. apply andb_prop in T. destruct T as [T _].
      apply String.eqb_eq in T. subst typ.
      apply andb_prop in S. destruct S as [S L]. apply Z.ltb_lt in L.
      rewrite (write_set_descr td e t1 more _ f H).
      apply write_set_accepts; [now apply forallb_Forall | exact L].
    - destruct more as [|t2 more]; [discriminate|].
      intros T S. apply andb_prop in T. destruct T as [T D].
      apply String.eqb_eq in T. subst typ. apply distinct_spec in D.
      apply andb_prop in S. destruct S as [S L]. apply Z.ltb_lt in L.
      rewrite (write_map_descr td e t1 t2 more _ f H).
      rewrite forallb_forall in S.
      apply write_map_accepts; [exact D | | | exact L];
        apply Forall_forall; intros kv Hkv; specialize (S kv Hkv);
        apply andb_prop in S; now destruct S. }
  intros n f'. revert C.
  destruct (parse_type_descr td) as [|[typ e] [|t1 more]] eqn:H;
    destruct x as [a|l|l|m]; cbn [container_under]; try discriminate.
  - (* vec *)
    intros T. apply String.eqb_eq in T. subst typ.
    rewrite (write_vec_descr td e t1 more _ f H). intros W.
    destruct (write_vector_wire _ _ _ _ _ W) as (prefix & bss & F & Rd & Wr).
    destruct (writes_inv _ _ _ _ _ Wr W) as [-> ->].
    exists (prefix ++ List.concat bss), (PList l).
    repeat split; [|apply list_eqb_refl].
    intros g rest Hg. rewrite (read_vec_descr td e t1 more g H).
    exact (reads_wrap _ PList _ _ (read_vector_reads l t1 prefix bss F Rd)
             g rest Hg).
  - (* set *)
    intros T. apply andb_prop in T. destruct T as [T D].
    apply String.eqb_eq in T. subst typ. apply distinct_spec in D.
    rewrite (write_set_descr td e t1 more _ f H). intros W.
    destruct (write_set_wire _ _ _ _ _ W) as (prefix & bss & _ & F & Rd & Wr).
    destruct (writes_inv _ _ _ _ _ Wr W) as [-> ->].
    pose proof (psort_permutation atom_ltb l) as Pm.
    assert (D' : NoDup (psort atom_ltb l))
      by (apply (Permutation_NoDup (Permutation_sym Pm) D)).
    exists (prefix ++ List.concat bss), (PSet (psort atom_ltb l)).
    repeat split.
    + intros g rest Hg. rewrite (read_set_descr td e t1 more g H).
      rewrite <- (Permutation_length Pm) in Rd.
      pose proof (reads_wrap _ PSet _ _
                    (read_set_reads (psort atom_ltb l) t1 prefix bss F Rd)) as R.
      rewrite (collapse_NoDup _ D') in R. exact (R g rest Hg).
    + now apply py_eq_set.
    + now apply distinct_spec.
  - (* map *)
    destruct more as [|t2 more]; [discriminate|].
    intros T. apply andb_prop in T. destruct T as [T D].
    apply String.eqb_eq in T. subst typ. apply distinct_spec in D.
    rewrite (write_map_descr td e t1 t2 more _ f H). intros W.
    destruct (write_map_wire _ _ _ _ _ _ D W) as (prefix & bss & _ & F & Rd & Wr).
    destruct (writes_inv _ _ _ _ _ Wr W) as [-> ->].
    pose proof (psort_permutation item_ltb m) as Pm.
    assert (D' : NoDup (map fst (psort item_ltb m))).
    { apply (Permutation_NoDup (l := map fst m)); [|exact D].
      apply Permutation_map. now apply Permutation_sym. }
    exists (prefix ++ List.concat bss), (PDict (psort item_ltb m)).
    repeat split.
    + intros g rest Hg. rewrite (read_map_descr td e t1 t2 more g H).
      unfold bind.
      rewrite (read_map_reads (psort item_ltb m) t1 t2 prefix bss F) with (rest := rest);
        [| now rewrite (Permutation_length Pm) | exact Hg].
      rewrite (first_duplicate_NoDup [] _ D'). unfold ret.
      now rewrite app_assoc.
    + now apply py_eq_dict.
    + now apply distinct_spec.
Qed.

Lemma Forall2_weaken {A B} (R R' : A -> B -> Prop) :
  (forall a b, R a b -> R' a b) ->
  forall l l', Forall2 R l l' -> Forall2 R' l l'.
Proof. intros H l l' F. induction F; constructor; auto. Qed.

Lemma pair_wire_written (kt vt : item_type) (kv : atom * atom)
    (bs : list byte) :
  pair_wire kt vt kv bs -> pair_written kt vt kv bs.
Proof.
  intros (bk & bv & E & [Wk _] & [Wv _]). now exists bk, bv.
Qed.

(** C3. The bytes [write_set] and [write_map] produce, and everything else
    they do, are the same for any two iteration orders of the same set and
    for any two insertion orders of the same dict, because of the order they
    write in: after the count, [write_set] writes the encodings of the
    members in strictly ascending order of value, and [write_map] the
    encodings of the entries, key then value, in strictly ascending order of
    key, both by Python's [<]. *)
Theorem sorted_write_deterministic (l1 l2 : list atom)
    (m1 m2 : list (atom * atom)) (ty kt vt : item_type) (f : stream) :
  Permutation l1 l2 -> NoDup (map fst m1) -> Permutation m1 m2 ->
  write_set (PSet l1) ty f = write_set (PSet l2) ty f
  /\ write_map (PDict m1) kt vt f = write_map (PDict m2) kt vt f
  /\ (NoDup l1 ->
      forall n f',
        write_set (PSet l1) ty f = (Ok n, f') ->
        exists members prefix bss,
          Permutation members l1
          /\ StronglySorted (fun a b => py_lt a b = Ok true) members
          /\ reads (read_number LONG_TYPE) prefix (Z.of_nat (List.length l1))
          /\ Forall2 (scalar_written ty) members bss
          /\ n = Z.of_nat (List.length (prefix ++ List.concat bss))
          /\ f' = file_write (prefix ++ List.concat bss) f)
  /\ (forall n f',
        write_map (PDict m1) kt vt f = (Ok n, f') ->
        exists items prefix bss,
          Permutation items m1
          /\ StronglySorted (fun p q => py_lt (fst p) (fst q) = Ok true) items
          /\ reads (read_number LONG_TYPE) prefix (Z.of_nat (List.length m1))
          /\ Forall2 (pair_written kt vt) items bss
          /\ n = Z.of_nat (List.length (prefix ++ List.concat bss))
          /\ f' = file_write (prefix ++ List.concat bss) f).
Proof.
  intros Hl Hn Hm. split; [|split; [|split]].
  - unfold write_set. cbn [py_len py_iter rbind].
    now rewrite (Permutation_length Hl), (sorted_atoms_perm _ _ Hl).
  - unfold write_map. cbn [py_len py_items rbind].
    now rewrite (Permutation_length Hm), (sorted_items_perm _ _ Hn Hm).
  - intros D n f' W.
    destruct (write_set_wire _ _ _ _ _ W) as (prefix & bss & Hs & F & Rd & Wr).
    destruct (writes_inv _ _ _ _ _ Wr W) as [-> ->].
    pose proof (psort_permutation atom_ltb l1) as Pm.
    exists (psort atom_ltb l1), prefix, bss.
    split; [exact Pm|].
    split; [|repeat split; try assumption;
             exact (Forall2_weaken _ _ (fun a bs H => proj1 H) _ _ F)].
    assert (U : uniform same_kind l1 = true).
    { rewrite sorted_atoms_spec in Hs.
      destruct (uniform same_kind l1); [reflexivity | discriminate]. }
    assert (D' : NoDup (psort atom_ltb l1))
      by (apply (Permutation_NoDup (Permutation_sym Pm) D)).
    apply (StronglySorted_within (fun a b => atom_ltb a b = true)).
    { exact (sorted_strictly atom_ltb _ D' (psort_sorted atom_ltb l1)). }
    intros a b Ha Hb Lt. rewrite py_lt_agree.
    destruct (uniform_in same_kind same_kind_sym l1 U a b) as [->|K].
    + now apply (Permutation_in _ Pm).
    + now apply (Permutation_in _ Pm).
    + rewrite (ltb_irrefl b) in Lt. discriminate.
    + now rewrite K, Lt.
  - intros n f' W.
    destruct (write_map_wire _ _ _ _ _ _ Hn W) as (prefix & bss & Hs & F & Rd & Wr).
    destruct (writes_inv _ _ _ _ _ Wr W) as [-> ->].
    pose proof (psort_permutation item_ltb m1) as Pm.
    exists (psort item_ltb m1), prefix, bss.
    split; [exact Pm|].
    split; [|repeat split; try assumption;
             exact (Forall2_weaken _ _ (pair_wire_written kt vt) _ _ F)].
    assert (U : uniform (fun p q => same_kind (fst p) (fst q)) m1 = true).
    { rewrite (sorted_items_spec m1 Hn) in Hs.
      destruct (uniform (fun p q => same_kind (fst p) (fst q)) m1);
        [reflexivity | discriminate]. }
    assert (D' : NoDup (map fst (psort item_ltb m1))).
    { apply (Permutation_NoDup (l := map fst m1)); [|exact Hn].
      apply Permutation_map. now apply Permutation_sym. }
    apply (StronglySorted_within
             (fun p q => atom_ltb (fst p) (fst q) = true)).
    { exact (keys_strictly_sorted _ D' (psort_sorted item_ltb m1)). }
    intros p q Hp Hq Lt. rewrite py_lt_agree.
    destruct (uniform_in (fun p q => same_kind (fst p) (fst q))
                (fun a b => same_kind_sym (fst a) (fst b)) m1 U p q) as [->|K].
    + now apply (Permutation_in _ Pm).
    + now apply (Permutation_in _ Pm).
    + rewrite (ltb_irrefl (fst q)) in Lt. discriminate.
    + now rewrite K, Lt.
Qed.
End ContainerSpecification.

(** A list, a set and a dict, written and read back on x86-64 Linux. *)
Lemma container_round_trip_witness :
  let P := x86_64_linux in
  let the_list := PList [AStr [101; 103; 103]; AStr [114; 228; 107]] in
  let the_set := PSet [AInt 3; AInt 1; AInt 2] in
  let the_dict := PDict [(AStr [98], AInt 1); (AStr [97], AInt 2)] in
  let list_bytes :=
    [x02; x00; x00; x00; x03; x65; x67; x67; x03; x72; xe4; x6b] in
  let set_bytes := [x03; x00; x00; x00; x01; x02; x03] in
  let dict_bytes := [x02; x00; x00; x00; x01; x61; x02; x01; x62; x01] in
  let round_trip x td n bytes :=
    write x td (BytesIO []) = (Ok n, mkStream bytes [])
    /\ (exists k f', write x td (BytesIO []) = (Ok k, f'))
    /\ exists bs y,
         n = Z.of_nat (List.length bs)
         /\ mkStream bytes [] = file_write bs (BytesIO [])
         /\ (forall g rest, ahead g = bs ++ rest ->
               read td g = (Ok y, mkStream (behind g ++ bs) rest))
         /\ py_eq x y = true
         /\ container_under (parse_type_descr td) y = true in
  round_trip the_list "vec:sstr/latin-1"%string 12 list_bytes
  /\ round_trip the_set "set:b"%string 7 set_bytes
  /\ round_trip the_dict "map:sstr:b"%string 10 dict_bytes.
Proof.
  intros P the_list the_set the_dict list_bytes set_bytes dict_bytes round_trip.
  assert (Wl : write the_list "vec:sstr/latin-1" (BytesIO [])
               = (Ok 12, mkStream list_bytes [])) by (vm_compute; reflexivity).
  assert (Ws : write the_set "set:b" (BytesIO [])
               = (Ok 7, mkStream set_bytes [])) by (vm_compute; reflexivity).
  assert (Wd : write the_dict "map:sstr:b" (BytesIO [])
               = (Ok 10, mkStream dict_bytes [])) by (vm_compute; reflexivity).
  destruct (container_round_trip (P := P) "vec:sstr/latin-1" the_list
              (BytesIO []) eq_refl eq_refl) as [Al Rl].
  destruct (container_round_trip (P := P) "set:b" the_set
              (BytesIO []) eq_refl eq_refl) as [As Rs].
  destruct (container_round_trip (P := P) "map:sstr:b" the_dict
              (BytesIO []) eq_refl eq_refl) as [Ad Rd].
  split; [|split].
  - split; [exact Wl|]. split; [exact (Al eq_refl) | exact (Rl _ _ Wl)].
  - split; [exact Ws|]. split; [exact (As eq_refl) | exact (Rs _ _ Ws)].
  - split; [exact Wd|]. split; [exact (Ad eq_refl) | exact (Rd _ _ Wd)].
Defined.

(** The set {3, 1, 2} and the dict {'b': 1, 'a': 2}, each in two orders, on
    x86-64 Linux: the bytes are the count, then 1, 2, 3, and the count, then
    'a': 2 and 'b': 1. *)
Lemma sorted_write_deterministic_witness :
  let P := x86_64_linux in
  let l1 := [AInt 3; AInt 1; AInt 2] in
  let l2 := [AInt 1; AInt 3; AInt 2] in
  let m1 := [(AStr [98], AInt 1); (AStr [97], AInt 2)] in
  let m2 := [(AStr [97], AInt 2); (AStr [98], AInt 1)] in
  let ty := ("b"%string, @None string) in
  let kt := ("sstr"%string, @None string) in
  let set_bytes := [x03; x00; x00; x00; x01; x02; x03] in
  let dict_bytes := [x02; x00; x00; x00; x01; x61; x02; x01; x62; x01] in
  Permutation l1 l2 /\ NoDup l1 /\ NoDup (map fst m1) /\ Permutation m1 m2
  /\ write_set (PSet l1) ty (BytesIO []) = (Ok 7, mkStream set_bytes [])
  /\ write_set (PSet l2) ty (BytesIO []) = (Ok 7, mkStream set_bytes [])
  /\ write_map (PDict m1) kt ty (BytesIO []) = (Ok 10, mkStream dict_bytes [])
  /\ write_map (PDict m2) kt ty (BytesIO []) = (Ok 10, mkStream dict_bytes [])
  /\ write_set (PSet l1) ty (BytesIO []) = write_set (PSet l2) ty (BytesIO [])
  /\ write_map (PDict m1) kt ty (BytesIO [])
     = write_map (PDict m2) kt ty (BytesIO [])
  /\ (exists members prefix bss,
        Permutation members l1
        /\ StronglySorted (fun a b => py_lt a b = Ok true) members
        /\ reads (read_number LONG_TYPE) prefix (Z.of_nat (List.length l1))
        /\ Forall2 (scalar_written ty) members bss
        /\ 7 = Z.of_nat (List.length (prefix ++ List.concat bss))
        /\ mkStream set_bytes []
           = file_write (prefix ++ List.concat bss) (BytesIO []))
  /\ (exists items prefix bss,
        Permutation items m1
        /\ StronglySorted (fun p q => py_lt (fst p) (fst q) = Ok true) items
        /\ reads (read_number LONG_TYPE) prefix (Z.of_nat (List.length m1))
        /\ Forall2 (pair_written kt ty) items bss
        /\ 10 = Z.of_nat (List.length (prefix ++ List.concat bss))
        /\ mkStream dict_bytes []
           = file_write (prefix ++ List.concat bss) (BytesIO [])).
Proof.
  intros P l1 l2 m1 m2 ty kt set_bytes dict_bytes.
  assert (Hl : Permutation l1 l2) by apply perm_swap.
  assert (Dl : NoDup l1) by (apply distinct_spec; vm_compute; reflexivity).
  assert (Hn : NoDup (map fst m1)) by (apply distinct_spec; vm_compute; reflexivity).
  assert (Hm : Permutation m1 m2) by apply perm_swap.
  assert (Ws : write_set (PSet l1) ty (BytesIO []) = (Ok 7, mkStream set_bytes []))
    by (vm_compute; reflexivity).
  assert (Wm : write_map (PDict m1) kt ty (BytesIO [])
               = (Ok 10, mkStream dict_bytes [])) by (vm_compute; reflexivity).
  destruct (sorted_write_deterministic (P := P) l1 l2 m1 m2 ty kt ty
              (BytesIO []) Hl Hn Hm) as (Es & Em & Os & Om).
  split; [exact Hl|]. split; [exact Dl|]. split; [exact Hn|]. split; [exact Hm|].
  split; [exact Ws|]. split; [vm_compute; reflexivity|].
  split; [exact Wm|]. split; [vm_compute; reflexivity|].
  split; [exact Es|]. split; [exact Em|].
  split; [exact (Os Dl _ _ Ws) | exact (Om _ _ Wm)].
Defined.
